(** * jello: the command-line front end [jello/cli.py]

    A shallow embedding of [jello.cli] and the properties of its [main].
    The module-level option object [jello.lib.opts] is the only state that
    lives across calls of [main]; everything a call prints is collected per
    call.  The library half of the package ([jello.lib]: [load_json],
    [pyquery], [create_json], [Schema], the theme) is an interface here
    ([JelloLib]); [main] is verified against every implementation of it. *)

From Stdlib Require Import ZArith String Ascii List Bool.
From stdpp Require Import base option list gmap strings pretty.

Local Open Scope string_scope.

(** ** Python strings

    A string is a sequence of characters; a character of this development
    is a code point below 256, one [ascii] each. *)

Module Py.

Definition nl : string := String (ascii_of_nat 10) EmptyString.
Definition dq : string := String (ascii_of_nat 34) EmptyString.

(** The backslash. *)
Definition backslash : ascii := ascii_of_nat 92.
Definition bs : string := String backslash EmptyString.

(** [''.join(lines)] where every line carries its own terminator. *)
Definition unlines (ls : list string) : string :=
  foldr (fun l acc => l +:+ nl +:+ acc) EmptyString ls.

(** [s.startswith(p)] *)
Definition startswith (p s : string) : bool := String.prefix p s.

(** [s[n:]] for [0 <= n] *)
Fixpoint drop (n : nat) (s : string) : string :=
  match n, s with
  | O, _ => s
  | S _, EmptyString => EmptyString
  | S n', String _ r => drop n' r
  end.

(** [s[:n]] for [0 <= n] *)
Definition take (n : nat) (s : string) : string := substring 0 n s.

(** [s[-n:]] for [0 < n]: the last [n] characters, all of [s] when it is
    shorter. *)
Definition last_n (n : nat) (s : string) : string :=
  drop (String.length s - n) s.

(** The characters for which [str.isspace] holds: TAB, LF, VT, FF, CR,
    FS, GS, RS, US, the space, NEL (U+0085) and the no-break space
    (U+00A0). *)
Definition is_space (c : ascii) : bool :=
  let n := nat_of_ascii c in
  (((9 <=? n) && (n <=? 13)) || ((28 <=? n) && (n <=? 32))
   || (n =? 133) || (n =? 160))%nat.

(** [s.isspace()]: at least one character, and all of them white space. *)
Definition isspace (s : string) : bool :=
  match s with
  | EmptyString => false
  | _ => forallb is_space (list_ascii_of_string s)
  end.

(** Truth value of a string: [bool(s)]. *)
Definition truthy (s : string) : bool :=
  match s with EmptyString => false | _ => true end.

(** [s.replace('\n', r)] *)
Fixpoint replace_nl (r : string) (s : string) : string :=
  match s with
  | EmptyString => EmptyString
  | String c s' =>
      if Ascii.eqb c (ascii_of_nat 10) then r +:+ replace_nl r s'
      else String c (replace_nl r s')
  end.

(** [s.split(sep)] for a one-character separator: never empty. *)
Fixpoint split (sep : ascii) (s : string) : list string :=
  match s with
  | EmptyString => [EmptyString]
  | String c s' =>
      if Ascii.eqb c sep then EmptyString :: split sep s'
      else match split sep s' with
           | [] => [String c EmptyString]
           | w :: ws => String c w :: ws
           end
  end.

(** *** [int(s)] on a string, base ten

    White space is skipped at both ends, one sign is allowed, then come
    decimal digits; single underscores may separate digits.  The white
    space of [int] is not that of [isspace]: it is TAB, LF, VT, FF, CR and
    the space, and of the characters above 127 NEL and the no-break space
    (they are turned into spaces first); FS, GS, RS and US are not
    skipped.  A text with more than [int_max_str_digits] digits is
    refused, whatever the digits are (the interpreter's default,
    [sys.int_info.default_max_str_digits]). *)

Definition is_digit (c : ascii) : bool :=
  let n := nat_of_ascii c in ((48 <=? n) && (n <=? 57))%nat.

Definition digit_val (c : ascii) : Z := Z.of_nat (nat_of_ascii c) - 48.

Definition is_int_space (c : ascii) : bool :=
  let n := nat_of_ascii c in
  (((9 <=? n) && (n <=? 13)) || (n =? 32) || (n =? 133) || (n =? 160))%nat.

Definition int_max_str_digits : Z := 4300.

Fixpoint lstrip (cs : list ascii) : list ascii :=
  match cs with
  | c :: r => if is_int_space c then lstrip r else cs
  | [] => []
  end.

Definition strip (cs : list ascii) : list ascii :=
  rev (lstrip (rev (lstrip cs))).

(** The number of digits of a text. *)
Fixpoint count_digits (cs : list ascii) : nat :=
  match cs with
  | c :: r => if is_digit c then S (count_digits r) else count_digits r
  | [] => O
  end.

(** Digits after the first one: [prev] tells whether the previous
    character was a digit (an underscore must sit between two digits). *)
Fixpoint int_digits (acc : Z) (prev : bool) (cs : list ascii) : option Z :=
  match cs with
  | [] => if prev then Some acc else None
  | c :: r =>
      if is_digit c then int_digits (10 * acc + digit_val c) true r
      else if Ascii.eqb c "_"%char then
        if prev then int_digits acc false r else None
      else None
  end.

Definition int_unsigned (cs : list ascii) : option Z :=
  match cs with
  | c :: r => if is_digit c then int_digits (digit_val c) true r else None
  | [] => None
  end.

Definition int (s : string) : option Z :=
  let cs := strip (list_ascii_of_string s) in
  if (int_max_str_digits <? Z.of_nat (count_digits cs))%Z then None
  else
    match cs with
    | c :: r =>
        if Ascii.eqb c "-"%char then Z.opp <$> int_unsigned r
        else if Ascii.eqb c "+"%char then int_unsigned r
        else int_unsigned (c :: r)
    | [] => None
    end.

End Py.

(** ** Exceptions, options, environment *)

(** What [print_exception] reads of an exception object: the class name,
    [str(e)], and the attribute [text] (which [SyntaxError] has, and which
    may hold [None]). *)
Inductive TextAttr :=
| NoText                    (* hasattr(e, 'text') is False *)
| TextNone                  (* e.text is None *)
| Text (s : string).        (* e.text is a string *)

Record Exn := mkExn {
  ex_class : string;        (* e.__class__.__name__ *)
  ex_str : string;          (* str(e) *)
  ex_text : TextAttr
}.

(** The class attributes of [jello.lib.opts] that [main] reads and
    writes.  The object belongs to the module: it is created once per
    process, and every call of [main] works on that same object.  An
    attribute is used only through its truth value. *)
Record Opts := mkOpts {
  compact : bool;
  initialize : bool;
  lines : bool;
  mono : bool;
  nulls : bool;
  raw : bool;
  schema : bool;
  version_info : bool;
  helpme : bool
}.

(** What a call of [main] finds around it. *)
Record Env := mkEnv {
  argv : list string;               (* sys.argv[1:] *)
  stdin : option string;            (* None: sys.stdin is a terminal *)
  stdout_isatty : bool;             (* sys.stdout.isatty() *)
  PYGMENTS_INSTALLED : bool;
  print_raises : string -> option Exn
    (* the exception print(text) raises on sys.stdout, if it does; a
       print that raises has written nothing *)
}.

(** ** The library interface [jello.lib] (and the package constants)

    The functions [main] calls, as functions of the option object they
    read and of their arguments: a function returns a value or raises. *)

Inductive LibFun :=
| FLoadJson | FPyQuery | FCreateJson
| FSchema | FSetColors | FCreateSchema | FSchemaText
| FHighlight | FPrint.

#[global] Instance LibFun_eq_dec : EqDecision LibFun.
Proof. solve_decision. Defined.

Class JelloLib := {
  Value : Type;                     (* the loaded document, a response *)
  SchemaObj : Type;                 (* an instance of jello.lib.Schema *)
  py_str : Value -> string;         (* str(x) *)
  load_json : Opts -> string -> Exn + Value;
  pyquery : Opts -> Value -> string -> Exn + Value;
  create_json : Opts -> Value -> Exn + string;
  Schema : Opts -> Exn + SchemaObj;
  set_colors : Opts -> SchemaObj -> Exn + SchemaObj;
  create_schema : Opts -> SchemaObj -> Value -> Exn + SchemaObj;
  schema_text : Opts -> SchemaObj -> Exn + string;
  (* JelloTheme(), set_colors(), JelloStyle, JsonLexer(),
     Terminal256Formatter(style), highlight(output, lexer, formatter) *)
  highlight : Opts -> string -> Exn + string;
  version : string;                 (* jello.__version__ *)
  AUTHOR : string;
  WEBSITE : string;
  COPYRIGHT : string;
  LICENSE : string
}.

(** ** Running a call: state, output, control *)

(** One entry of the call log: a library function (or [print] on
    [sys.stdout]) was called, with this text argument when it has one, and
    it raised or not.  The log is ghost state: the program does not read
    it. *)
Record Event := mkEvent {
  ev_fun : LibFun;
  ev_arg : option string;
  ev_raised : bool
}.

Record Proc := mkProc {
  p_opts : Opts;                    (* jello.lib.opts *)
  p_stdout : list string;           (* the texts printed on sys.stdout *)
  p_stderr : list string;           (* the texts printed on sys.stderr *)
  p_log : list Event
}.

(** How a piece of code ends: it returns a value, raises an exception
    (class [Exception]), or raises [SystemExit] through [sys.exit]. *)
Inductive Res (A : Type) :=
| Ok (a : A)
| Raise (e : Exn)
| Exit (code : Z).
Arguments Ok {A} a.
Arguments Raise {A} e.
Arguments Exit {A} code.

Definition M (A : Type) : Type := Proc -> Proc * Res A.

#[global] Instance M_ret : MRet M := fun A a p => (p, Ok a).
#[global] Instance M_bind : MBind M := fun A B f m p =>
  match m p with
  | (p', Ok a) => f a p'
  | (p', Raise e) => (p', Raise e)
  | (p', Exit c) => (p', Exit c)
  end.

(** [try: body / except Exception as e: handler(e)]; [SystemExit] is not
    an [Exception] and passes through. *)
Definition try_except {A} (body : M A) (handler : Exn -> M A) : M A :=
  fun p =>
    match body p with
    | (p', Raise e) => handler e p'
    | r => r
    end.

Definition raise {A} (e : Exn) : M A := fun p => (p, Raise e).
Definition sys_exit {A} (code : Z) : M A := fun p => (p, Exit code).
Definition get_opts : M Opts := fun p => (p, Ok (p_opts p)).
Definition put_opts (o : Opts) : M unit := fun p =>
  (mkProc o (p_stdout p) (p_stderr p) (p_log p), Ok tt).
Definition log (ev : Event) : M unit := fun p =>
  (mkProc (p_opts p) (p_stdout p) (p_stderr p) (p_log p ++ [ev]), Ok tt).

(** A call into the library. *)
Definition call {A} (f : LibFun) (arg : option string) (r : Exn + A) : M A :=
  match r with
  | inl e => log (mkEvent f arg true) ;; raise e
  | inr a => log (mkEvent f arg false) ;; mret a
  end.

(** [print(text)] *)
Definition print (text : string) (E : Env) : M unit := fun p =>
  match print_raises E text with
  | Some e =>
      (mkProc (p_opts p) (p_stdout p) (p_stderr p)
              (p_log p ++ [mkEvent FPrint (Some text) true]), Raise e)
  | None =>
      (mkProc (p_opts p) (p_stdout p ++ [text]) (p_stderr p)
              (p_log p ++ [mkEvent FPrint (Some text) false]), Ok tt)
  end.

(** [print(text, file=sys.stderr)] *)
Definition print_stderr (text : string) : M unit := fun p =>
  (mkProc (p_opts p) (p_stdout p) (p_stderr p ++ [text]) (p_log p), Ok tt).

(** ** [jello/cli.py] *)

Section Cli.

Context {L : JelloLib}.
Variable E : Env.

(** The text [helptext] prints: the literal after [textwrap.dedent]. *)
Definition helptext_text : string :=
  Py.unlines
    [ "jello:  query JSON at the command line with python syntax";
      EmptyString;
      "Usage:  cat data.json | jello [OPTIONS] [QUERY]";
      EmptyString;
      "        -c   compact JSON output";
      "        -i   initialize environment with .jelloconf.py in ~ (linux) or %appdata% (Windows)";
      "        -l   output as lines suitable for assignment to a bash array";
      "        -m   monochrome output";
      "        -n   print selected null values";
      "        -r   raw string output (no quotes)";
      "        -s   print the JSON schema in grep-able format";
      "        -v   version info";
      "        -h   help";
      EmptyString;
      "Use '_' as the input data and use python dict and list bracket syntax or dot notation.";
      EmptyString;
      "Examples:";
      "        cat data.json | jello _.foo";
      "        cat data.json | jello '_[" +:+ Py.dq +:+ "foo" +:+ Py.dq +:+ "]'";
      "        variable=($(cat data.json | jello -l _.foo))" ].

(** The text the [-v] branch prints (the constants hold one line each). *)
Definition version_text : string :=
  Py.unlines
    [ "jello:   Version: " +:+ version;
      "         Author: " +:+ AUTHOR;
      "         Website: " +:+ WEBSITE;
      "         Copyright: " +:+ COPYRIGHT;
      "         License: " +:+ LICENSE ].

Definition get_stdin : option string := stdin E.

Definition helptext {A} : M A :=
  print helptext_text E ;; sys_exit 0.

Definition print_error {A} (message : string) : M A :=
  print_stderr message ;; sys_exit 1.

(** [str(x)[:34] + ' ... ' + str(x)[-34:]] when [x] is longer than 70. *)
Definition shorten (s : string) : string :=
  if (70 <? String.length s)%nat
  then Py.take 34 s +:+ " ... " +:+ Py.last_n 34 s
  else s.

Definition str_default (x : option Value) : string :=
  match x with
  | Some v => py_str v
  | None => EmptyString           (* the default argument '' *)
  end.

Definition ex_line (item_name item : string) : string :=
  if Py.truthy item
  then "        " +:+ item_name +:+ ": " +:+ item +:+ Py.nl
  else EmptyString.

Definition print_exception {A} (e : Exn) (list_dict_data : option Value)
    (query : string) (response : option Value) (output : string)
    (ex_type : string) : M A :=
  let list_dict_data := Py.replace_nl (Py.bs +:+ "n") (str_default list_dict_data) in
  let query := Py.replace_nl (Py.bs +:+ "n") query in
  let response := Py.replace_nl (Py.bs +:+ "n") (str_default response) in
  let output := Py.replace_nl (Py.bs +:+ "n") output in
  e_text ← match ex_text e with
           | NoText => mret EmptyString
           | Text t => mret (Py.replace_nl EmptyString t)
           | TextNone =>
               raise (mkExn "AttributeError"
                        "'NoneType' object has no attribute 'replace'" NoText)
           end;
  let list_dict_data := shorten list_dict_data in
  let query := shorten query in
  let response := shorten response in
  let output := shorten output in
  let exception_message :=
    "jello:  " +:+ ex_type +:+ " Exception:  " +:+ ex_class e +:+ Py.nl
    +:+ "        " +:+ ex_str e +:+ Py.nl
    +:+ (if Py.truthy e_text then "        " +:+ e_text +:+ Py.nl
         else EmptyString)
    +:+ ex_line "query" query
    +:+ ex_line "data" list_dict_data
    +:+ ex_line "response" response
    +:+ ex_line "output" output in
  print_stderr exception_message ;; sys_exit 1.

(** *** The argument loop *)

Record Args := mkArgs {
  options : list ascii;
  long_options : gmap string Z;
  query : string
}.

(** The body of the [try] for a [--] argument, on [arg[2:]]:
    [k, v = arg[2:].split('=')] and [int(v)]; [None] when it raises. *)
Definition long_option (s : string) : option (string * Z) :=
  match Py.split "="%char s with
  | [k; v] => z ← Py.int v; Some (k, z)
  | _ => None
  end.

Definition is_option (arg : string) : bool :=
  Py.startswith "-" arg && negb (Py.startswith "--" arg).

Definition is_long (arg : string) : bool := Py.startswith "--" arg.

Definition arg_step (a : Args) (arg : string) : M Args :=
  if is_option arg then
    mret (mkArgs (options a ++ list_ascii_of_string (Py.drop 1 arg))
                 (long_options a) (query a))
  else if is_long arg then
    match long_option (Py.drop 2 arg) with
    | Some (k, v) => mret (mkArgs (options a) (<[k:=v]> (long_options a)) (query a))
    | None => helptext
    end
  else
    mret (mkArgs (options a) (long_options a) arg).

Fixpoint arg_loop (args : list string) (a : Args) : M Args :=
  match args with
  | [] => mret a
  | arg :: rest => a' ← arg_step a arg; arg_loop rest a'
  end.

(** ['c' in options] *)
Definition has (c : ascii) (options : list ascii) : bool :=
  existsb (Ascii.eqb c) options.

(** Lines 145-153: [opts.x = opts.x or 'x' in options]. *)
Definition set_opts (options : list ascii) (o : Opts) : Opts :=
  {| compact := compact o || has "c" options;
     initialize := initialize o || has "i" options;
     lines := lines o || has "l" options;
     mono := mono o || has "m" options;
     nulls := nulls o || has "n" options;
     raw := raw o || has "r" options;
     schema := schema o || has "s" options;
     version_info := version_info o || has "v" options;
     helpme := helpme o || has "h" options |}.

Definition set_mono (o : Opts) : Opts :=
  {| compact := compact o; initialize := initialize o; lines := lines o;
     mono := true; nulls := nulls o; raw := raw o; schema := schema o;
     version_info := version_info o; helpme := helpme o |}.

(** [s[0:-1]] *)
Definition but_last (s : string) : string :=
  Py.take (String.length s - 1) s.

(** *** The four stages of [main] *)

Definition load_stage (data : string) : M Value :=
  try_except
    (o ← get_opts; call FLoadJson (Some data) (load_json o data))
    (fun e =>
       let msg :=
         "JSON Load Exception: Cannot parse the data (Not valid JSON or JSON Lines)"
         +:+ Py.nl +:+ "        " +:+ ex_str e +:+ Py.nl +:+ "        " in
       print_error ("jello:  " +:+ msg)).

Definition query_stage (list_dict_data : Value) (query : string) : M Value :=
  try_except
    (o ← get_opts; call FPyQuery (Some query) (pyquery o list_dict_data query))
    (fun e => print_exception e (Some list_dict_data) query None EmptyString "Query").

Definition format_stage (list_dict_data : Value) (query : string)
    (response : Value) : M string :=
  try_except
    (o ← get_opts;
     if schema o then
       s ← call FSchema None (Schema o);
       s ← call FSetColors None (set_colors o s);
       (if negb (stdout_isatty E) || negb (PYGMENTS_INSTALLED E)
        then put_opts (set_mono o) else mret tt) ;;
       o ← get_opts;
       s ← call FCreateSchema None (create_schema o s response);
       call FSchemaText None (schema_text o s)
     else
       call FCreateJson None (create_json o response))
    (fun e => print_exception e (Some list_dict_data) query (Some response)
                EmptyString "Formatting").

Definition output_stage (list_dict_data : Value) (query : string)
    (response : Value) (output : string) : M unit :=
  try_except
    (o ← get_opts;
     if schema o then print output E
     else if negb (mono o) && negb (raw o) && stdout_isatty E
             && PYGMENTS_INSTALLED E then
       highlighted_json ← call FHighlight (Some output) (highlight o output);
       print (but_last highlighted_json) E
     else print output E)
    (fun e => print_exception e (Some list_dict_data) query (Some response)
                output "Output").

(** *** [main(data=None, query='_')] *)

Definition default_query : string := "_".

Definition main (data : option string) (query : string) : M unit :=
  (* the signal handlers and the win32 console call print nothing and
     touch neither opts nor the data *)
  let data := match data with None => get_stdin | Some _ => data end in
  '(mkArgs options long_options query) ← arg_loop (argv E) (mkArgs [] ∅ query);
  o ← get_opts;
  put_opts (set_opts options o) ;;
  o ← get_opts;
  (if helpme o then helptext else mret tt) ;;
  (if version_info o then print version_text E ;; sys_exit 0 else mret tt) ;;
  data ← match data with
         | None => print_error ("jello:  missing piped JSON or JSON Lines data" +:+ Py.nl)
         | Some d => mret d
         end;
  (* only process if there is data *)
  if Py.truthy data && negb (Py.isspace data) then
    list_dict_data ← load_stage data;
    response ← query_stage list_dict_data query;
    output ← format_stage list_dict_data query response;
    output_stage list_dict_data query response output
  else mret tt.

End Cli.

Arguments main {L} E data query.

(** A call of [main] starts with empty streams; what persists from
    earlier calls is the option object. *)
Definition start (o : Opts) : Proc := mkProc o [] [] [].

Definition run_main {L : JelloLib} (E : Env) (o : Opts) (data : option string)
    (query : string) : Proc * Res unit :=
  main E data query (start o).

(** The exit status of the process when [main] is the program: 0 after a
    normal return, the argument of [sys.exit], 1 after an exception that
    nothing caught. *)
Definition exit_status (r : Res unit) : Z :=
  match r with
  | Ok _ => 0
  | Exit code => code
  | Raise _ => 1
  end.


(** ** The core, from its specification

    [jello.lib] is the half of the package that loads, queries and renders
    documents.  The definitions of this module follow the design document
    of the core (its sections 3, 4 and 6); they give [JelloLib] one
    concrete implementation, [Core.lib]. *)

Module Core.

(** Modelled from the spec: the Document Value of section 3, for the
    missing [jello.lib] data.  A [Float] keeps the text of its literal
    (rounding to binary64 is not part of the model); a [Map] is the
    ordered sequence of its entries. *)
#[warnings="-register-all"] Inductive Value :=
| Null
| Bool (b : bool)
| Int (i : Z)
| Float (literal : string)
| Str (s : string)
| List (l : list Value)
| Map (m : list (string * Value)).

(** Modelled from the spec: the error taxonomy of section 7, for the
    missing exceptions of [jello.lib]. *)
Inductive Error :=
| ParseError (line offset : nat)
| SyntaxError
| KeyNotFound (name : string)
| IndexOutOfRange (k : Z)
| TypeMismatch
| InvalidSlice
| UnsupportedShape.

(** *** Document Loader (section 4.1) *)

Inductive Token :=
| TLBrace | TRBrace | TLBracket | TRBracket | TColon | TComma
| TAtom (v : Value).

(** A token and the offset of its first character. *)
Definition Lexeme : Type := nat * Token.

Inductive LexState :=
| LStart
| LString (start : nat) (acc : list ascii)        (* inside a string *)
| LEscape (start : nat) (acc : list ascii)        (* after a backslash *)
| LUnicode (start : nat) (acc hex : list ascii)   (* after backslash u *)
| LNumber (start : nat) (acc : list ascii)
| LWord (start : nat) (acc : list ascii).

Definition json_ws (c : ascii) : bool :=
  let n := nat_of_ascii c in
  ((n =? 32) || (n =? 9) || (n =? 10) || (n =? 13))%nat.

Definition is_alpha (c : ascii) : bool :=
  let n := nat_of_ascii c in
  (((65 <=? n) && (n <=? 90)) || ((97 <=? n) && (n <=? 122)))%nat.

Definition number_char (c : ascii) : bool :=
  Py.is_digit c || Ascii.eqb c "-" || Ascii.eqb c "+" || Ascii.eqb c "."
  || Ascii.eqb c "e" || Ascii.eqb c "E".

Definition hex_val (c : ascii) : option nat :=
  let n := nat_of_ascii c in
  if Py.is_digit c then Some (n - 48)
  else if ((65 <=? n) && (n <=? 70))%nat then Some (n - 55)
  else if ((97 <=? n) && (n <=? 102))%nat then Some (n - 87)
  else None.

Fixpoint hex_number (acc : nat) (cs : list ascii) : option nat :=
  match cs with
  | [] => Some acc
  | c :: r => h ← hex_val c; hex_number (16 * acc + h) r
  end.

(** UTF-8 for one code unit of a [\u] escape (at most 16 bits; code units
    are encoded one by one). *)
Definition utf8 (cp : nat) : list ascii :=
  if (cp <? 128)%nat then [ascii_of_nat cp]
  else if (cp <? 2048)%nat then
    [ascii_of_nat (192 + cp / 64); ascii_of_nat (128 + cp mod 64)]
  else
    [ascii_of_nat (224 + cp / 4096); ascii_of_nat (128 + (cp / 64) mod 64);
     ascii_of_nat (128 + cp mod 64)].

Definition unescape (c : ascii) : option ascii :=
  if Ascii.eqb c "b" then Some (ascii_of_nat 8)
  else if Ascii.eqb c "f" then Some (ascii_of_nat 12)
  else if Ascii.eqb c "n" then Some (ascii_of_nat 10)
  else if Ascii.eqb c "r" then Some (ascii_of_nat 13)
  else if Ascii.eqb c "t" then Some (ascii_of_nat 9)
  else if Ascii.eqb c "/" || Ascii.eqb c Py.backslash || Ascii.eqb c (ascii_of_nat 34)
  then Some c
  else None.

(** Digits: at least one. *)
Fixpoint all_digits (cs : list ascii) : bool :=
  match cs with
  | [] => false
  | [c] => Py.is_digit c
  | c :: r => Py.is_digit c && all_digits r
  end.

Fixpoint digits_val (acc : Z) (cs : list ascii) : Z :=
  match cs with
  | [] => acc
  | c :: r => digits_val (10 * acc + Py.digit_val c) r
  end.

Fixpoint span (f : ascii -> bool) (cs : list ascii) : list ascii * list ascii :=
  match cs with
  | c :: r => if f c then let '(a, b) := span f r in (c :: a, b) else ([], cs)
  | [] => ([], [])
  end.

(** The integer part of a JSON number: [0], or digits not starting with
    [0]. *)
Definition json_int_part (ds : list ascii) : bool :=
  match ds with
  | [c] => Py.is_digit c
  | c :: r => Py.is_digit c && negb (Ascii.eqb c "0") && all_digits r
  | [] => false
  end.

Definition json_exponent (cs : list ascii) : bool :=
  match cs with
  | [] => true
  | e :: r =>
      (Ascii.eqb e "e" || Ascii.eqb e "E") &&
      match r with
      | s :: ds => if Ascii.eqb s "-" || Ascii.eqb s "+" then all_digits ds
                   else all_digits r
      | [] => false
      end
  end.

(** [-]? int frac? exp?: an [Int] without fraction and exponent. *)
Definition json_number (cs : list ascii) : option Value :=
  let '(neg, body) := match cs with
                      | c :: r => if Ascii.eqb c "-" then (true, r) else (false, cs)
                      | [] => (false, cs)
                      end in
  let '(ip, rest) := span Py.is_digit body in
  if negb (json_int_part ip) then None
  else match rest with
       | [] => Some (Int (if neg then - digits_val 0 ip else digits_val 0 ip))
       | c :: r =>
           if Ascii.eqb c "." then
             let '(fp, rest') := span Py.is_digit r in
             if all_digits fp && json_exponent rest'
             then Some (Float (string_of_list_ascii cs)) else None
           else if json_exponent rest
           then Some (Float (string_of_list_ascii cs)) else None
       end.

Definition json_word (cs : list ascii) : option Value :=
  let w := string_of_list_ascii cs in
  if String.eqb w "true" then Some (Bool true)
  else if String.eqb w "false" then Some (Bool false)
  else if String.eqb w "null" then Some Null
  else None.

(** What [LStart] does with a character at offset [pos]: a new state and
    the token it completes, or [None] when no token starts with it. *)
Definition lex_start (pos : nat) (c : ascii) : option (LexState * list Lexeme) :=
  if json_ws c then Some (LStart, [])
  else if Ascii.eqb c "{" then Some (LStart, [(pos, TLBrace)])
  else if Ascii.eqb c "}" then Some (LStart, [(pos, TRBrace)])
  else if Ascii.eqb c "[" then Some (LStart, [(pos, TLBracket)])
  else if Ascii.eqb c "]" then Some (LStart, [(pos, TRBracket)])
  else if Ascii.eqb c ":" then Some (LStart, [(pos, TColon)])
  else if Ascii.eqb c "," then Some (LStart, [(pos, TComma)])
  else if Ascii.eqb c (ascii_of_nat 34) then Some (LString pos [], [])
  else if Py.is_digit c || Ascii.eqb c "-" then Some (LNumber pos [c], [])
  else if is_alpha c then Some (LWord pos [c], [])
  else None.

(** The lexer: [inl offset] at the first character no token accounts
    for. *)
Fixpoint lex (st : LexState) (pos : nat) (cs : list ascii) (acc : list Lexeme)
  : nat + list Lexeme :=
  match cs with
  | [] =>
      match st with
      | LStart => inr (rev acc)
      | LNumber start w =>
          match json_number (rev w) with
          | Some v => inr (rev ((start, TAtom v) :: acc))
          | None => inl start
          end
      | LWord start w =>
          match json_word (rev w) with
          | Some v => inr (rev ((start, TAtom v) :: acc))
          | None => inl start
          end
      | LString _ _ | LEscape _ _ | LUnicode _ _ _ => inl pos
      end
  | c :: r =>
      match st with
      | LStart =>
          match lex_start pos c with
          | Some (st', ts) => lex st' (S pos) r (ts ++ acc)
          | None => inl pos
          end
      | LString start w =>
          if Ascii.eqb c (ascii_of_nat 34)
          then lex LStart (S pos) r
                 ((start, TAtom (Str (string_of_list_ascii (rev w)))) :: acc)
          else if Ascii.eqb c Py.backslash then lex (LEscape start w) (S pos) r acc
          else if (nat_of_ascii c <? 32)%nat then inl pos
          else lex (LString start (c :: w)) (S pos) r acc
      | LEscape start w =>
          if Ascii.eqb c "u" then lex (LUnicode start w []) (S pos) r acc
          else match unescape c with
               | Some c' => lex (LString start (c' :: w)) (S pos) r acc
               | None => inl pos
               end
      | LUnicode start w hex =>
          match hex_val c with
          | None => inl pos
          | Some _ =>
              let hex' := (hex ++ [c])%list in
              if (length hex' =? 4)%nat then
                match hex_number 0 hex' with
                | Some cp => lex (LString start (rev (utf8 cp) ++ w)) (S pos) r acc
                | None => inl pos
                end
              else lex (LUnicode start w hex') (S pos) r acc
          end
      | LNumber start w =>
          if number_char c then lex (LNumber start (c :: w)) (S pos) r acc
          else match json_number (rev w), lex_start pos c with
               | Some v, Some (st', ts) =>
                   lex st' (S pos) r (ts ++ (start, TAtom v) :: acc)
               | None, _ => inl start
               | _, None => inl pos
               end
      | LWord start w =>
          if is_alpha c then lex (LWord start (c :: w)) (S pos) r acc
          else match json_word (rev w), lex_start pos c with
               | Some v, Some (st', ts) =>
                   lex st' (S pos) r (ts ++ (start, TAtom v) :: acc)
               | None, _ => inl start
               | _, None => inl pos
               end
      end
  end.

(** The parser works on the token list with an explicit stack of open
    containers. *)
Inductive Frame :=
| InList (acc : list Value)                    (* elements, last first *)
| InMap (acc : list (string * Value)) (key : option string).

Inductive Expect :=
| XValue                (* a value *)
| XValueOrClose         (* after an opening bracket: a value or the end *)
| XKeyOrClose           (* after an opening brace: a key or the end *)
| XKey                  (* after a comma in an object *)
| XColon
| XCommaOrClose         (* after a value in a container *)
| XEnd (v : Value).     (* the document is complete *)

(** Keys are unique within a [Map]: a repeated key replaces the value and
    keeps the place of its first occurrence. *)
Fixpoint map_set (k : string) (v : Value) (m : list (string * Value))
  : list (string * Value) :=
  match m with
  | [] => [(k, v)]
  | (k', v') :: r =>
      if String.eqb k k' then (k, v) :: r else (k', v') :: map_set k v r
  end.

(** A complete value goes to the innermost open container. *)
Definition push_value (v : Value) (stack : list Frame)
  : option (list Frame * Expect) :=
  match stack with
  | [] => Some ([], XEnd v)
  | InList acc :: s => Some (InList (v :: acc) :: s, XCommaOrClose)
  | InMap acc (Some k) :: s => Some (InMap (map_set k v acc) None :: s, XCommaOrClose)
  | InMap _ None :: _ => None
  end.

Definition close_list (stack : list Frame) : option (list Frame * Expect) :=
  match stack with
  | InList acc :: s => push_value (List (rev acc)) s
  | _ => None
  end.

Definition close_map (stack : list Frame) : option (list Frame * Expect) :=
  match stack with
  | InMap acc None :: s => push_value (Map acc) s
  | _ => None
  end.

Definition open_value (t : Token) (stack : list Frame)
  : option (list Frame * Expect) :=
  match t with
  | TAtom v => push_value v stack
  | TLBrace => Some (InMap [] None :: stack, XKeyOrClose)
  | TLBracket => Some (InList [] :: stack, XValueOrClose)
  | _ => None
  end.

Definition open_key (t : Token) (stack : list Frame)
  : option (list Frame * Expect) :=
  match t, stack with
  | TAtom (Str k), InMap acc None :: s => Some (InMap acc (Some k) :: s, XColon)
  | _, _ => None
  end.

Definition parse_step (t : Token) (stack : list Frame) (x : Expect)
  : option (list Frame * Expect) :=
  match x with
  | XValue => open_value t stack
  | XValueOrClose =>
      match t with TRBracket => close_list stack | _ => open_value t stack end
  | XKeyOrClose =>
      match t with TRBrace => close_map stack | _ => open_key t stack end
  | XKey => open_key t stack
  | XColon => match t with TColon => Some (stack, XValue) | _ => None end
  | XCommaOrClose =>
      match t, stack with
      | TComma, InList _ :: _ => Some (stack, XValue)
      | TComma, InMap _ _ :: _ => Some (stack, XKey)
      | TRBracket, _ => close_list stack
      | TRBrace, _ => close_map stack
      | _, _ => None
      end
  | XEnd _ => None
  end.

(** [inl offset]: the offset of the token that does not fit, or [len], the
    length of the text, when the text ends too early. *)
Fixpoint parse (toks : list Lexeme) (stack : list Frame) (x : Expect) (len : nat)
  : nat + Value :=
  match toks with
  | [] => match x with XEnd v => inr v | _ => inl len end
  | (pos, t) :: r =>
      match parse_step t stack x with
      | Some (stack', x') => parse r stack' x' len
      | None => inl pos
      end
  end.

(** One JSON value: the value, or the offset of the error. *)
Definition parse_json (text : list ascii) : nat + Value :=
  match lex LStart 0 text [] with
  | inl offset => inl offset
  | inr toks => parse toks [] XValue (length text)
  end.

(** Splitting on newlines. *)
Fixpoint split_lines (cur : list ascii) (cs : list ascii) : list (list ascii) :=
  match cs with
  | [] => [rev cur]
  | c :: r =>
      if Ascii.eqb c (ascii_of_nat 10) then rev cur :: split_lines [] r
      else split_lines (c :: cur) r
  end.

Definition blank (line : list ascii) : bool := forallb Py.is_space line.

(** Every non-blank line is one JSON value; [n] is the number of the first
    line of [ls]. *)
Fixpoint parse_lines (n : nat) (ls : list (list ascii)) : Error + list Value :=
  match ls with
  | [] => inr []
  | l :: r =>
      if blank l then parse_lines (S n) r
      else match parse_json l with
           | inl offset => inl (ParseError n offset)
           | inr v =>
               match parse_lines (S n) r with
               | inl e => inl e
               | inr vs => inr (v :: vs)
               end
           end
  end.

(** Modelled from the spec: the Document Loader of section 4.1, for the
    missing [jello.lib.load_json].  The text is one JSON value; failing
    that, it is JSON-Lines: the values of its non-blank lines, as a [List],
    or the value itself when there is exactly one.  A text without a
    non-blank line holds no value and loads as the empty [List]. *)
Definition load_json (text : string) : Error + Value :=
  let cs := list_ascii_of_string text in
  match parse_json cs with
  | inr v => inr v
  | inl _ =>
      match parse_lines 1 (split_lines [] cs) with
      | inl e => inl e
      | inr [v] => inr v
      | inr vs => inr (List vs)
      end
  end.

(** *** Query Engine: the access path (section 3) *)

Inductive KeyExpr :=
| KStr (s : string)
| KInt (i : Z).

Inductive Step :=
| Attribute (name : string)
| Key (k : KeyExpr)
| Slice (start stop step : option Z)
| WholeValue.

Definition Path : Type := list Step.

(** *** Query Engine: the parser (section 4.2) *)

Definition ident_start (c : ascii) : bool := is_alpha c || Ascii.eqb c "_".
Definition ident_char (c : ascii) : bool := ident_start c || Py.is_digit c.

(** A valid bare name. *)
Definition identifier (cs : list ascii) : bool :=
  match cs with
  | c :: r => ident_start c && forallb ident_char r
  | [] => false
  end.

(** An integer of a bracket: digits, after an optional minus sign. *)
Definition integer (cs : list ascii) : option Z :=
  match cs with
  | c :: r =>
      if Ascii.eqb c "-"
      then (if all_digits r then Some (- digits_val 0 r)%Z else None)
      else (if all_digits cs then Some (digits_val 0 cs) else None)
  | [] => None
  end.

(** A component of a slice may be left out. *)
Definition component (cs : list ascii) : option (option Z) :=
  match cs with
  | [] => Some None
  | _ => i ← integer cs; Some (Some i)
  end.

(** The text between the brackets, cut at its colons ([parts], first
    part first). *)
Definition bracket_step (parts : list (list ascii)) : option Step :=
  match parts with
  | [k] => i ← integer k; Some (Key (KInt i))
  | [a; b] => x ← component a; y ← component b; Some (Slice x y None)
  | [a; b; c] =>
      x ← component a; y ← component b; z ← component c; Some (Slice x y z)
  | _ => None
  end.

Inductive QState :=
| QStart                                     (* nothing read *)
| QStep                                      (* between two steps *)
| QAttr (name : list ascii)                  (* after a dot; last first *)
| QOpen                                      (* after an opening bracket *)
| QQuoted (quote : ascii) (s : list ascii)   (* in a quoted key; last first *)
| QClose (k : string)                        (* after the closing quote *)
| QNumber (parts : list (list ascii)) (cur : list ascii).
                                             (* in an index or a slice *)

Definition is_quote (c : ascii) : bool :=
  Ascii.eqb c "'" || Ascii.eqb c (ascii_of_nat 34).

Definition number_part (c : ascii) : bool := Py.is_digit c || Ascii.eqb c "-".

(** Between two steps only a dot or an opening bracket may come. *)
Definition step_start (c : ascii) : option QState :=
  if Ascii.eqb c "." then Some (QAttr [])
  else if Ascii.eqb c "[" then Some QOpen
  else None.

Fixpoint parse_steps (st : QState) (cs : list ascii) (acc : list Step)
  : option Path :=
  match cs with
  | [] =>
      match st with
      | QStart | QStep => Some (rev acc)
      | QAttr name =>
          if identifier (rev name)
          then Some (rev (Attribute (string_of_list_ascii (rev name)) :: acc))
          else None
      | _ => None
      end
  | c :: r =>
      match st with
      | QStart =>
          if Ascii.eqb c "_" then parse_steps QStep r (WholeValue :: acc)
          else st' ← step_start c; parse_steps st' r acc
      | QStep => st' ← step_start c; parse_steps st' r acc
      | QAttr name =>
          if ident_char c then parse_steps (QAttr (c :: name)) r acc
          else if identifier (rev name) then
            st' ← step_start c;
            parse_steps st' r (Attribute (string_of_list_ascii (rev name)) :: acc)
          else None
      | QOpen =>
          if is_quote c then parse_steps (QQuoted c []) r acc
          else if number_part c then parse_steps (QNumber [] [c]) r acc
          else if Ascii.eqb c ":" then parse_steps (QNumber [[]] []) r acc
          else None
      | QQuoted quote s =>
          if Ascii.eqb c quote
          then parse_steps (QClose (string_of_list_ascii (rev s))) r acc
          else parse_steps (QQuoted quote (c :: s)) r acc
      | QClose k =>
          if Ascii.eqb c "]" then parse_steps QStep r (Key (KStr k) :: acc)
          else None
      | QNumber parts cur =>
          if number_part c then parse_steps (QNumber parts (c :: cur)) r acc
          else if Ascii.eqb c ":"
          then parse_steps (QNumber (parts ++ [rev cur])%list []) r acc
          else if Ascii.eqb c "]" then
            s ← bracket_step (parts ++ [rev cur])%list;
            parse_steps QStep r (s :: acc)
          else None
      end
  end.

(** Modelled from the spec: the query parser of section 4.2, for the
    missing front half of [jello.lib.pyquery].  [None] is the rejection
    ([SyntaxError]) of a text outside the grammar. *)
Definition parse_query (q : string) : option Path :=
  parse_steps QStart (list_ascii_of_string q) [].

(** *** Query Engine: the evaluator (section 4.3) *)

Fixpoint lookup (name : string) (m : list (string * Value)) : option Value :=
  match m with
  | [] => None
  | (k, v) :: r => if String.eqb name k then Some v else lookup name r
  end.

(** The element at index [k], counted from the end when [k] is negative. *)
Definition index (l : list Value) (k : Z) : option Value :=
  let n := Z.of_nat (length l) in
  let i := (if k <? 0 then k + n else k)%Z in
  if ((0 <=? i) && (i <? n))%Z then l !! Z.to_nat i else None.

(** Python's clamping of a slice bound for a sequence of length [len]. *)
Definition clamp (len step i : Z) : Z :=
  if (i <? 0)%Z then
    (if (i + len <? 0)%Z then (if (step <? 0)%Z then -1 else 0)%Z else (i + len)%Z)
  else if (len <=? i)%Z then (if (step <? 0)%Z then len - 1 else len)%Z
  else i.

(** The indices a slice selects, in order; [step] is not 0. *)
Definition slice_indices (len : Z) (start stop : option Z) (step : Z) : list Z :=
  let first := match start with
               | Some i => clamp len step i
               | None => (if step <? 0 then len - 1 else 0)%Z
               end in
  let bound := match stop with
               | Some i => clamp len step i
               | None => (if step <? 0 then -1 else len)%Z
               end in
  let count := (if 0 <? step
                then (if first <? bound then (bound - first - 1) / step + 1 else 0)
                else (if bound <? first then (first - bound - 1) / (- step) + 1 else 0))%Z in
  (fun i => (first + Z.of_nat i * step)%Z) <$> seq 0 (Z.to_nat count).

(** The selected elements of a sequence. *)
Definition slice {A} (l : list A) (start stop step : option Z)
  : Error + list A :=
  let step := default 1%Z step in
  if (step =? 0)%Z then inl InvalidSlice
  else inr (omap (fun i => l !! Z.to_nat i)
                 (slice_indices (Z.of_nat (length l)) start stop step)).

Definition eval_step (s : Step) (v : Value) : Error + Value :=
  match s, v with
  | WholeValue, _ => inr v
  | Attribute name, Map m | Key (KStr name), Map m =>
      match lookup name m with
      | Some x => inr x
      | None => inl (KeyNotFound name)
      end
  | Key (KInt k), List l =>
      match index l k with
      | Some x => inr x
      | None => inl (IndexOutOfRange k)
      end
  | Slice start stop step, List l =>
      match slice l start stop step with
      | inr l' => inr (List l')
      | inl e => inl e
      end
  | Slice start stop step, Str s =>
      match slice (list_ascii_of_string s) start stop step with
      | inr cs => inr (Str (string_of_list_ascii cs))
      | inl e => inl e
      end
  | _, _ => inl TypeMismatch
  end.

(** Strictly left to right; the first failure ends the evaluation. *)
Fixpoint eval_path (p : Path) (v : Value) : Error + Value :=
  match p with
  | [] => inr v
  | s :: p' =>
      match eval_step s v with
      | inr v' => eval_path p' v'
      | inl e => inl e
      end
  end.

(** Modelled from the spec: the Query Engine of sections 4.2 and 4.3, for
    the missing [jello.lib.pyquery]: the query is parsed into an access
    path, and the path is applied to the document. *)
Definition pyquery (doc : Value) (q : string) : Error + Value :=
  match parse_query q with
  | Some p => eval_path p doc
  | None => inl SyntaxError
  end.

(** *** Literals *)

Definition hex_digit (n : nat) : ascii :=
  if (n <? 10)%nat then ascii_of_nat (48 + n) else ascii_of_nat (87 + n).

(** A character inside a JSON string. *)
Definition escape_char (c : ascii) : string :=
  let n := nat_of_ascii c in
  if Ascii.eqb c (ascii_of_nat 34) then Py.bs +:+ Py.dq
  else if Ascii.eqb c Py.backslash then Py.bs +:+ Py.bs
  else if (n =? 10)%nat then (Py.bs +:+ "n")
  else if (n =? 13)%nat then (Py.bs +:+ "r")
  else if (n =? 9)%nat then (Py.bs +:+ "t")
  else if (n =? 8)%nat then (Py.bs +:+ "b")
  else if (n =? 12)%nat then (Py.bs +:+ "f")
  else if (n <? 32)%nat
  then (Py.bs +:+ "u00") +:+ String (hex_digit (n / 16)) (String (hex_digit (n mod 16)) EmptyString)
  else String c EmptyString.

Fixpoint escape (s : string) : string :=
  match s with
  | EmptyString => EmptyString
  | String c r => escape_char c +:+ escape r
  end.

(** A string quoted and escaped. *)
Definition quote (s : string) : string := Py.dq +:+ escape s +:+ Py.dq.

(** An integer in decimal. *)
Definition decimal (i : Z) : string := pretty i.

Fixpoint join (sep : string) (ss : list string) : string :=
  match ss with
  | [] => EmptyString
  | [s] => s
  | s :: r => s +:+ sep +:+ join sep r
  end.

Definition is_scalar (v : Value) : bool :=
  match v with
  | List _ | Map _ => false
  | _ => true
  end.

Definition is_null (v : Value) : bool :=
  match v with Null => true | _ => false end.

(** The literal of a scalar. *)
Definition literal (v : Value) : string :=
  match v with
  | Null => "null"
  | Bool true => "true"
  | Bool false => "false"
  | Int i => decimal i
  | Float f => f
  | Str s => quote s
  | List _ => "[]"
  | Map _ => "{}"
  end.

(** *** Serializer (section 4.5) *)

Record Config := mkConfig {
  cfg_compact : bool;
  cfg_raw : bool;
  cfg_lines : bool;
  suppressNulls : bool
}.

Definition spaces (n : nat) : string := string_of_list_ascii (replicate n " "%char).

(** Standard JSON: on one line without white space when [compact],
    indented by two spaces for each level otherwise.  With [suppressNulls]
    the entries of a [Map] whose value is [Null] are left out. *)
Fixpoint render (cfg : Config) (level : nat) (v : Value) : string :=
  let inner := spaces (2 * S level) in
  let '(open, sep, close, colon) :=
    if cfg_compact cfg then (EmptyString, ",", EmptyString, ":")
    else (Py.nl +:+ inner, "," +:+ Py.nl +:+ inner, Py.nl +:+ spaces (2 * level), ": ") in
  match v with
  | List l =>
      match map (render cfg (S level)) l with
      | [] => "[]"
      | items => "[" +:+ open +:+ join sep items +:+ close +:+ "]"
      end
  | Map m =>
      match (fix entries (m : list (string * Value)) : list string :=
               match m with
               | [] => []
               | (k, x) :: r =>
                   if suppressNulls cfg && is_null x then entries r
                   else (quote k +:+ colon +:+ render cfg (S level) x) :: entries r
               end) m with
      | [] => "{}"
      | items => "{" +:+ open +:+ join sep items +:+ close +:+ "}"
      end
  | _ => literal v
  end.

(** One element of a line-oriented output: a string is written raw. *)
Definition line_item (cfg : Config) (v : Value) : string :=
  match v with
  | Str s => s
  | _ => render cfg 0 v
  end.

Definition scalar_list (v : Value) : option (list Value) :=
  match v with
  | List l => if forallb is_scalar l then Some l else None
  | _ => None
  end.

(** [raw] asks for a top-level string, [lines] for a top-level list of
    scalars; nulls are dropped before the lines are split. *)
Definition serialize (cfg : Config) (v : Value) : Error + string :=
  match (if cfg_lines cfg then scalar_list v else None), v with
  | Some l, _ =>
      let l := if suppressNulls cfg then List.filter (fun x => negb (is_null x)) l else l in
      inr (join Py.nl (map (line_item cfg) l))
  | None, Str s =>
      if cfg_raw cfg then inr s
      else if cfg_lines cfg then inl UnsupportedShape
      else inr (render cfg 0 v)
  | None, _ =>
      if cfg_raw cfg || cfg_lines cfg then inl UnsupportedShape
      else if suppressNulls cfg && is_null v then inr EmptyString
      else inr (render cfg 0 v)
  end.

(** Modelled from the spec: the Serializer of section 4.5 as its caller
    uses it, for the missing [jello.lib.create_json]: when the shape does
    not fit [raw] or [lines], the value is rendered as standard JSON. *)
Definition create_json (cfg : Config) (v : Value) : string :=
  match serialize cfg v with
  | inr text => text
  | inl _ =>
      let cfg' := mkConfig (cfg_compact cfg) false false (suppressNulls cfg) in
      match serialize cfg' v with
      | inr text => text
      | inl _ => EmptyString
      end
  end.

(** *** Schema Walker (section 4.4) *)

Record SchemaLine := mkLine {
  line_path : Path;
  line_type : string;
  line_value : string
}.

Definition type_name (v : Value) : string :=
  match v with
  | Null => "null"
  | Bool _ => "boolean"
  | Int _ => "integer"
  | Float _ => "float"
  | Str _ => "string"
  | List _ => "array"
  | Map _ => "object"
  end.

(** The step to the entry of key [k]: dot notation for a bare name. *)
Definition key_step (k : string) : Step :=
  if identifier (list_ascii_of_string k) then Attribute k else Key (KStr k).

(** Modelled from the spec: the traversal of section 4.4, for the missing
    [jello.lib.Schema.create_schema]: one line for each terminal value and
    each empty container, in document order; [path] is the path so far. *)
Fixpoint walk (path : Path) (v : Value) : list SchemaLine :=
  match v with
  | List ((_ :: _) as l) =>
      (fix elements (i : nat) (l : list Value) : list SchemaLine :=
         match l with
         | [] => []
         | x :: r =>
             (walk (path ++ [Key (KInt (Z.of_nat i))])%list x ++ elements (S i) r)%list
         end) 0%nat l
  | Map ((_ :: _) as m) =>
      (fix entries (m : list (string * Value)) : list SchemaLine :=
         match m with
         | [] => []
         | (k, x) :: r => (walk (path ++ [key_step k])%list x ++ entries r)%list
         end) m
  | _ => [mkLine path (type_name v) (literal v)]
  end.

Definition component_text (c : option Z) : string :=
  match c with Some i => decimal i | None => EmptyString end.

Definition step_text (s : Step) : string :=
  match s with
  | WholeValue => "_"
  | Attribute name => "." +:+ name
  | Key (KStr k) => "[" +:+ quote k +:+ "]"
  | Key (KInt i) => "[" +:+ decimal i +:+ "]"
  | Slice a b None => "[" +:+ component_text a +:+ ":" +:+ component_text b +:+ "]"
  | Slice a b c =>
      "[" +:+ component_text a +:+ ":" +:+ component_text b +:+ ":"
      +:+ component_text c +:+ "]"
  end.

Definition path_text (p : Path) : string :=
  foldr (fun s acc => step_text s +:+ acc) EmptyString p.

(** [<rendered-path> = <literal-value>;  (<type-name>)] *)
Definition line_text (l : SchemaLine) : string :=
  path_text (line_path l) +:+ " = " +:+ line_value l +:+ ";  ("
  +:+ line_type l +:+ ")".

Definition schema_text (ls : list SchemaLine) : string :=
  join Py.nl (map line_text ls).

(** *** The documents as Python prints them

    [str(x)] of a loaded document, for the messages of [print_exception]:
    a string is itself, everything else is its [repr]. *)

Definition repr_char (quote : ascii) (c : ascii) : string :=
  let n := nat_of_ascii c in
  if Ascii.eqb c quote || Ascii.eqb c Py.backslash then String Py.backslash (String c EmptyString)
  else if (n =? 10)%nat then (Py.bs +:+ "n")
  else if (n =? 13)%nat then (Py.bs +:+ "r")
  else if (n =? 9)%nat then (Py.bs +:+ "t")
  else if ((n <? 32) || (n =? 127))%nat
  then (Py.bs +:+ "x") +:+ String (hex_digit (n / 16)) (String (hex_digit (n mod 16)) EmptyString)
  else String c EmptyString.

Definition repr_str (s : string) : string :=
  let cs := list_ascii_of_string s in
  let q := if existsb (Ascii.eqb "'") cs && negb (existsb (Ascii.eqb (ascii_of_nat 34)) cs)
           then ascii_of_nat 34 else "'"%char in
  String q (foldr (fun c acc => repr_char q c +:+ acc) (String q EmptyString) cs).

Fixpoint repr (v : Value) : string :=
  match v with
  | Null => "None"
  | Bool true => "True"
  | Bool false => "False"
  | Int i => decimal i
  | Float f => f
  | Str s => repr_str s
  | List l => "[" +:+ join ", " (map repr l) +:+ "]"
  | Map m =>
      "{" +:+ join ", " (map (fun kv : string * Value =>
                                 repr_str kv.1 +:+ ": " +:+ repr kv.2) m) +:+ "}"
  end.

Definition py_str (v : Value) : string :=
  match v with
  | Str s => s
  | _ => repr v
  end.

(** *** The interface, implemented *)

(** The exception object that stands for an error of the core. *)
Definition exn (e : Error) : Exn :=
  match e with
  | ParseError line offset =>
      mkExn "ParseError"
        ("line " +:+ pretty line +:+ ", offset " +:+ pretty offset) NoText
  | SyntaxError => mkExn "SyntaxError" "not an access path" NoText
  | KeyNotFound name => mkExn "KeyNotFound" name NoText
  | IndexOutOfRange k => mkExn "IndexOutOfRange" (decimal k) NoText
  | TypeMismatch => mkExn "TypeMismatch" "the step does not fit the value" NoText
  | InvalidSlice => mkExn "InvalidSlice" "slice step cannot be zero" NoText
  | UnsupportedShape => mkExn "UnsupportedShape" "the option does not fit the value" NoText
  end.

Definition raising {A} (r : Error + A) : Exn + A :=
  match r with
  | inl e => inl (exn e)
  | inr a => inr a
  end.

(** The flags of section 6; [-n] asks for the nulls to be printed. *)
Definition config (o : Opts) : Config :=
  mkConfig (compact o) (raw o) (lines o) (negb (nulls o)).

(** The core as an implementation of [jello.lib].  The theme is outside
    the core: colours are left out, [highlight] gives the text back with
    the line end that the formatter adds.  The package constants of
    [jello/__init__.py] are stand-ins; nothing below depends on them. *)
Definition lib : JelloLib :=
  Build_JelloLib
    Value
    (list SchemaLine)
    py_str
    (fun _ text => raising (load_json text))
    (fun _ doc q => raising (pyquery doc q))
    (fun o v => inr (create_json (config o) v))
    (fun _ => inr [])                                  (* Schema() *)
    (fun _ s => inr s)                                 (* set_colors *)
    (fun _ s v => inr (s ++ walk [WholeValue] v)%list) (* create_schema *)
    (fun _ s => inr (schema_text s))
    (fun _ text => inr (text +:+ Py.nl))               (* highlight *)
    "0.0.0" "the author" "the website" "the copyright line" "the license".

End Core.

(** ** The argument loop as a function *)

(** One argument; [None] when the loop leaves through [helptext]. *)
Definition scan_step (a : Args) (arg : string) : option Args :=
  if is_option arg then
    Some (mkArgs (options a ++ list_ascii_of_string (Py.drop 1 arg))
                 (long_options a) (query a))
  else if is_long arg then
    match long_option (Py.drop 2 arg) with
    | Some (k, v) => Some (mkArgs (options a) (<[k:=v]> (long_options a)) (query a))
    | None => None
    end
  else Some (mkArgs (options a) (long_options a) arg).

Fixpoint scan (args : list string) (a : Args) : option Args :=
  match args with
  | [] => Some a
  | arg :: rest =>
      match scan_step a arg with
      | Some a' => scan rest a'
      | None => None
      end
  end.

(** What the loop of a call leaves: the arguments of [E] read with the
    parameter [q] as the query to start from. *)
Definition parsed (E : Env) (q : string) : option Args :=
  scan (argv E) (mkArgs [] ∅ q).

(** The option settings a call works with, after lines 145-153. *)
Definition call_opts (E : Env) (o : Opts) (q : string) : Opts :=
  match parsed E q with
  | Some a => set_opts (options a) o
  | None => o
  end.

(** The query a call works with. *)
Definition call_query (E : Env) (q : string) : string :=
  match parsed E q with
  | Some a => query a
  | None => q
  end.

(** The call ends in [helptext] or in the version text: an argument is a
    malformed long option, or [helpme] or [version_info] holds after the
    flags have been added. *)
Definition asks_info (E : Env) (o : Opts) (q : string) : bool :=
  match parsed E q with
  | Some _ => helpme (call_opts E o q) || version_info (call_opts E o q)
  | None => true
  end.

(** What [main] uses of the loop's result. *)
Definition reading (a : Args) : list ascii * string := (options a, query a).

(** An argument that is a query: it does not start with a dash. *)
Definition positional (arg : string) : bool := negb (Py.startswith "-" arg).

(** A well-formed long option: [--key=integer], as the loop accepts it. *)
Definition well_formed_long (arg : string) : bool :=
  is_long arg && bool_decide (is_Some (long_option (Py.drop 2 arg))).

(** A long option the loop refuses. *)
Definition malformed_long (arg : string) : bool :=
  is_long arg && bool_decide (long_option (Py.drop 2 arg) = None).

(** The argument list without the positional arguments that a later
    positional argument overwrites. *)
Fixpoint drop_overwritten (args : list string) : list string :=
  match args with
  | [] => []
  | arg :: rest =>
      if positional arg && existsb positional rest then drop_overwritten rest
      else arg :: drop_overwritten rest
  end.

Definition with_argv (args : list string) (E : Env) : Env :=
  mkEnv args (stdin E) (stdout_isatty E) (PYGMENTS_INSTALLED E) (print_raises E).

(** ** The parts of a call *)

Definition with_opts (o : Opts) (p : Proc) : Proc :=
  mkProc o (p_stdout p) (p_stderr p) (p_log p).

Definition missing_data : string :=
  "jello:  missing piped JSON or JSON Lines data" +:+ Py.nl.

(** The message of the load stage for the exception [e]. *)
Definition load_message (e : Exn) : string :=
  "jello:  JSON Load Exception: Cannot parse the data (Not valid JSON or JSON Lines)"
  +:+ Py.nl +:+ "        " +:+ ex_str e +:+ Py.nl +:+ "        ".

(** [if data and not data.isspace()] *)
Definition has_data (data : string) : bool :=
  Py.truthy data && negb (Py.isspace data).

(** The flags of an option object, and their order: a flag that is set
    stays set. *)
Definition flags (o : Opts) : list bool :=
  [compact o; initialize o; lines o; mono o; nulls o; raw o; schema o;
   version_info o; helpme o].

Definition keeps (o o' : Opts) : Prop := Forall2 (fun b b' => b = true -> b' = true) (flags o) (flags o').

(** The streams of a piece of code behind those that [p] holds. *)
Definition behind {A} (p : Proc) (r : Proc * Res A) : Proc * Res A :=
  (mkProc (p_opts r.1) (p_stdout p ++ p_stdout r.1) (p_stderr p ++ p_stderr r.1)
          (p_log p ++ p_log r.1), r.2).

(** A piece of code that takes nothing but the option object from the
    state it starts in: it does not read the streams or the log. *)
Definition framed {A} (m : M A) : Prop :=
  forall p, m p = behind p (m (start (p_opts p))).

(** The functions of the two back ends. *)
Definition schema_fun (f : LibFun) : bool :=
  match f with
  | FSchema | FSetColors | FCreateSchema | FSchemaText => true
  | _ => false
  end.

Definition output_fun (f : LibFun) : bool :=
  match f with
  | FHighlight | FPrint => true
  | _ => false
  end.

(** The text the output stage starts from: the argument of its first
    call. *)
Fixpoint output_text (log : list Event) : option string :=
  match log with
  | [] => None
  | ev :: r => if output_fun (ev_fun ev) then ev_arg ev else output_text r
  end.

Section Parts.

Context {L : JelloLib}.
Variable E : Env.

(** The part of [main] under [if data and not data.isspace()]. *)
Definition pipeline (data query : string) : M unit :=
  list_dict_data ← load_stage data;
  response ← query_stage list_dict_data query;
  output ← format_stage E list_dict_data query response;
  output_stage E list_dict_data query response output.

(** The data [main] works on: its argument, or the text piped in. *)
Definition piped (data : option string) : option string :=
  match data with None => get_stdin E | Some _ => data end.

(** The schema back end, lines 197-204, as a function: the option object
    it leaves and its text. *)
Definition schema_backend (o : Opts) (response : Value) : Exn + string :=
  match Schema o with
  | inl e => inl e
  | inr s =>
      match set_colors o s with
      | inl e => inl e
      | inr s =>
          let o' := if negb (stdout_isatty E) || negb (PYGMENTS_INSTALLED E)
                    then set_mono o else o in
          match create_schema o' s response with
          | inl e => inl e
          | inr s => schema_text o' s
          end
      end
  end.

(** The back end the schema flag selects. *)
Definition backend (o : Opts) (response : Value) : Exn + string :=
  if schema o then schema_backend o response else create_json o response.

(** The text that [print] is handed in the output stage, lines 213-235,
    for the text [output] of the back end: [output] itself, or, for JSON
    on a terminal with pygments and without [-m] and [-r], the highlighted
    text without its last character. *)
Definition shown (o : Opts) (output : string) : Exn + string :=
  if schema o then inr output
  else if negb (mono o) && negb (raw o) && stdout_isatty E
          && PYGMENTS_INSTALLED E
  then match highlight o output with
       | inl e => inl e
       | inr highlighted_json => inr (but_last highlighted_json)
       end
  else inr output.

(** What [print] leaves on stdout. *)
Definition printed (text : string) : list string :=
  match print_raises E text with
  | None => [text]
  | Some _ => []
  end.

End Parts.

(** ** What a query result is made of *)

Module Parts.
Import Core.

(** [part_of doc v]: [v] is [doc], an entry or an element of a part of
    [doc], or a selection of the elements (the characters) of a part. *)
Inductive part_of (doc : Value) : Value -> Prop :=
| part_root : part_of doc doc
| part_entry m k v : part_of doc (Map m) -> (k, v) ∈ m -> part_of doc v
| part_element l v : part_of doc (List l) -> v ∈ l -> part_of doc v
| part_elements l l' :
    part_of doc (List l) -> l' ⊆ l -> part_of doc (List l')
| part_characters s s' :
    part_of doc (Str s) ->
    list_ascii_of_string s' ⊆ list_ascii_of_string s ->
    part_of doc (Str s').

End Parts.

(** ** Sample calls *)

Module Sample.

(** A call with these arguments: the text is piped or given as [data],
    stdout is not a terminal, pygments is there, [print] does not raise. *)
Definition env (args : list string) : Env :=
  mkEnv args None false true (fun _ => None).

(** The option object of a new process: no flag is set. *)
Definition fresh : Opts :=
  mkOpts false false false false false false false false false.

(** [{"a":[{"b":1},{"b":2}]}] *)
Definition doc : string :=
  "{" +:+ Py.dq +:+ "a" +:+ Py.dq +:+ ":[{" +:+ Py.dq +:+ "b" +:+ Py.dq
  +:+ ":1},{" +:+ Py.dq +:+ "b" +:+ Py.dq +:+ ":2}]}".

(** [{"a": }], the malformed text of the design document. *)
Definition malformed : string :=
  "{" +:+ Py.dq +:+ "a" +:+ Py.dq +:+ ": }".

(** A blank text: TAB, no-break space, NEL, FS, space, LF. *)
Definition white : string :=
  string_of_list_ascii (map ascii_of_nat [9; 160; 133; 28; 32; 10]%nat).

(** [s] between double quotes. *)
Definition quoted (s : string) : string := Py.dq +:+ s +:+ Py.dq.

(** The document of [text], [Null] when it does not load. *)
Definition loaded (text : string) : Core.Value :=
  match Core.load_json text with
  | inr v => v
  | inl _ => Core.Null
  end.

Definition run (args : list string) (o : Opts) (data : string) : Proc * Res unit :=
  run_main (L:=Core.lib) (env args) o (Some data) default_query.

End Sample.

(** ** The access-path grammar, as a grammar *)

Module Grammar.
Import Core.

Local Open Scope list_scope.

(** Digits, after an optional minus sign. *)
Inductive integer_form : list ascii -> Z -> Prop :=
| form_digits ds :
    all_digits ds = true -> integer_form ds (digits_val 0 ds)
| form_minus ds :
    all_digits ds = true -> integer_form ("-"%char :: ds) (- digits_val 0 ds).

Inductive component_form : list ascii -> option Z -> Prop :=
| form_absent : component_form [] None
| form_given cs i : integer_form cs i -> component_form cs (Some i).

(** The text of one step: [.<identifier>], [[<integer>]], a quoted key in
    brackets, [[<start>:<stop>]] or [[<start>:<stop>:<step>]]. *)
Inductive step_form : Step -> list ascii -> Prop :=
| form_attribute name :
    identifier name = true ->
    step_form (Attribute (string_of_list_ascii name)) ("."%char :: name)
| form_index cs i :
    integer_form cs i ->
    step_form (Key (KInt i)) ("["%char :: cs ++ ["]"%char])
| form_key quote s :
    is_quote quote = true -> quote ∉ s ->
    step_form (Key (KStr (string_of_list_ascii s)))
              ("["%char :: quote :: s ++ [quote; "]"%char])
| form_slice a b x y :
    component_form a x -> component_form b y ->
    step_form (Slice x y None) ("["%char :: a ++ (":"%char :: b ++ ["]"%char]))
| form_slice_step a b c x y z :
    component_form a x -> component_form b y -> component_form c z ->
    step_form (Slice x y z)
              ("["%char :: a ++ (":"%char :: b ++ (":"%char :: c ++ ["]"%char]))).

(** Steps follow one another without separators. *)
Inductive steps_form : Path -> list ascii -> Prop :=
| form_end : steps_form [] []
| form_step s p cs cs' :
    step_form s cs -> steps_form p cs' -> steps_form (s :: p) (cs ++ cs').

(** A query: the steps, after the root marker when there is one. *)
Inductive query_form : Path -> list ascii -> Prop :=
| form_rooted p cs : steps_form p cs -> query_form (WholeValue :: p) ("_"%char :: cs)
| form_bare p cs : steps_form p cs -> query_form p cs.

(** The parts of a bracket, with their colons. *)
Fixpoint colon_join (parts : list (list ascii)) : list ascii :=
  match parts with
  | [] => []
  | [x] => x
  | x :: r => x ++ (":"%char :: colon_join r)
  end.

(** What is left to read in the state [st]: [cs] completes the step at
    hand and goes on with the steps of [p]. *)
Definition completes (st : QState) (cs : list ascii) (p : Path) : Prop :=
  match st with
  | QStart => query_form p cs
  | QStep => steps_form p cs
  | QAttr name =>
      exists more rest p',
        cs = more ++ rest /\ identifier (rev name ++ more) = true /\
        p = Attribute (string_of_list_ascii (rev name ++ more)) :: p' /\
        steps_form p' rest
  | QOpen =>
      exists body rest s p',
        cs = body ++ rest /\ step_form s ("["%char :: body) /\
        p = s :: p' /\ steps_form p' rest
  | QQuoted quote s =>
      exists more rest p',
        cs = more ++ (quote :: "]"%char :: rest) /\ (quote ∉ more) /\
        p = Key (KStr (string_of_list_ascii (rev s ++ more))) :: p' /\
        steps_form p' rest
  | QClose k =>
      exists rest p',
        cs = "]"%char :: rest /\ p = Key (KStr k) :: p' /\ steps_form p' rest
  | QNumber parts cur =>
      exists body rest s p',
        cs = body ++ ("]"%char :: rest) /\
        step_form s ("["%char :: colon_join (parts ++ [rev cur]) ++ body ++ ["]"%char]) /\
        p = s :: p' /\ steps_form p' rest
  end.

End Grammar.

(** ** More of [main]: flags, message fields, the order of the calls *)

(** The letters that lines 145-153 look for in [options]. *)
Definition flag_letters : list ascii :=
  ["c"; "i"; "l"; "m"; "n"; "r"; "s"; "v"; "h"]%char.

(** What lines 145-153 take from [options]. *)
Definition flags_of (options : list ascii) : list bool :=
  map (fun c => has c options) flag_letters.

(** What [main] uses of the loop's result, flag by flag. *)
Definition reading_flags (a : Args) : list bool * string :=
  (flags_of (options a), query a).

(** The text holds a line break. *)
Definition has_nl (s : string) : bool :=
  existsb (Ascii.eqb (ascii_of_nat 10)) (list_ascii_of_string s).

(** The exception [print_exception] ends in when [e.text] is [None]. *)
Definition attribute_error : Exn :=
  mkExn "AttributeError" "'NoneType' object has no attribute 'replace'" NoText.

(** The calls of a whole run, in the order of lines 174-238: with
    [create_json] and a plain [print], with [highlight], with the schema. *)
Definition json_calls : list LibFun :=
  [FLoadJson; FPyQuery; FCreateJson; FPrint].

Definition highlight_calls : list LibFun :=
  [FLoadJson; FPyQuery; FCreateJson; FHighlight; FPrint].

Definition schema_calls : list LibFun :=
  [FLoadJson; FPyQuery; FSchema; FSetColors; FCreateSchema; FSchemaText; FPrint].

Definition with_stdin (text : option string) (E : Env) : Env :=
  mkEnv (argv E) text (stdout_isatty E) (PYGMENTS_INSTALLED E) (print_raises E).

Module Faulty.

(** The core with a [pyquery] that raises a [SyntaxError] made from a
    message alone: the object has the attribute [text], and it holds
    [None]. *)
Definition lib : JelloLib :=
  Build_JelloLib
    (@Value Core.lib) (@SchemaObj Core.lib) (@py_str Core.lib)
    (@load_json Core.lib)
    (fun _ _ _ => inl (mkExn "SyntaxError" "invalid syntax" TextNone))
    (@create_json Core.lib) (@Schema Core.lib) (@set_colors Core.lib)
    (@create_schema Core.lib) (@schema_text Core.lib) (@highlight Core.lib)
    (@version Core.lib) (@AUTHOR Core.lib) (@WEBSITE Core.lib)
    (@COPYRIGHT Core.lib) (@LICENSE Core.lib).

End Faulty.

(** The number a list of decimal digits stands for. *)
Definition decimal_value (ds : list ascii) : Z :=
  fold_left (fun acc c => (10 * acc + Py.digit_val c)%Z) ds 0%Z.

(** The character [=]. *)
Definition equals : ascii := "="%char.

Module Terminal.

(** A call with these arguments on a terminal with pygments: stdout is a
    terminal, the text is given as [data]. *)
Definition env (args : list string) : Env :=
  mkEnv args None true true (fun _ => None).

Definition run (args : list string) (o : Opts) (data : string) : Proc * Res unit :=
  run_main (L:=Core.lib) (env args) o (Some data) default_query.

End Terminal.

(** ** JSON, as a grammar

    The grammar of JSON texts (RFC 8259): a text is a sequence of tokens,
    with white space allowed before and after each of them; the tokens
    are the six structural characters, strings, numbers and the literal
    names [true], [false] and [null]; and the sequence of tokens is one
    value.  JSON-Lines is line by line: every line that is not blank is a
    JSON text. *)

Module Json.

Local Open Scope list_scope.
Local Open Scope char_scope.

Definition quote : ascii := ascii_of_nat 34.
Definition line_feed : ascii := ascii_of_nat 10.

(** Space, horizontal tab, line feed, carriage return. *)
Definition ws_char (c : ascii) : Prop :=
  c = " " \/ c = ascii_of_nat 9 \/ c = line_feed \/ c = ascii_of_nat 13.

Definition digit (c : ascii) : Prop :=
  (48 <= nat_of_ascii c <= 57)%nat.

Definition hex_digit (c : ascii) : Prop :=
  digit c \/ (65 <= nat_of_ascii c <= 70)%nat \/ (97 <= nat_of_ascii c <= 102)%nat.

(** One digit or more. *)
Inductive digits : list ascii -> Prop :=
| digits_one c : digit c -> digits [c]
| digits_more c ds : digit c -> digits ds -> digits (c :: ds).

(** [int = zero / ( digit1-9 *DIGIT )] *)
Inductive int_part : list ascii -> Prop :=
| int_single c : digit c -> int_part [c]
| int_several c ds : digit c -> c <> "0" -> digits ds -> int_part (c :: ds).

(** [frac = decimal-point 1*DIGIT], optional. *)
Inductive frac : list ascii -> Prop :=
| frac_absent : frac []
| frac_given ds : digits ds -> frac ("." :: ds).

(** [exp = e [ minus / plus ] 1*DIGIT], optional. *)
Inductive exponent : list ascii -> Prop :=
| exp_absent : exponent []
| exp_given e ds : e = "e" \/ e = "E" -> digits ds -> exponent (e :: ds)
| exp_signed e s ds :
    e = "e" \/ e = "E" -> s = "-" \/ s = "+" -> digits ds ->
    exponent (e :: s :: ds).

(** [number = [ minus ] int [ frac ] [ exp ]] *)
Inductive number : list ascii -> Prop :=
| number_plain i f e :
    int_part i -> frac f -> exponent e -> number (i ++ f ++ e)
| number_minus i f e :
    int_part i -> frac f -> exponent e -> number ("-" :: i ++ f ++ e).

(** The characters between the quotes of a string: any character from
    the space on but the quote and the backslash, or an escape. *)
Inductive chars : list ascii -> Prop :=
| chars_end : chars []
| chars_plain c r :
    (32 <= nat_of_ascii c)%nat -> c <> quote -> c <> Py.backslash ->
    chars r -> chars (c :: r)
| chars_escape c r :
    c ∈ [quote; Py.backslash; "/"; "b"; "f"; "n"; "r"; "t"] ->
    chars r -> chars (Py.backslash :: c :: r)
| chars_unicode h1 h2 h3 h4 r :
    hex_digit h1 -> hex_digit h2 -> hex_digit h3 -> hex_digit h4 ->
    chars r -> chars (Py.backslash :: "u" :: h1 :: h2 :: h3 :: h4 :: r).

Inductive string_literal : list ascii -> Prop :=
| string_intro body : chars body -> string_literal (quote :: body ++ [quote]).

Inductive literal_name : list ascii -> Prop :=
| name_true : literal_name ["t"; "r"; "u"; "e"]
| name_false : literal_name ["f"; "a"; "l"; "s"; "e"]
| name_null : literal_name ["n"; "u"; "l"; "l"].

(** The kinds of tokens. *)
Inductive Kind :=
| KLBrace | KRBrace | KLBracket | KRBracket | KColon | KComma
| KString | KNumber | KName.

(** The text of a token. *)
Definition lexeme (k : Kind) (l : list ascii) : Prop :=
  match k with
  | KLBrace => l = ["{"]
  | KRBrace => l = ["}"]
  | KLBracket => l = ["["]
  | KRBracket => l = ["]"]
  | KColon => l = [":"]
  | KComma => l = [","]
  | KString => string_literal l
  | KNumber => number l
  | KName => literal_name l
  end.

(** A text and the tokens it spells. *)
Inductive spelled : list ascii -> list Kind -> Prop :=
| spelled_end : spelled [] []
| spelled_ws c cs ks : ws_char c -> spelled cs ks -> spelled (c :: cs) ks
| spelled_token k l cs ks :
    lexeme k l -> spelled cs ks -> spelled (l ++ cs) (k :: ks).

(** The tokens of a value:
    [value = false / null / true / object / array / number / string],
    [array = begin-array [ value *( value-separator value ) ] end-array],
    [object = begin-object [ member *( value-separator member ) ] end-object],
    [member = string name-separator value]. *)
Inductive value : list Kind -> Prop :=
| value_string : value [KString]
| value_number : value [KNumber]
| value_name : value [KName]
| value_empty_array : value [KLBracket; KRBracket]
| value_array es : elements es -> value (KLBracket :: es ++ [KRBracket])
| value_empty_object : value [KLBrace; KRBrace]
| value_object ms : members ms -> value (KLBrace :: ms ++ [KRBrace])
with elements : list Kind -> Prop :=
| elements_last v : value v -> elements v
| elements_more v es : value v -> elements es -> elements (v ++ KComma :: es)
with members : list Kind -> Prop :=
| members_last v : value v -> members (KString :: KColon :: v)
| members_more v ms :
    value v -> members ms -> members (KString :: KColon :: v ++ KComma :: ms).

Scheme value_mut := Minimality for value Sort Prop
  with elements_mut := Minimality for elements Sort Prop
  with members_mut := Minimality for members Sort Prop.

Combined Scheme value_elements_members from value_mut, elements_mut, members_mut.

(** A JSON text. *)
Definition text (cs : list ascii) : Prop :=
  exists ks, spelled cs ks /\ value ks.

Definition valid (s : string) : Prop := text (list_ascii_of_string s).

(** The lines of a text, put together again. *)
Fixpoint join_lines (ls : list (list ascii)) : list ascii :=
  match ls with
  | [] => []
  | [l] => l
  | l :: r => l ++ line_feed :: join_lines r
  end.

(** A line without a character that is not white space. *)
Definition blank_line (l : list ascii) : Prop :=
  Forall (fun c => Py.is_space c = true) l.

(** JSON-Lines: every line is blank or a JSON text. *)
Definition valid_lines (s : string) : Prop :=
  exists ls,
    ls <> [] /\ list_ascii_of_string s = join_lines ls /\
    Forall (fun l => line_feed ∉ l) ls /\
    Forall (fun l => blank_line l \/ text l) ls.

End Json.

(** *** The loader against the grammar *)

Module JsonParts.
Import Core Json.

Local Open Scope list_scope.

Definition kind_of (t : Token) : Kind :=
  match t with
  | TLBrace => KLBrace
  | TRBrace => KRBrace
  | TLBracket => KLBracket
  | TRBracket => KRBracket
  | TColon => KColon
  | TComma => KComma
  | TAtom (Str _) => KString
  | TAtom (Int _) | TAtom (Float _) => KNumber
  | TAtom _ => KName
  end.

Definition kinds (toks : list Lexeme) : list Kind :=
  map (fun t => kind_of t.2) toks.

(** What the lexer has left to read in the state [st]: the rest of the
    token at hand, then the tokens [ks]. *)
Definition lex_rest (st : LexState) (cs : list ascii) (ks : list Kind) : Prop :=
  match st with
  | LStart => spelled cs ks
  | LString _ _ =>
      exists body rest ks',
        cs = body ++ quote :: rest /\ chars body /\
        ks = KString :: ks' /\ spelled rest ks'
  | LEscape _ _ =>
      exists body rest ks',
        cs = body ++ quote :: rest /\ chars (Py.backslash :: body) /\
        ks = KString :: ks' /\ spelled rest ks'
  | LUnicode _ _ hex =>
      exists body rest ks',
        cs = body ++ quote :: rest /\
        chars (Py.backslash :: "u"%char :: hex ++ body) /\
        ks = KString :: ks' /\ spelled rest ks'
  | LNumber _ w =>
      exists more rest ks',
        cs = more ++ rest /\ number (rev w ++ more) /\
        ks = KNumber :: ks' /\ spelled rest ks'
  | LWord _ w =>
      exists more rest ks',
        cs = more ++ rest /\ literal_name (rev w ++ more) /\
        ks = KName :: ks' /\ spelled rest ks'
  end.

(** The states the lexer reaches: the digits of a [\u] escape read so
    far are hexadecimal digits, fewer than four. *)
Definition lex_ok (st : LexState) : Prop :=
  match st with
  | LUnicode _ _ hex => Forall hex_digit hex /\ (length hex < 4)%nat
  | _ => True
  end.

(** Where a run of characters ends: at the end of the text or before a
    character that is not of the run. *)
Definition stops (f : ascii -> bool) (cs : list ascii) : Prop :=
  match cs with
  | c :: _ => f c = false
  | [] => True
  end.

(** What has to follow a value that is complete in the innermost open
    container of [stack]: the rest of that container, and so on
    outwards. *)
Fixpoint after (stack : list Frame) (ks : list Kind) : Prop :=
  match stack with
  | [] => ks = []
  | InList _ :: s =>
      (exists b, ks = KRBracket :: b /\ after s b) \/
      (exists es b, ks = KComma :: es ++ KRBracket :: b /\ elements es /\ after s b)
  | InMap _ _ :: s =>
      (exists b, ks = KRBrace :: b /\ after s b) \/
      (exists ms b, ks = KComma :: ms ++ KRBrace :: b /\ members ms /\ after s b)
  end.

(** What the parser has left to read in the state [(stack, x)]. *)
Definition parse_rest (stack : list Frame) (x : Expect) (ks : list Kind) : Prop :=
  match x with
  | XValue => exists v b, ks = v ++ b /\ value v /\ after stack b
  | XValueOrClose =>
      (exists b, ks = KRBracket :: b /\ after (tail stack) b) \/
      (exists v b, ks = v ++ b /\ value v /\ after stack b)
  | XKeyOrClose =>
      (exists b, ks = KRBrace :: b /\ after (tail stack) b) \/
      (exists ms b, ks = ms ++ KRBrace :: b /\ members ms /\ after (tail stack) b)
  | XKey =>
      exists ms b, ks = ms ++ KRBrace :: b /\ members ms /\ after (tail stack) b
  | XColon =>
      exists v b, ks = KColon :: v ++ b /\ value v /\ after stack b
  | XCommaOrClose => after stack ks
  | XEnd _ => ks = []
  end.

(** A stack that takes a value. *)
Definition takes_value (stack : list Frame) : Prop :=
  match stack with
  | InMap _ None :: _ => False
  | _ => True
  end.

(** A token that is no number and no name. *)
Definition plain (k : Kind) : Prop :=
  match k with
  | KNumber | KName => False
  | _ => True
  end.

(** The tokens do not start with a token of the kind [k]. *)
Definition starts_other (k : Kind) (ks : list Kind) : Prop :=
  match ks with
  | k' :: _ => k' <> k
  | [] => True
  end.

(** No two names and no two numbers stand side by side. *)
Fixpoint apart (ks : list Kind) : Prop :=
  match ks with
  | KNumber :: ((KNumber :: _) as r) => False
  | KName :: ((KName :: _) as r) => False
  | _ :: r => apart r
  | [] => True
  end.

End JsonParts.

(** * Properties *)

Local Open Scope list_scope.

(** ** The argument loop *)

Section LoopFacts.

Context {L : JelloLib}.
Variable E : Env.

Lemma arg_step_scan a arg p :
  arg_step E a arg p =
  match scan_step a arg with
  | Some a' => (p, Ok a')
  | None => helptext E p
  end.
Proof.
  unfold arg_step, scan_step.
  destruct (is_option arg); [reflexivity|].
  destruct (is_long arg); [|reflexivity].
  destruct (long_option (Py.drop 2 arg)) as [[k v]|]; reflexivity.
Qed.

(** [helptext] does not return: what follows it is not run. *)
Lemma helptext_bind {A B} (f : A -> M B) p :
  (helptext E ≫= f) p = helptext E p.
Proof.
  unfold helptext, mbind, M_bind, print, sys_exit.
  destruct (print_raises E helptext_text); reflexivity.
Qed.

Lemma arg_loop_scan args : forall a p,
  arg_loop E args a p =
  match scan args a with
  | Some a' => (p, Ok a')
  | None => helptext E p
  end.
Proof.
  induction args as [|arg rest IH]; intros a p; simpl; [reflexivity|].
  destruct (scan_step a arg) as [a'|] eqn:Hstep.
  - rewrite <- IH. unfold mbind, M_bind. rewrite arg_step_scan, Hstep. reflexivity.
  - rewrite <- (helptext_bind (arg_loop E rest) p).
    unfold mbind, M_bind. rewrite arg_step_scan, Hstep. reflexivity.
Qed.

(** [main], case by case. *)
Lemma main_eq data q p :
  main E data q p =
  match parsed E q with
  | None => helptext E p
  | Some a =>
      let p1 := with_opts (set_opts (options a) (p_opts p)) p in
      if helpme (p_opts p1) then helptext E p1
      else if version_info (p_opts p1) then
        (print version_text E ;; sys_exit 0) p1
      else match piped E data with
           | None => print_error missing_data p1
           | Some d =>
               if has_data d then pipeline E d (query a) p1 else (p1, Ok tt)
           end
  end.
Proof.
  unfold main, parsed. unfold mbind at 1. unfold M_bind at 1.
  rewrite arg_loop_scan.
  destruct (scan (argv E) (mkArgs [] ∅ q)) as [[opt lo q']|];
    [|unfold helptext, mbind, M_bind, print, sys_exit;
      destruct (print_raises E helptext_text); reflexivity].
  cbn [options query].
  unfold mbind, M_bind, get_opts, put_opts, with_opts;
    cbn [p_opts p_stdout p_stderr p_log].
  destruct (helpme (set_opts opt (p_opts p))) eqn:Hh.
  - unfold helptext, mbind, M_bind, print, sys_exit.
    destruct (print_raises E helptext_text); reflexivity.
  - unfold mret, M_ret.
    destruct (version_info (set_opts opt (p_opts p))) eqn:Hv.
    + unfold print, sys_exit. destruct (print_raises E version_text); reflexivity.
    + unfold piped. destruct data as [d|]; [|destruct (get_stdin E) as [d|]];
        try reflexivity; unfold has_data, pipeline, mbind, M_bind;
        destruct (Py.truthy d && negb (Py.isspace d)); reflexivity.
Qed.

End LoopFacts.

(** ** Reading the arguments *)

Lemma long_starts_with_dash arg : is_long arg = true -> Py.startswith "-" arg = true.
Proof.
  unfold is_long, Py.startswith.
  destruct arg as [|c r]; cbn -[ascii_dec]; [discriminate|].
  destruct (ascii_dec "-" c); [by destruct r|discriminate].
Qed.

Lemma positional_spec arg :
  positional arg = negb (is_option arg) && negb (is_long arg).
Proof.
  unfold positional, is_option.
  destruct (is_long arg) eqn:Hl.
  - rewrite (long_starts_with_dash _ Hl). simpl. by rewrite andb_false_r.
  - fold (is_long arg). rewrite Hl. simpl.
    destruct (Py.startswith "-" arg); reflexivity.
Qed.

Lemma scan_step_positional a arg :
  positional arg = true ->
  scan_step a arg = Some (mkArgs (options a) (long_options a) arg).
Proof.
  rewrite positional_spec. unfold scan_step.
  destruct (is_option arg), (is_long arg); simpl; try discriminate. reflexivity.
Qed.

(** An argument with a dash leaves the query as it is. *)
Lemma scan_step_dash a arg a' :
  positional arg = false -> scan_step a arg = Some a' -> query a' = query a.
Proof.
  rewrite positional_spec. unfold scan_step.
  destruct (is_option arg) eqn:Ho; [intros _ [= <-]; reflexivity|].
  destruct (is_long arg) eqn:Hl; [|discriminate].
  intros _. destruct (long_option (Py.drop 2 arg)) as [[k v]|]; [|discriminate].
  intros [= <-]. reflexivity.
Qed.

Lemma scan_app l1 l2 a :
  scan (l1 ++ l2) a = scan l1 a ≫= scan l2.
Proof.
  revert a. induction l1 as [|x l1 IH]; intros a; simpl; [reflexivity|].
  destruct (scan_step a x); [apply IH|reflexivity].
Qed.






(** Without a positional argument the query stays what it was. *)
Lemma scan_no_positional args : forall a a',
  existsb positional args = false -> scan args a = Some a' -> query a' = query a.
Proof.
  induction args as [|arg rest IH]; intros a a'; simpl.
  - by intros _ [= <-].
  - intros [Hp Hr]%orb_false_elim.
    destruct (scan_step a arg) as [a1|] eqn:Hs; [|discriminate].
    intros H. rewrite (IH _ _ Hr H). by eapply scan_step_dash.
Qed.

(** The query the loop starts from is forgotten once a positional argument
    comes. *)
Lemma scan_forgets args : forall a q,
  existsb positional args = true ->
  scan args (mkArgs (options a) (long_options a) q) = scan args a.
Proof.
  induction args as [|arg rest IH]; intros a q; cbn [scan existsb];
    [discriminate|].
  destruct (positional arg) eqn:Hp; cbn [orb].
  - intros _. by rewrite !scan_step_positional.
  - intros Hr. rewrite positional_spec in Hp.
    unfold scan_step; cbn [options long_options query].
    destruct (is_option arg).
    + exact (IH (mkArgs (options a ++ _) (long_options a) (query a)) q Hr).
    + destruct (is_long arg); [|discriminate].
      destruct (long_option (Py.drop 2 arg)) as [[k v]|]; [|reflexivity].
      exact (IH (mkArgs (options a) (<[k:=v]> (long_options a)) (query a)) q Hr).
Qed.

Lemma drop_overwritten_positional args :
  existsb positional (drop_overwritten args) = existsb positional args.
Proof.
  induction args as [|arg rest IH]; simpl; [reflexivity|].
  destruct (positional arg) eqn:Hp; simpl.
  - destruct (existsb positional rest) eqn:Hr; simpl; [by rewrite IH|].
    by rewrite Hp.
  - by rewrite Hp, IH.
Qed.

Lemma scan_drop_overwritten args : forall a,
  scan (drop_overwritten args) a = scan args a.
Proof.
  induction args as [|arg rest IH]; intros a; simpl; [reflexivity|].
  destruct (positional arg) eqn:Hp; simpl.
  - destruct (existsb positional rest) eqn:Hr; simpl.
    + rewrite (scan_step_positional _ _ Hp), IH.
      symmetry. by apply scan_forgets.
    + by rewrite (scan_step_positional _ _ Hp), IH.
  - destruct (scan_step a arg); [apply IH|reflexivity].
Qed.

(** The last positional argument is the query. *)
Lemma scan_last args : forall a a' l x,
  filter (fun arg => positional arg = true) args = l ++ [x] ->
  scan args a = Some a' -> query a' = x.
Proof.
  induction args as [|arg rest IH]; intros a a' l x; simpl.
  - intros H. by destruct l.
  - rewrite filter_cons. destruct (decide (positional arg = true)) as [Hp|Hp].
    + rewrite (scan_step_positional _ _ Hp).
      destruct l as [|y l]; simpl.
      * intros [= -> Hnil] Hs.
        assert (existsb positional rest = false) as Hr.
        { apply not_true_is_false. intros [z [Hin Hz]]%existsb_exists.
          apply list_elem_of_In in Hin.
          assert (z ∈ filter (fun arg => positional arg = true) rest) as Hz'
            by (apply list_elem_of_filter; done).
          rewrite Hnil in Hz'. by apply elem_of_nil in Hz'. }
        by rewrite (scan_no_positional _ _ _ Hr Hs).
      * intros [= -> Hl] Hs. by eapply IH.
    + apply not_true_is_false in Hp. intros Hl.
      destruct (scan_step a arg) as [a1|] eqn:Hs; [|discriminate].
      by eapply IH.
Qed.

(** ** The loader accepts the JSON texts, and nothing else *)

Module JsonFacts.
Import Core Json JsonParts.

Local Open Scope list_scope.

Ltac list_eq :=
  repeat (progress (simpl; rewrite <- ?app_assoc)); reflexivity.

(** *** The parser and the tokens of a value *)

Lemma kinds_app a b : kinds (a ++ b) = kinds a ++ kinds b.
Proof. apply map_app. Qed.

Lemma kinds_cons p t r : kinds ((p, t) :: r) = kind_of t :: kinds r.
Proof. reflexivity. Qed.

Lemma atom_value v : value [kind_of (TAtom v)].
Proof. destruct v; constructor. Qed.

(** What is left after a value has gone to its container. *)
Lemma after_push v stack s' x' ks :
  push_value v stack = Some (s', x') -> parse_rest s' x' ks -> after stack ks.
Proof.
  destruct stack as [|[acc|acc [k|]] s]; simpl; intros [= <- <-]; simpl; auto.
Qed.

(** An array, from what follows its opening bracket. *)
Lemma array_rest acc stack ks :
  parse_rest (InList acc :: stack) XValueOrClose ks ->
  exists v b, KLBracket :: ks = v ++ b /\ value v /\ after stack b.
Proof.
  intros [(b & -> & Hb)|(v & b & -> & Hv & [(b' & -> & Hb)|(es & b' & -> & Hes & Hb)])].
  - exists [KLBracket; KRBracket], b. repeat split; [constructor|exact Hb].
  - exists (KLBracket :: v ++ [KRBracket]), b'. split; [|split; [|exact Hb]].
    + list_eq.
    + by apply value_array, elements_last.
  - exists (KLBracket :: (v ++ KComma :: es) ++ [KRBracket]), b'.
    split; [|split; [|exact Hb]].
    + list_eq.
    + by apply value_array, elements_more.
Qed.

Lemma object_rest acc stack ks :
  parse_rest (InMap acc None :: stack) XKeyOrClose ks ->
  exists v b, KLBrace :: ks = v ++ b /\ value v /\ after stack b.
Proof.
  intros [(b & -> & Hb)|(ms & b & -> & Hms & Hb)].
  - exists [KLBrace; KRBrace], b. repeat split; [constructor|exact Hb].
  - exists (KLBrace :: ms ++ [KRBrace]), b. split; [|split; [|exact Hb]].
    + list_eq.
    + by apply value_object.
Qed.

(** A member, from what follows its key. *)
Lemma member_rest acc k s ks :
  parse_rest (InMap acc (Some k) :: s) XColon ks ->
  exists ms b, KString :: ks = ms ++ KRBrace :: b /\ members ms /\ after s b.
Proof.
  intros (v & b & -> & Hv & [(b' & -> & Hb)|(ms & b' & -> & Hms & Hb)]).
  - exists (KString :: KColon :: v), b'. repeat split; [by constructor|exact Hb].
  - exists (KString :: KColon :: v ++ KComma :: ms), b'.
    split; [|split; [|exact Hb]].
    + list_eq.
    + by constructor.
Qed.

Lemma open_value_rest t stack s' x' ks :
  open_value t stack = Some (s', x') -> parse_rest s' x' ks ->
  exists v b, kind_of t :: ks = v ++ b /\ value v /\ after stack b.
Proof.
  destruct t; simpl; try discriminate.
  - intros [= <- <-]. apply object_rest.
  - intros [= <- <-]. apply array_rest.
  - intros Hp Hr. exists [kind_of (TAtom v)], ks.
    repeat split; [apply atom_value|by eapply after_push].
Qed.

Lemma open_key_rest t stack s' x' ks :
  open_key t stack = Some (s', x') -> parse_rest s' x' ks ->
  exists ms b, kind_of t :: ks = ms ++ KRBrace :: b /\ members ms /\
                after (tail stack) b.
Proof.
  destruct t as [| | | | | |[]]; simpl; try discriminate.
  destruct stack as [|[acc|acc [k|]] st]; simpl; try discriminate.
  intros [= <- <-]. apply member_rest.
Qed.

Lemma close_list_rest stack s' x' ks :
  close_list stack = Some (s', x') -> parse_rest s' x' ks ->
  after (tail stack) ks /\ exists acc, stack = InList acc :: tail stack.
Proof.
  destruct stack as [|[acc|acc k] s]; simpl; try discriminate.
  intros Hp Hr. split; [by eapply after_push|by eexists].
Qed.

Lemma close_map_rest stack s' x' ks :
  close_map stack = Some (s', x') -> parse_rest s' x' ks ->
  after (tail stack) ks /\ exists acc k, stack = InMap acc k :: tail stack.
Proof.
  destruct stack as [|[acc|acc [k|]] s]; simpl; try discriminate.
  intros Hp Hr. split; [by eapply after_push|by eexists _, _].
Qed.

Lemma parse_step_rest t stack x s' x' ks :
  parse_step t stack x = Some (s', x') -> parse_rest s' x' ks ->
  parse_rest stack x (kind_of t :: ks).
Proof.
  destruct x; simpl.
  - apply open_value_rest.
  - destruct t; try (intros H1 H2; right; revert H1 H2; apply open_value_rest).
    intros H1 H2. left. destruct (close_list_rest _ _ _ _ H1 H2) as [Ha _].
    by eexists.
  - destruct t; try (intros H1 H2; right; revert H1 H2; apply open_key_rest).
    intros H1 H2. left. destruct (close_map_rest _ _ _ _ H1 H2) as [Ha _].
    by eexists.
  - apply open_key_rest.
  - destruct t; try discriminate. intros [= <- <-]. simpl.
    intros (v & b & -> & Hv & Hb). by exists v, b.
  - destruct t; try discriminate.
    + intros H1 H2. destruct (close_map_rest _ _ _ _ H1 H2) as [Ha (acc & k & ->)].
      simpl. left. by eexists.
    + intros H1 H2. destruct (close_list_rest _ _ _ _ H1 H2) as [Ha (acc & ->)].
      simpl. left. by eexists.
    + destruct stack as [|[acc|acc k] s]; try discriminate; intros [= <- <-]; simpl.
      * intros (v & b & -> & Hv & [(b' & -> & Hb)|(es & b' & -> & Hes & Hb)]).
        -- right. exists v, b'. repeat split; [by constructor|exact Hb].
        -- right. exists (v ++ KComma :: es), b'.
           split; [|split; [by constructor|exact Hb]].
           list_eq.
      * intros (ms & b & -> & Hms & Hb). right. by exists ms, b.
  - discriminate.
Qed.

(** Soundness of the parser: the tokens it accepts are the tokens of what
    was left to read. *)
Lemma parse_sound toks : forall stack x len v,
  parse toks stack x len = inr v -> parse_rest stack x (kinds toks).
Proof.
  induction toks as [|[pos t] r IH]; intros stack x len v; simpl.
  - destruct x; try discriminate. reflexivity.
  - destruct (parse_step t stack x) as [[s' x']|] eqn:Hs; [|discriminate].
    intros Hp. eapply parse_step_rest; [exact Hs|]. by eapply IH.
Qed.

Lemma parse_value toks len v :
  parse toks [] XValue len = inr v -> value (kinds toks).
Proof.
  intros (v' & b & -> & Hv & ->)%parse_sound. by rewrite app_nil_r.
Qed.

(** *** Completeness of the parser *)

Lemma kinds_nil_inv toks : kinds toks = [] -> toks = [].
Proof. by destruct toks. Qed.

Lemma kinds_cons_inv toks k ks :
  kinds toks = k :: ks ->
  exists p t r, toks = (p, t) :: r /\ kind_of t = k /\ kinds r = ks.
Proof.
  destruct toks as [|[p t] r]; [discriminate|]. intros [= <- <-]. by exists p, t, r.
Qed.

Lemma kinds_app_inv toks a b :
  kinds toks = a ++ b ->
  exists ta tb, toks = ta ++ tb /\ kinds ta = a /\ kinds tb = b.
Proof. apply map_eq_app. Qed.

Lemma kind_atom t :
  kind_of t = KString \/ kind_of t = KNumber \/ kind_of t = KName ->
  exists v, t = TAtom v.
Proof.
  destruct t; simpl; try (intros [H|[H|H]]; discriminate H). by eexists.
Qed.

Ltac kind_inv H :=
  match type of H with
  | kind_of ?t = _ =>
      destruct t as [| | | | | |[|?b|?i|?lit|?str|?l|?m]]; try discriminate H; clear H
  end.

Lemma push_value_takes v stack :
  takes_value stack -> exists s' x', push_value v stack = Some (s', x').
Proof. destruct stack as [|[acc|acc [k|]] s]; simpl; try done; by eexists _, _. Qed.

Lemma parse_cons p t r stack x len :
  parse ((p, t) :: r) stack x len =
  match parse_step t stack x with
  | Some (stack', x') => parse r stack' x' len
  | None => inl p
  end.
Proof. reflexivity. Qed.

Ltac norm_app :=
  unfold Lexeme in *;
  repeat (progress (rewrite <- ?app_comm_cons, <- ?app_assoc; cbn [app])).

Lemma parse_complete_all :
  (forall v, value v ->
     forall toks rest stack len, kinds toks = v -> takes_value stack ->
     exists val s' x',
       push_value val stack = Some (s', x') /\
       parse (toks ++ rest) stack XValue len = parse rest s' x' len /\
       parse (toks ++ rest) stack XValueOrClose len = parse rest s' x' len) /\
  (forall es, elements es ->
     forall toks rest acc s len, kinds toks = es ->
     exists acc',
       parse (toks ++ rest) (InList acc :: s) XValue len =
         parse rest (InList acc' :: s) XCommaOrClose len /\
       parse (toks ++ rest) (InList acc :: s) XValueOrClose len =
         parse rest (InList acc' :: s) XCommaOrClose len) /\
  (forall ms, members ms ->
     forall toks rest acc s len, kinds toks = ms ->
     exists acc',
       parse (toks ++ rest) (InMap acc None :: s) XKey len =
         parse rest (InMap acc' None :: s) XCommaOrClose len /\
       parse (toks ++ rest) (InMap acc None :: s) XKeyOrClose len =
         parse rest (InMap acc' None :: s) XCommaOrClose len).
Proof.
  apply value_elements_members.
  - (* a string *)
    intros toks rest stack len (p & t & r & -> & Ht & ->%kinds_nil_inv)%kinds_cons_inv Hs.
    kind_inv Ht. destruct (push_value_takes (Str str) stack Hs) as (s' & x' & Hp).
    exists (Str str), s', x'. simpl. by rewrite Hp.
  - (* a number *)
    intros toks rest stack len (p & t & r & -> & Ht & ->%kinds_nil_inv)%kinds_cons_inv Hs.
    kind_inv Ht.
    + destruct (push_value_takes (Int i) stack Hs) as (s' & x' & Hp).
      exists (Int i), s', x'. simpl. by rewrite Hp.
    + destruct (push_value_takes (Float lit) stack Hs) as (s' & x' & Hp).
      exists (Float lit), s', x'. simpl. by rewrite Hp.
  - (* a name *)
    intros toks rest stack len (p & t & r & -> & Ht & ->%kinds_nil_inv)%kinds_cons_inv Hs.
    destruct (kind_atom t) as [v ->]; [auto|].
    destruct (push_value_takes v stack Hs) as (s' & x' & Hp).
    exists v, s', x'. simpl. by rewrite Hp.
  - (* [] *)
    intros toks rest stack len
      (p & t & r & -> & Ht & (p' & t' & r' & -> & Ht' & ->%kinds_nil_inv)%kinds_cons_inv)%kinds_cons_inv Hs.
    kind_inv Ht. kind_inv Ht'.
    destruct (push_value_takes (List []) stack Hs) as (s' & x' & Hp).
    exists (List []), s', x'. simpl. by rewrite Hp.
  - (* an array *)
    intros es _ IH toks rest stack len
      (p & t & r & -> & Ht & (tes & tc & -> & Hes & (p' & t' & r' & -> & Ht' & ->%kinds_nil_inv)%kinds_cons_inv)%kinds_app_inv)%kinds_cons_inv Hs.
    kind_inv Ht. kind_inv Ht'.
    destruct (IH tes ((p', TRBracket) :: rest) [] stack len Hes) as (acc' & _ & Hrun).
    destruct (push_value_takes (List (rev acc')) stack Hs) as (s' & x' & Hp).
    exists (List (rev acc')), s', x'. split; [exact Hp|].
    norm_app.
    rewrite !parse_cons. simpl. rewrite Hrun, parse_cons. simpl. by rewrite Hp.
  - (* {} *)
    intros toks rest stack len
      (p & t & r & -> & Ht & (p' & t' & r' & -> & Ht' & ->%kinds_nil_inv)%kinds_cons_inv)%kinds_cons_inv Hs.
    kind_inv Ht. kind_inv Ht'.
    destruct (push_value_takes (Map []) stack Hs) as (s' & x' & Hp).
    exists (Map []), s', x'. simpl. by rewrite Hp.
  - (* an object *)
    intros ms _ IH toks rest stack len
      (p & t & r & -> & Ht & (tms & tc & -> & Hms & (p' & t' & r' & -> & Ht' & ->%kinds_nil_inv)%kinds_cons_inv)%kinds_app_inv)%kinds_cons_inv Hs.
    kind_inv Ht. kind_inv Ht'.
    destruct (IH tms ((p', TRBrace) :: rest) [] stack len Hms) as (acc' & _ & Hrun).
    destruct (push_value_takes (Map acc') stack Hs) as (s' & x' & Hp).
    exists (Map acc'), s', x'. split; [exact Hp|].
    norm_app.
    rewrite !parse_cons. simpl. rewrite Hrun, parse_cons. simpl. by rewrite Hp.
  - (* the last element *)
    intros v _ IH toks rest acc s len Hv.
    destruct (IH toks rest (InList acc :: s) len Hv I) as (val & s' & x' & Hp & H1 & H2).
    simpl in Hp. injection Hp as <- <-. by exists (val :: acc).
  - (* an element and more *)
    intros v es _ IHv _ IHes toks rest acc s len
      (tv & tr & -> & Hv & (p & t & tes & -> & Ht & Hes)%kinds_cons_inv)%kinds_app_inv.
    kind_inv Ht.
    destruct (IHv tv ((p, TComma) :: tes ++ rest) (InList acc :: s) len Hv I)
      as (val & s' & x' & Hp & H1 & H2).
    simpl in Hp. injection Hp as <- <-.
    destruct (IHes tes rest (val :: acc) s len Hes) as (acc' & H3 & _).
    exists acc'.
    norm_app.
    rewrite H1, H2, parse_cons. simpl. by rewrite H3.
  - (* the last member *)
    intros v _ IH toks rest acc s len
      (p & t & r & -> & Ht & (p' & t' & tv & -> & Ht' & Hv)%kinds_cons_inv)%kinds_cons_inv.
    kind_inv Ht. kind_inv Ht'.
    destruct (IH tv rest (InMap acc (Some str) :: s) len Hv I)
      as (val & s' & x' & Hp & H1 & _).
    simpl in Hp. injection Hp as <- <-.
    exists (map_set str val acc).
    norm_app.
    rewrite ?parse_cons. simpl. rewrite ?parse_cons. simpl. by rewrite H1.
  - (* a member and more *)
    intros v ms _ IHv _ IHms toks rest acc s len
      (p & t & r & -> & Ht & (p' & t' & r' & -> & Ht' &
        (tv & tr & -> & Hv & (p'' & t'' & tms & -> & Ht'' & Hms)%kinds_cons_inv)%kinds_app_inv)%kinds_cons_inv)%kinds_cons_inv.
    kind_inv Ht. kind_inv Ht'. kind_inv Ht''.
    destruct (IHv tv ((p'', TComma) :: tms ++ rest) (InMap acc (Some str) :: s) len Hv I)
      as (val & s' & x' & Hp & H1 & _).
    simpl in Hp. injection Hp as <- <-.
    destruct (IHms tms rest (map_set str val acc) s len Hms) as (acc' & H3 & _).
    exists acc'.
    norm_app.
    rewrite ?parse_cons. simpl. rewrite ?parse_cons. simpl.
    rewrite H1, parse_cons. simpl. by rewrite H3.
Qed.

(** The parser accepts the tokens of a value. *)
Lemma parse_complete toks len :
  value (kinds toks) -> exists v, parse toks [] XValue len = inr v.
Proof.
  intros Hv.
  destruct (proj1 parse_complete_all _ Hv toks [] [] len eq_refl I)
    as (val & s' & x' & Hp & H1 & _).
  simpl in Hp. injection Hp as <- <-. exists val. rewrite app_nil_r in H1.
  by rewrite H1.
Qed.

(** *** Numbers and names *)

Lemma digit_spec c : Py.is_digit c = true <-> digit c.
Proof.
  unfold Py.is_digit, digit. rewrite andb_true_iff, !Nat.leb_le. tauto.
Qed.

Lemma all_digits_spec ds : all_digits ds = true <-> digits ds.
Proof.
  induction ds as [|c [|d r] IH].
  - split; [discriminate|inversion 1].
  - simpl. rewrite digit_spec. split; [by constructor|].
    inversion 1 as [|? ? ? Hr]; subst; [done|inversion Hr].
  - change (all_digits (c :: d :: r)) with (Py.is_digit c && all_digits (d :: r)).
    rewrite andb_true_iff, digit_spec, IH. split.
    + intros [? ?]. by constructor.
    + inversion 1; subst; done.
Qed.

Lemma digits_forall ds : digits ds -> Forall (fun c => Py.is_digit c = true) ds.
Proof.
  induction 1 as [c Hc|c ds Hc _ IH]; repeat constructor;
    try (by apply digit_spec); exact IH.
Qed.

Lemma digits_not_nil ds : digits ds -> ds <> [].
Proof. by inversion 1. Qed.

Lemma span_spec f cs a b :
  span f cs = (a, b) ->
  cs = a ++ b /\ Forall (fun c => f c = true) a /\ stops f b.
Proof.
  revert a b. induction cs as [|c r IH]; intros a b; simpl.
  - intros [= <- <-]. by repeat split.
  - destruct (f c) eqn:Hc.
    + destruct (span f r) as [a' b'] eqn:Hs. intros [= <- <-].
      destruct (IH a' b' eq_refl) as (-> & Ha & Hb).
      repeat split; [by constructor|exact Hb].
    + intros [= <- <-]. by repeat split.
Qed.

Lemma span_app f a b :
  Forall (fun c => f c = true) a -> stops f b -> span f (a ++ b) = (a, b).
Proof.
  intros Ha Hb. induction Ha as [|c a Hc _ IH]; simpl.
  - destruct b as [|c r]; [done|]. simpl in *. by rewrite Hb.
  - by rewrite Hc, IH.
Qed.

Lemma int_part_spec ip : json_int_part ip = true <-> int_part ip.
Proof.
  destruct ip as [|c [|d r]].
  - split; [discriminate|inversion 1].
  - simpl. rewrite digit_spec. split; [by constructor|].
    inversion 1; subst; [done|]. by exfalso; eapply digits_not_nil.
  - change (json_int_part (c :: d :: r))
      with (Py.is_digit c && negb (Ascii.eqb c "0") && all_digits (d :: r)).
    rewrite !andb_true_iff, negb_true_iff, digit_spec, all_digits_spec,
      Ascii.eqb_neq.
    split.
    + intros [[? ?] ?]. by constructor.
    + inversion 1; subst; done.
Qed.

Lemma int_part_forall ip :
  int_part ip -> Forall (fun c => Py.is_digit c = true) ip /\ ip <> [] /\
  stops (fun c => negb (Py.is_digit c)) ip.
Proof.
  inversion 1 as [c Hc|c ds Hc Hn Hds]; subst.
  - apply digit_spec in Hc. repeat split; [by repeat constructor|done|].
    simpl. by rewrite Hc.
  - apply digit_spec in Hc. repeat split; [|done|].
    + constructor; [done|]. by apply digits_forall.
    + simpl. by rewrite Hc.
Qed.

Lemma exponent_spec e : json_exponent e = true <-> exponent e.
Proof.
  destruct e as [|e [|s ds]].
  - split; [constructor|done].
  - simpl. rewrite andb_false_r. split; [discriminate|].
    inversion 1; subst. by exfalso; eapply digits_not_nil.
  - change (json_exponent (e :: s :: ds))
      with ((Ascii.eqb e "e" || Ascii.eqb e "E") &&
            (if Ascii.eqb s "-" || Ascii.eqb s "+" then all_digits ds
             else all_digits (s :: ds))).
    rewrite andb_true_iff, orb_true_iff, !Ascii.eqb_eq. split.
    + intros [He Hd].
      destruct (Ascii.eqb s "-" || Ascii.eqb s "+") eqn:Hs.
      * apply orb_true_iff in Hs. rewrite !Ascii.eqb_eq in Hs.
        apply exp_signed; [done|done|]. by apply all_digits_spec.
      * apply exp_given; [done|]. by apply all_digits_spec.
    + inversion 1 as [|? ? He Hd|? ? ? He Hs Hd]; subst.
      * split; [done|].
        assert (Ascii.eqb s "-" || Ascii.eqb s "+" = false) as ->.
        { inversion Hd as [? Hc|? ? Hc _]; subst;
            apply digit_spec in Hc; revert Hc;
            destruct (Ascii.eqb_spec s "-") as [->|_]; try discriminate;
            destruct (Ascii.eqb_spec s "+") as [->|_]; try discriminate; done. }
        by apply all_digits_spec.
      * split; [done|].
        assert (Ascii.eqb s "-" || Ascii.eqb s "+" = true) as ->.
        { apply orb_true_iff. rewrite !Ascii.eqb_eq. done. }
        by apply all_digits_spec.
Qed.

Lemma exponent_stops e : exponent e -> stops Py.is_digit e.
Proof. inversion 1 as [|? ? [-> | ->]|? ? ? [-> | ->]]; done. Qed.

(** [json_number] accepts the numbers of the grammar, and only them. *)
Lemma number_body_sound cs body v :
  (let '(ip, rest) := span Py.is_digit body in
   if negb (json_int_part ip) then None
   else match rest with
        | [] => Some (Int (digits_val 0 ip))
        | c :: r =>
            if Ascii.eqb c "." then
              let '(fp, rest') := span Py.is_digit r in
              if all_digits fp && json_exponent rest'
              then Some (Float (string_of_list_ascii cs)) else None
            else if json_exponent rest
            then Some (Float (string_of_list_ascii cs)) else None
        end) = Some v \/
  (let '(ip, rest) := span Py.is_digit body in
   if negb (json_int_part ip) then None
   else match rest with
        | [] => Some (Int (- digits_val 0 ip))
        | c :: r =>
            if Ascii.eqb c "." then
              let '(fp, rest') := span Py.is_digit r in
              if all_digits fp && json_exponent rest'
              then Some (Float (string_of_list_ascii cs)) else None
            else if json_exponent rest
            then Some (Float (string_of_list_ascii cs)) else None
        end) = Some v ->
  kind_of (TAtom v) = KNumber /\
  exists i f e, body = i ++ f ++ e /\ int_part i /\ frac f /\ exponent e.
Proof.
  destruct (span Py.is_digit body) as [ip rest] eqn:Hs.
  apply span_spec in Hs as (-> & Hip & Hrest).
  destruct (json_int_part ip) eqn:Hi; [|by intros [|]].
  apply int_part_spec in Hi. simpl.
  destruct rest as [|c r].
  - intros [[= <-]|[= <-]]; (split; [reflexivity|]);
      exists ip, [], []; repeat split; done || constructor.
  - destruct (Ascii.eqb_spec c ".") as [->|Hc].
    + destruct (span Py.is_digit r) as [fp rest'] eqn:Hs'.
      apply span_spec in Hs' as (-> & Hfp & Hrest').
      destruct (all_digits fp && json_exponent rest') eqn:Hfe; [|by intros [|]].
      apply andb_true_iff in Hfe as [Hf%all_digits_spec He%exponent_spec].
      intros [[= <-]|[= <-]]; (split; [reflexivity|]);
        exists ip, ("."%char :: fp), rest'; repeat split; done || by constructor.
    + destruct (json_exponent (c :: r)) eqn:He; [|by intros [|]].
      apply exponent_spec in He.
      intros [[= <-]|[= <-]]; (split; [reflexivity|]);
        exists ip, [], (c :: r); repeat split; done || constructor.
Qed.

Lemma int_part_head i f e :
  int_part i -> exists c r, i ++ f ++ e = c :: r /\ Py.is_digit c = true.
Proof.
  inversion 1 as [c Hc|c ds Hc _ _]; subst; apply digit_spec in Hc;
    by eexists _, _.
Qed.

Lemma json_number_sound cs v :
  json_number cs = Some v -> number cs /\ kind_of (TAtom v) = KNumber.
Proof.
  unfold json_number. destruct cs as [|c r].
  - simpl. discriminate.
  - destruct (Ascii.eqb_spec c "-") as [->|Hc].
    + intros H.
      destruct (number_body_sound ("-"%char :: r) r v (or_intror H))
        as (Hk & i & f & e & -> & Hi & Hf & He).
      split; [by constructor|exact Hk].
    + intros H.
      destruct (number_body_sound (c :: r) (c :: r) v (or_introl H))
        as (Hk & i & f & e & Heq & Hi & Hf & He).
      rewrite Heq. split; [by constructor|exact Hk].
Qed.

Lemma number_body_complete cs body neg :
  (exists i f e, body = i ++ f ++ e /\ int_part i /\ frac f /\ exponent e) ->
  exists v,
    (let '(ip, rest) := span Py.is_digit body in
     if negb (json_int_part ip) then None
     else match rest with
          | [] => Some (Int (if neg : bool then - digits_val 0 ip else digits_val 0 ip))
          | c :: r =>
              if Ascii.eqb c "." then
                let '(fp, rest') := span Py.is_digit r in
                if all_digits fp && json_exponent rest'
                then Some (Float (string_of_list_ascii cs)) else None
              else if json_exponent rest
              then Some (Float (string_of_list_ascii cs)) else None
          end) = Some v.
Proof.
  intros (i & f & e & -> & Hi & Hf & He).
  destruct (int_part_forall i Hi) as (Hall & Hne & _).
  assert (stops Py.is_digit (f ++ e)) as Hstop.
  { destruct Hf; [by apply exponent_stops|done]. }
  rewrite (span_app _ _ _ Hall Hstop).
  apply int_part_spec in Hi. rewrite Hi. simpl.
  destruct Hf as [|ds Hds].
  - simpl. destruct e as [|c r]; [by eexists|].
    assert (Ascii.eqb c "." = false) as ->.
    { inversion He as [|? ? [-> | ->]|? ? ? [-> | ->]]; done. }
    apply exponent_spec in He. rewrite He. by eexists.
  - cbn [app]. rewrite Ascii.eqb_refl.
    rewrite (span_app _ _ _ (digits_forall _ Hds) (exponent_stops _ He)).
    apply all_digits_spec in Hds. apply exponent_spec in He.
    rewrite Hds, He. by eexists.
Qed.

Lemma json_number_complete cs : number cs -> exists v, json_number cs = Some v.
Proof.
  unfold json_number. intros [i f e Hi Hf He|i f e Hi Hf He].
  - destruct (int_part_head i f e Hi) as (c & r & Heq & Hc). rewrite Heq.
    assert (Ascii.eqb c "-" = false) as ->.
    { destruct (Ascii.eqb_spec c "-") as [->|]; [discriminate|done]. }
    rewrite <- Heq.
    apply (number_body_complete (i ++ f ++ e) (i ++ f ++ e) false).
    by exists i, f, e.
  - rewrite Ascii.eqb_refl.
    apply (number_body_complete ("-"%char :: i ++ f ++ e) (i ++ f ++ e) true).
    by exists i, f, e.
Qed.

(** The characters of a number. *)
Lemma number_chars cs : number cs -> Forall (fun c => number_char c = true) cs.
Proof.
  assert (forall ds, digits ds -> Forall (fun c => number_char c = true) ds) as Hds.
  { intros ds Hds%digits_forall. eapply Forall_impl; [exact Hds|].
    intros c Hc. unfold number_char. simpl in Hc. by rewrite Hc. }
  assert (forall i, int_part i -> Forall (fun c => number_char c = true) i) as Hint.
  { intros i Hi. destruct (int_part_forall i Hi) as (Hall & _).
    eapply Forall_impl; [exact Hall|].
    intros c Hc. unfold number_char. simpl in Hc. by rewrite Hc. }
  assert (forall f, frac f -> Forall (fun c => number_char c = true) f) as Hfrac.
  { intros f [|ds Hd]; [constructor|]. constructor; [done|by apply Hds]. }
  assert (forall e, exponent e -> Forall (fun c => number_char c = true) e) as Hexp.
  { intros e [|? ds [-> | ->] Hd|? ? ds [-> | ->] [-> | ->] Hd];
      repeat (constructor; [done|]); try constructor; by apply Hds. }
  intros [i f e Hi Hf He|i f e Hi Hf He]; [|constructor; [done|]];
    rewrite !Forall_app; auto.
Qed.

Lemma number_not_nil cs : number cs -> cs <> [].
Proof.
  intros [i f e Hi _ _|i f e Hi _ _]; [|done].
  destruct (int_part_head i f e Hi) as (c & r & -> & _). done.
Qed.

Lemma number_head c r :
  number (c :: r) -> Py.is_digit c || Ascii.eqb c "-" = true.
Proof.
  inversion 1 as [i f e Hi _ _ Heq|i f e Hi _ _ Heq].
  - destruct (int_part_head i f e Hi) as (c' & r' & Heq' & Hc).
    rewrite Heq' in Heq. injection Heq as -> _. by rewrite Hc.
  - by rewrite orb_true_r.
Qed.

(** Names. *)
Lemma json_word_sound cs v :
  json_word cs = Some v -> literal_name cs /\ kind_of (TAtom v) = KName.
Proof.
  unfold json_word.
  destruct (String.eqb_spec (string_of_list_ascii cs) "true") as [H|_].
  { intros [= <-]. apply (f_equal list_ascii_of_string) in H.
    rewrite list_ascii_of_string_of_list_ascii in H. subst. split; constructor. }
  destruct (String.eqb_spec (string_of_list_ascii cs) "false") as [H|_].
  { intros [= <-]. apply (f_equal list_ascii_of_string) in H.
    rewrite list_ascii_of_string_of_list_ascii in H. subst. split; constructor. }
  destruct (String.eqb_spec (string_of_list_ascii cs) "null") as [H|_].
  { intros [= <-]. apply (f_equal list_ascii_of_string) in H.
    rewrite list_ascii_of_string_of_list_ascii in H. subst. split; constructor. }
  discriminate.
Qed.

Lemma json_word_complete cs :
  literal_name cs -> exists v, json_word cs = Some v.
Proof. intros []; by eexists. Qed.

Lemma name_chars cs : literal_name cs -> Forall (fun c => is_alpha c = true) cs.
Proof. intros []; by repeat constructor. Qed.

Lemma name_head c r : literal_name (c :: r) -> is_alpha c = true.
Proof. by inversion 1. Qed.

(** *** The lexer: soundness *)

Lemma json_ws_spec c : json_ws c = true <-> ws_char c.
Proof.
  unfold ws_char. split.
  - destruct c as [[] [] [] [] [] [] [] []]; try discriminate; intros _; auto.
  - intros [->|[->|[->| ->]]]; reflexivity.
Qed.

Ltac by_char c :=
  destruct c as [[] [] [] [] [] [] [] []]; try discriminate; try reflexivity.

Lemma lex_start_ws pos c : json_ws c = true -> lex_start pos c = Some (LStart, []).
Proof. unfold lex_start. by intros ->. Qed.

Lemma lex_start_number pos c :
  Py.is_digit c || Ascii.eqb c "-" = true ->
  lex_start pos c = Some (LNumber pos [c], []).
Proof. by_char c. Qed.

Lemma lex_start_alpha pos c :
  is_alpha c = true -> lex_start pos c = Some (LWord pos [c], []).
Proof. by_char c. Qed.

(** What a character at the start of a token begins. *)
Lemma lex_start_sound pos c st' ts r ks :
  lex_start pos c = Some (st', ts) -> lex_rest st' r ks ->
  lex_ok st' /\ spelled (c :: r) (kinds ts ++ ks).
Proof.
  unfold lex_start.
  destruct (json_ws c) eqn:Hws.
  { intros [= <- <-] Hr. split; [exact I|].
    apply spelled_ws; [by apply json_ws_spec|exact Hr]. }
  destruct (Ascii.eqb_spec c "{") as [->|_].
  { intros [= <- <-] Hr. split; [exact I|]. by apply (spelled_token KLBrace ["{"%char]). }
  destruct (Ascii.eqb_spec c "}") as [->|_].
  { intros [= <- <-] Hr. split; [exact I|]. by apply (spelled_token KRBrace ["}"%char]). }
  destruct (Ascii.eqb_spec c "[") as [->|_].
  { intros [= <- <-] Hr. split; [exact I|]. by apply (spelled_token KLBracket ["["%char]). }
  destruct (Ascii.eqb_spec c "]") as [->|_].
  { intros [= <- <-] Hr. split; [exact I|]. by apply (spelled_token KRBracket ["]"%char]). }
  destruct (Ascii.eqb_spec c ":") as [->|_].
  { intros [= <- <-] Hr. split; [exact I|]. by apply (spelled_token KColon [":"%char]). }
  destruct (Ascii.eqb_spec c ",") as [->|_].
  { intros [= <- <-] Hr. split; [exact I|]. by apply (spelled_token KComma [","%char]). }
  destruct (Ascii.eqb_spec c (ascii_of_nat 34)) as [->|_].
  { intros [= <- <-] (body & rest & ks' & -> & Hb & -> & Hs). split; [exact I|].
    replace (ascii_of_nat 34 :: body ++ quote :: rest)
      with ((quote :: body ++ [quote]) ++ rest) by list_eq.
    apply (spelled_token KString); [by constructor|exact Hs]. }
  destruct (Py.is_digit c || Ascii.eqb c "-") eqn:Hn.
  { intros [= <- <-] (more & rest & ks' & -> & Hb & -> & Hs). split; [exact I|].
    apply (spelled_token KNumber (c :: more)); [exact Hb|exact Hs]. }
  destruct (is_alpha c) eqn:Ha; [|discriminate].
  intros [= <- <-] (more & rest & ks' & -> & Hb & -> & Hs). split; [exact I|].
  apply (spelled_token KName (c :: more)); [exact Hb|exact Hs].
Qed.

Lemma lex_number_end start w pos c r acc :
  number_char c = false ->
  lex (LNumber start w) pos (c :: r) acc =
  match json_number (rev w) with
  | Some v => lex LStart pos (c :: r) ((start, TAtom v) :: acc)
  | None => inl start
  end.
Proof.
  intros Hc. simpl. rewrite Hc.
  destruct (json_number (rev w)); [|reflexivity].
  by destruct (lex_start pos c) as [[? ?]|].
Qed.

Lemma lex_word_end start w pos c r acc :
  is_alpha c = false ->
  lex (LWord start w) pos (c :: r) acc =
  match json_word (rev w) with
  | Some v => lex LStart pos (c :: r) ((start, TAtom v) :: acc)
  | None => inl start
  end.
Proof.
  intros Hc. simpl. rewrite Hc.
  destruct (json_word (rev w)); [|reflexivity].
  by destruct (lex_start pos c) as [[? ?]|].
Qed.

Lemma unescape_spec c c' :
  unescape c = Some c' ->
  c ∈ [quote; Py.backslash; "/"; "b"; "f"; "n"; "r"; "t"]%char /\
  Ascii.eqb c "u" = false.
Proof.
  intros H. split; [|by_char c].
  assert (c = quote \/ c = Py.backslash \/ c = "/" \/ c = "b" \/ c = "f" \/
          c = "n" \/ c = "r" \/ c = "t")%char as Hc.
  { revert H. by_char c; intros _; auto 10. }
  destruct Hc as [->|[->|[->|[->|[->|[->|[->| ->]]]]]]];
    repeat first [apply list_elem_of_here|apply list_elem_of_further].
Qed.

Lemma hex_val_spec c : is_Some (hex_val c) <-> hex_digit c.
Proof.
  unfold hex_val, hex_digit, digit, Py.is_digit.
  generalize (nat_of_ascii c) as n. intros n.
  destruct (Nat.leb_spec 48 n), (Nat.leb_spec n 57), (Nat.leb_spec 65 n),
    (Nat.leb_spec n 70), (Nat.leb_spec 97 n), (Nat.leb_spec n 102);
    simpl; split; intros Hx; try (by eexists); try lia;
    by destruct Hx as [? [=]].
Qed.

Lemma hex_number_some cs acc :
  Forall hex_digit cs -> is_Some (hex_number acc cs).
Proof.
  intros H. revert acc. induction H as [|c r Hc _ IH]; intros acc; simpl.
  - by eexists.
  - apply hex_val_spec in Hc as [h ->]. simpl. apply IH.
Qed.

(** Soundness: the tokens the lexer gives are spelled by the text. *)
Lemma lex_sound cs : forall st pos acc toks,
  lex_ok st -> lex st pos cs acc = inr toks ->
  exists new, toks = rev acc ++ new /\ lex_rest st cs (kinds new).
Proof.
  induction cs as [|c r IH]; intros st pos acc toks Hok.
  - destruct st as [|start w|start w|start w hex|start w|start w]; simpl;
      try discriminate.
    + intros [= <-]. exists []. rewrite app_nil_r. split; [done|constructor].
    + destruct (json_number (rev w)) as [v|] eqn:Hv; [|discriminate].
      apply json_number_sound in Hv as [Hn Hk]. intros [= <-].
      exists [(start, TAtom v)]. split; [done|].
      exists [], [], []. rewrite !app_nil_r, kinds_cons, Hk.
      repeat split; [exact Hn|constructor].
    + destruct (json_word (rev w)) as [v|] eqn:Hv; [|discriminate].
      apply json_word_sound in Hv as [Hn Hk]. intros [= <-].
      exists [(start, TAtom v)]. split; [done|].
      exists [], [], []. rewrite !app_nil_r, kinds_cons, Hk.
      repeat split; [exact Hn|constructor].
  - assert (forall pos acc toks, lex LStart pos (c :: r) acc = inr toks ->
              exists new, toks = rev acc ++ new /\ spelled (c :: r) (kinds new))
      as Hstart.
    { clear pos acc toks. intros pos acc toks. simpl.
      destruct (lex_start pos c) as [[st' ts]|] eqn:Hs; [|discriminate].
      intros Hl.
      assert (lex_ok st') as Hok'.
      { revert Hs. unfold lex_start.
        repeat match goal with
               | |- context [if ?b then _ else _] => destruct b
               end; intros [= <- <-] || discriminate; exact I. }
      destruct (IH st' (S pos) (ts ++ acc) toks Hok' Hl) as (new & -> & Hr).
      exists (rev ts ++ new). rewrite rev_app_distr, <- app_assoc. split; [done|].
      destruct (lex_start_sound pos c st' ts r (kinds new) Hs Hr) as [_ Hsp].
      rewrite kinds_app.
      replace (kinds (rev ts)) with (kinds ts); [exact Hsp|].
      revert Hs. unfold lex_start.
      repeat match goal with
             | |- context [if ?b then _ else _] => destruct b
             end; intros [= <- <-] || discriminate; reflexivity. }
    destruct st as [|start w|start w|start w hex|start w|start w].
    + apply Hstart.
    + (* in a string *)
      simpl. destruct (Ascii.eqb_spec c (ascii_of_nat 34)) as [->|Hq].
      { intros Hl. destruct (IH LStart _ _ _ I Hl) as (new & -> & Hr).
        exists ((start, TAtom (Str (string_of_list_ascii (rev w)))) :: new).
        simpl. rewrite <- app_assoc. split; [done|].
        exists [], r, (kinds new). by repeat split; try constructor. }
      destruct (Ascii.eqb_spec c Py.backslash) as [->|Hb].
      { intros Hl. destruct (IH (LEscape start w) _ _ _ I Hl)
          as (new & -> & body & rest & ks' & -> & Hc & Hk & Hs).
        exists new. split; [done|].
        exists (Py.backslash :: body), rest, ks'. by repeat split. }
      destruct (nat_of_ascii c <? 32)%nat eqn:Hlow; [discriminate|].
      apply Nat.ltb_ge in Hlow.
      intros Hl. destruct (IH (LString start (c :: w)) _ _ _ I Hl)
        as (new & -> & body & rest & ks' & -> & Hc & Hk & Hs).
      exists new. split; [done|].
      exists (c :: body), rest, ks'. repeat split; try done.
      by apply chars_plain.
    + (* after a backslash *)
      simpl. destruct (Ascii.eqb_spec c "u") as [->|Hu].
      { intros Hl.
        assert (lex_ok (LUnicode start w [])) as Hok0
          by (split; [constructor|simpl; lia]).
        destruct (IH (LUnicode start w []) _ _ _ Hok0 Hl)
          as (new & -> & body & rest & ks' & -> & Hc & Hk & Hs).
        exists new. split; [done|].
        exists ("u"%char :: body), rest, ks'. by repeat split. }
      destruct (unescape c) as [c'|] eqn:He; [|discriminate].
      apply unescape_spec in He as [He _].
      intros Hl. destruct (IH (LString start (c' :: w)) _ _ _ I Hl)
        as (new & -> & body & rest & ks' & -> & Hc & Hk & Hs).
      exists new. split; [done|].
      exists (c :: body), rest, ks'. repeat split; try done.
      by apply chars_escape.
    + (* in a \u escape *)
      destruct Hok as [Hhex Hlen]. simpl.
      destruct (hex_val c) as [h|] eqn:Hh; [|discriminate].
      assert (hex_digit c) as Hc by (apply hex_val_spec; by eexists).
      assert (Forall hex_digit (hex ++ [c])) as Hhex'.
      { apply Forall_app. split; [exact Hhex|by constructor]. }
      destruct (length (hex ++ [c]) =? 4)%nat eqn:Hfour.
      * apply Nat.eqb_eq in Hfour.
        destruct (hex_number 0 (hex ++ [c])) as [cp|]; [|discriminate].
        intros Hl. destruct (IH (LString start (rev (utf8 cp) ++ w)) _ _ _ I Hl)
          as (new & -> & body & rest & ks' & -> & Hcs & Hk & Hs).
        exists new. split; [done|].
        exists (c :: body), rest, ks'. repeat split; try done.
        rewrite length_app in Hfour. simpl in Hfour.
        destruct hex as [|h1 [|h2 [|h3 [|h4 hex]]]]; simpl in Hfour; try lia.
        apply Forall_cons in Hhex as [H1 Hhex].
        apply Forall_cons in Hhex as [H2 Hhex].
        apply Forall_cons in Hhex as [H3 _].
        by apply chars_unicode.
      * apply Nat.eqb_neq in Hfour.
        assert (length (hex ++ [c]) < 4)%nat as Hlen'.
        { rewrite length_app in *. simpl in *. lia. }
        intros Hl. destruct (IH (LUnicode start w (hex ++ [c])) _ _ _ (conj Hhex' Hlen') Hl)
          as (new & -> & body & rest & ks' & -> & Hcs & Hk & Hs).
        exists new. split; [done|].
        exists (c :: body), rest, ks'. repeat split; try done.
        by rewrite <- app_assoc in Hcs.
    + (* in a number *)
      destruct (number_char c) eqn:Hc.
      * simpl. rewrite Hc. intros Hl.
        destruct (IH (LNumber start (c :: w)) _ _ _ I Hl)
          as (new & -> & more & rest & ks' & -> & Hn & Hk & Hs).
        exists new. split; [done|].
        exists (c :: more), rest, ks'. repeat split; try done.
        simpl in Hn. by rewrite <- app_assoc in Hn.
      * rewrite lex_number_end by exact Hc.
        destruct (json_number (rev w)) as [v|] eqn:Hv; [|discriminate].
        apply json_number_sound in Hv as [Hn Hk]. intros Hl.
        destruct (Hstart _ _ _ Hl) as (new & -> & Hs).
        exists ((start, TAtom v) :: new). cbn [rev]. rewrite <- app_assoc.
        split; [done|].
        exists [], (c :: r), (kinds new). rewrite !app_nil_r, kinds_cons, Hk.
        by repeat split.
    + (* in a name *)
      destruct (is_alpha c) eqn:Hc.
      * simpl. rewrite Hc. intros Hl.
        destruct (IH (LWord start (c :: w)) _ _ _ I Hl)
          as (new & -> & more & rest & ks' & -> & Hn & Hk & Hs).
        exists new. split; [done|].
        exists (c :: more), rest, ks'. repeat split; try done.
        simpl in Hn. by rewrite <- app_assoc in Hn.
      * rewrite lex_word_end by exact Hc.
        destruct (json_word (rev w)) as [v|] eqn:Hv; [|discriminate].
        apply json_word_sound in Hv as [Hn Hk]. intros Hl.
        destruct (Hstart _ _ _ Hl) as (new & -> & Hs).
        exists ((start, TAtom v) :: new). cbn [rev]. rewrite <- app_assoc.
        split; [done|].
        exists [], (c :: r), (kinds new). rewrite !app_nil_r, kinds_cons, Hk.
        by repeat split.
Qed.

(** *** The lexer: completeness *)

Lemma apart_tail k ks : apart (k :: ks) -> apart ks.
Proof. destruct k, ks as [|[] ks]; simpl; tauto. Qed.

Lemma apart_starts k ks :
  apart (k :: ks) -> (k = KNumber \/ k = KName) -> starts_other k ks.
Proof.
  destruct ks as [|k' ks]; [done|].
  intros Ha [-> | ->]; destruct k'; simpl in *; done.
Qed.

Lemma apart_plain k ks : plain k -> apart ks -> apart (k :: ks).
Proof. destruct k, ks as [|[] ks]; simpl; tauto. Qed.

Lemma apart_app a k b : apart a -> plain k -> apart b -> apart (a ++ k :: b).
Proof.
  intros Ha Hk Hb. induction a as [|x a IH]; [by apply apart_plain|].
  specialize (IH (apart_tail _ _ Ha)).
  destruct a as [|y a].
  - destruct x, k; simpl in *; done.
  - destruct x, y; simpl in *; done.
Qed.

Lemma value_apart_all :
  (forall v, value v -> apart v) /\
  (forall es, elements es -> apart es) /\
  (forall ms, members ms -> apart ms).
Proof.
  apply value_elements_members; try done.
  - intros es _ Hes. simpl. by apply (apart_app es KRBracket []).
  - intros ms _ Hms. simpl. by apply (apart_app ms KRBrace []).
  - intros v es _ Hv _ Hes. by apply apart_app.
  - intros v ms _ Hv _ Hms. simpl. by apply apart_app.
Qed.

Lemma value_apart v : value v -> apart v.
Proof. apply value_apart_all. Qed.

(** How a token begins. *)
Lemma lexeme_head k l :
  lexeme k l ->
  exists c r, l = c :: r /\
    (k <> KNumber -> number_char c = false) /\
    (k <> KName -> is_alpha c = false).
Proof.
  destruct k; simpl.
  1-6: intros ->; eexists _, _; repeat split.
  - intros [body _]. eexists _, _. repeat split.
  - intros Hn. destruct l as [|c r]; [by apply number_not_nil in Hn|].
    exists c, r. repeat split; [done|]. intros _.
    apply number_head in Hn. revert Hn. by_char c.
  - intros Hn. destruct Hn; eexists _, _; repeat split; done.
Qed.

Lemma spelled_stops_number cs ks :
  spelled cs ks -> starts_other KNumber ks -> stops number_char cs.
Proof.
  intros [|c cs' ks' Hc _|k l cs' ks' Hl _]; simpl; [done| |].
  - intros _. destruct Hc as [->|[->|[->| ->]]]; reflexivity.
  - intros Hk. destruct (lexeme_head k l Hl) as (c & r & -> & Hn & _).
    simpl. by apply Hn.
Qed.

Lemma spelled_stops_name cs ks :
  spelled cs ks -> starts_other KName ks -> stops is_alpha cs.
Proof.
  intros [|c cs' ks' Hc _|k l cs' ks' Hl _]; simpl; [done| |].
  - intros _. destruct Hc as [->|[->|[->| ->]]]; reflexivity.
  - intros Hk. destruct (lexeme_head k l Hl) as (c & r & -> & _ & Hn).
    simpl. by apply Hn.
Qed.

(** The run of a number, of a name, of a string. *)
Lemma lex_number_run more : forall start w pos rest acc v,
  Forall (fun c => number_char c = true) more -> stops number_char rest ->
  json_number (rev w ++ more) = Some v ->
  exists pos',
    lex (LNumber start w) pos (more ++ rest) acc =
    lex LStart pos' rest ((start, TAtom v) :: acc).
Proof.
  induction more as [|c m IH]; intros start w pos rest acc v Hall Hstop Hv.
  - rewrite app_nil_r in Hv. simpl. destruct rest as [|c r].
    + exists pos. simpl. by rewrite Hv.
    + exists pos. rewrite lex_number_end by exact Hstop. by rewrite Hv.
  - apply Forall_cons in Hall as [Hc Hall].
    destruct (IH start (c :: w) (S pos) rest acc v Hall Hstop) as [pos' Hrun].
    { simpl. by rewrite <- app_assoc. }
    exists pos'. simpl. by rewrite Hc.
Qed.

Lemma lex_word_run more : forall start w pos rest acc v,
  Forall (fun c => is_alpha c = true) more -> stops is_alpha rest ->
  json_word (rev w ++ more) = Some v ->
  exists pos',
    lex (LWord start w) pos (more ++ rest) acc =
    lex LStart pos' rest ((start, TAtom v) :: acc).
Proof.
  induction more as [|c m IH]; intros start w pos rest acc v Hall Hstop Hv.
  - rewrite app_nil_r in Hv. simpl. destruct rest as [|c r].
    + exists pos. simpl. by rewrite Hv.
    + exists pos. rewrite lex_word_end by exact Hstop. by rewrite Hv.
  - apply Forall_cons in Hall as [Hc Hall].
    destruct (IH start (c :: w) (S pos) rest acc v Hall Hstop) as [pos' Hrun].
    { simpl. by rewrite <- app_assoc. }
    exists pos'. simpl. by rewrite Hc.
Qed.

Lemma unescape_complete c :
  c ∈ [quote; Py.backslash; "/"; "b"; "f"; "n"; "r"; "t"]%char ->
  exists c', unescape c = Some c' /\ Ascii.eqb c "u" = false.
Proof.
  intros H.
  repeat match goal with
         | H : _ ∈ (_ :: _) |- _ => inversion H; subst; clear H
         end.
  all: try (eexists; split; reflexivity).
  all: match goal with H : _ ∈ [] |- _ => inversion H end.
Qed.

Lemma lex_string_run body :
  chars body ->
  forall start w pos rest acc,
  exists s pos',
    lex (LString start w) pos (body ++ quote :: rest) acc =
    lex LStart pos' rest ((start, TAtom (Str s)) :: acc).
Proof.
  induction 1 as [|c r Hlow Hq Hb _ IH|c r Hc _ IH|h1 h2 h3 h4 r H1 H2 H3 H4 _ IH];
    intros start w pos rest acc.
  - by eexists _, _.
  - destruct (IH start (c :: w) (S pos) rest acc) as (s & pos' & Hrun).
    exists s, pos'. rewrite <- Hrun. simpl.
    apply Ascii.eqb_neq in Hq, Hb. apply Nat.ltb_ge in Hlow.
    unfold quote in Hq. by rewrite Hq, Hb, Hlow.
  - destruct (unescape_complete c Hc) as (c' & He & Hu).
    destruct (IH start (c' :: w) (S (S pos)) rest acc) as (s & pos' & Hrun).
    exists s, pos'. rewrite <- Hrun.
    change (lex (LString start w) pos ((Py.backslash :: c :: r) ++ quote :: rest) acc)
      with (lex (LEscape start w) (S pos) (c :: r ++ quote :: rest) acc).
    simpl. by rewrite Hu, He.
  - apply hex_val_spec in H1 as [n1 E1]. apply hex_val_spec in H2 as [n2 E2].
    apply hex_val_spec in H3 as [n3 E3]. apply hex_val_spec in H4 as [n4 E4].
    change (lex (LString start w) pos
              ((Py.backslash :: "u"%char :: h1 :: h2 :: h3 :: h4 :: r) ++ quote :: rest) acc)
      with (lex (LUnicode start w []) (S (S pos))
              (h1 :: h2 :: h3 :: h4 :: r ++ quote :: rest) acc).
    simpl. rewrite E1. simpl. rewrite E2. simpl. rewrite E3. simpl. rewrite E4.
    simpl. apply IH.
Qed.

(** Completeness: a text that spells tokens, no two numbers and no two
    names side by side, gives these tokens. *)
Lemma lex_complete cs ks :
  spelled cs ks -> apart ks ->
  forall pos acc, exists new,
    lex LStart pos cs acc = inr (rev acc ++ new) /\ kinds new = ks.
Proof.
  induction 1 as [|c cs ks Hc _ IH|k l cs ks Hl Hs IH]; intros Ha pos acc.
  - exists []. by rewrite app_nil_r.
  - destruct (IH Ha (S pos) acc) as (new & Hrun & Hk).
    exists new. simpl. rewrite lex_start_ws by (by apply json_ws_spec).
    simpl. by rewrite Hrun.
  - pose proof (apart_tail _ _ Ha) as Ha'.
    assert (forall pos' tok, kind_of tok.2 = k ->
              lex LStart pos (l ++ cs) acc = lex LStart pos' cs (tok :: acc) ->
              exists new,
                lex LStart pos (l ++ cs) acc = inr (rev acc ++ new) /\
                kinds new = k :: ks) as Hgo.
    { intros pos' tok Hk Hrun. destruct (IH Ha' pos' (tok :: acc)) as (new & Hnew & Hks).
      exists (tok :: new). rewrite Hrun, Hnew. cbn [rev]. rewrite <- app_assoc.
      split; [done|]. destruct tok as [p t]. rewrite kinds_cons. simpl in Hk.
      by rewrite Hk, Hks. }
    destruct k; simpl in Hl.
    1-6: subst l.
    + apply (Hgo (S pos) (pos, TLBrace)); done.
    + apply (Hgo (S pos) (pos, TRBrace)); done.
    + apply (Hgo (S pos) (pos, TLBracket)); done.
    + apply (Hgo (S pos) (pos, TRBracket)); done.
    + apply (Hgo (S pos) (pos, TColon)); done.
    + apply (Hgo (S pos) (pos, TComma)); done.
    + destruct Hl as [body Hb].
      destruct (lex_string_run body Hb pos [] (S pos) cs acc) as (s & pos' & Hrun).
      apply (Hgo pos' (pos, TAtom (Str s))); [done|].
      rewrite <- Hrun. norm_app. reflexivity.
    + destruct l as [|c more]; [by apply number_not_nil in Hl|].
      pose proof (number_head _ _ Hl) as Hhead.
      pose proof (number_chars _ Hl) as [_ Hall]%Forall_cons.
      destruct (json_number_complete _ Hl) as [v Hv].
      pose proof (json_number_sound _ _ Hv) as [_ Hkind].
      destruct (lex_number_run more pos [c] (S pos) cs acc v Hall) as [pos' Hrun].
      { eapply spelled_stops_number; [exact Hs|]. apply apart_starts; auto. }
      { exact Hv. }
      apply (Hgo pos' (pos, TAtom v)); [exact Hkind|].
      rewrite <- Hrun. cbn [app]. simpl. by rewrite lex_start_number by exact Hhead.
    + destruct l as [|c more]; [inversion Hl|].
      pose proof (name_head _ _ Hl) as Hhead.
      pose proof (name_chars _ Hl) as [_ Hall]%Forall_cons.
      destruct (json_word_complete _ Hl) as [v Hv].
      pose proof (json_word_sound _ _ Hv) as [_ Hkind].
      destruct (lex_word_run more pos [c] (S pos) cs acc v Hall) as [pos' Hrun].
      { eapply spelled_stops_name; [exact Hs|]. apply apart_starts; auto. }
      { exact Hv. }
      apply (Hgo pos' (pos, TAtom v)); [exact Hkind|].
      rewrite <- Hrun. cbn [app]. simpl. by rewrite lex_start_alpha by exact Hhead.
Qed.

(** *** The loader *)

(** One JSON value. *)
Lemma parse_json_text cs : (exists v, parse_json cs = inr v) <-> text cs.
Proof.
  unfold parse_json. split.
  - intros [v Hv]. destruct (lex LStart 0 cs []) as [|toks] eqn:Hl; [discriminate|].
    destruct (lex_sound cs LStart 0 [] toks I Hl) as (new & -> & Hs).
    exists (kinds new). split; [exact Hs|]. by eapply parse_value.
  - intros (ks & Hs & Hv).
    destruct (lex_complete cs ks Hs (value_apart ks Hv) 0 []) as (new & -> & <-).
    simpl. by apply parse_complete.
Qed.

Lemma blank_spec l : blank l = true <-> blank_line l.
Proof.
  unfold blank, blank_line. induction l as [|c r IH]; simpl.
  - split; [constructor|done].
  - rewrite andb_true_iff, IH, Forall_cons. tauto.
Qed.

(** Line by line. *)
Lemma parse_lines_text ls : forall n,
  (exists vs, parse_lines n ls = inr vs) <->
  Forall (fun l => blank_line l \/ text l) ls.
Proof.
  induction ls as [|l r IH]; intros n; simpl.
  - split; [constructor|by eexists].
  - rewrite Forall_cons, <- (IH (S n)).
    destruct (blank l) eqn:Hb.
    { apply blank_spec in Hb. tauto. }
    assert (~ blank_line l) as Hnb.
    { intros H%blank_spec. congruence. }
    destruct (parse_json l) as [offset|v] eqn:Hv.
    + split; [by intros [? [=]]|].
      intros [[H|H] _]; [done|].
      apply parse_json_text in H as [v Hv']. congruence.
    + assert (text l) as Ht by (apply parse_json_text; by eexists).
      destruct (parse_lines (S n) r) as [e|vs]; split.
      * by intros [? [=]].
      * by intros [_ [? [=]]].
      * intros _. split; [by right|by eexists].
      * intros _. by eexists.
Qed.

Lemma split_lines_app l : forall cur rest,
  line_feed ∉ l ->
  split_lines cur (l ++ rest) = split_lines (rev l ++ cur) rest.
Proof.
  induction l as [|c l IH]; intros cur rest Hl; [reflexivity|].
  apply not_elem_of_cons in Hl as [Hc Hl]. simpl.
  destruct (Ascii.eqb_spec c (ascii_of_nat 10)) as [->|_]; [done|].
  rewrite IH by exact Hl. by rewrite <- app_assoc.
Qed.

Lemma elem_of_rev {A} (x : A) l : x ∈ rev l <-> x ∈ l.
Proof. rewrite !list_elem_of_In. symmetry. apply in_rev. Qed.

Lemma split_lines_feed cur rest :
  split_lines cur (line_feed :: rest) = rev cur :: split_lines [] rest.
Proof. reflexivity. Qed.

(** The lines of a text are its lines. *)
Lemma split_join l r : forall cur,
  Forall (fun l => line_feed ∉ l) (l :: r) ->
  split_lines cur (join_lines (l :: r)) = (rev cur ++ l) :: r.
Proof.
  revert l. induction r as [|l' r IH]; intros l cur [Hl Hr]%Forall_cons.
  - simpl. rewrite <- (app_nil_r l) at 1. rewrite split_lines_app by exact Hl.
    simpl. by rewrite rev_app_distr, rev_involutive.
  - change (join_lines (l :: l' :: r)) with (l ++ line_feed :: join_lines (l' :: r)).
    rewrite split_lines_app, split_lines_feed by exact Hl.
    rewrite rev_app_distr, rev_involutive, IH by exact Hr. reflexivity.
Qed.

Lemma split_lines_spec cs : forall cur,
  line_feed ∉ cur ->
  split_lines cur cs <> [] /\
  rev cur ++ cs = join_lines (split_lines cur cs) /\
  Forall (fun l => line_feed ∉ l) (split_lines cur cs).
Proof.
  induction cs as [|c r IH]; intros cur Hcur; simpl.
  - rewrite app_nil_r. repeat split; [done|]. constructor; [|constructor].
    by rewrite elem_of_rev.
  - destruct (Ascii.eqb_spec c (ascii_of_nat 10)) as [->|Hc].
    + destruct (IH [] (not_elem_of_nil _)) as (Hne & Hj & Hall).
      simpl in Hj. split; [done|]. split.
      * destruct (split_lines [] r) as [|l' ls] eqn:Hs; [done|].
        change (join_lines (rev cur :: l' :: ls))
          with (rev cur ++ line_feed :: join_lines (l' :: ls)).
        by rewrite <- Hj.
      * constructor; [by rewrite elem_of_rev|exact Hall].
    + destruct (IH (c :: cur)) as (Hne & Hj & Hall).
      { apply not_elem_of_cons. split; [|exact Hcur].
        intros Heq. symmetry in Heq. exact (Hc Heq). }
      split; [exact Hne|]. split; [|exact Hall].
      rewrite <- Hj. simpl. by rewrite <- app_assoc.
Qed.

Lemma split_lines_lines cs :
  (exists vs, parse_lines 1 (split_lines [] cs) = inr vs) <->
  exists ls,
    ls <> [] /\ cs = join_lines ls /\ Forall (fun l => line_feed ∉ l) ls /\
    Forall (fun l => blank_line l \/ text l) ls.
Proof.
  rewrite parse_lines_text. split.
  - intros H. destruct (split_lines_spec cs [] (not_elem_of_nil _)) as (Hne & Hj & Hall).
    by exists (split_lines [] cs).
  - intros ([|l r] & Hne & -> & Hall & Hok); [done|].
    by rewrite split_join.
Qed.

(** The loader accepts the texts that are JSON or JSON-Lines, and no
    other text. *)
Lemma load_json_accepts s :
  (exists v, load_json s = inr v) <-> valid s \/ valid_lines s.
Proof.
  unfold load_json, valid, valid_lines.
  rewrite <- parse_json_text, <- split_lines_lines.
  destruct (parse_json (list_ascii_of_string s)) as [offset|v].
  - destruct (parse_lines 1 (split_lines [] (list_ascii_of_string s)))
      as [e|[|v [|v' vs]]]; split.
    + by intros [? [=]].
    + by intros [[? [=]]|[? [=]]].
    + intros _. right. by eexists.
    + intros _. by eexists.
    + intros _. right. by eexists.
    + intros _. by eexists.
    + intros _. right. by eexists.
    + intros _. by eexists.
  - split; intros _; [left|]; by eexists.
Qed.

Lemma parse_lines_error ls : forall n e,
  parse_lines n ls = inl e -> exists line offset, e = ParseError line offset.
Proof.
  induction ls as [|l r IH]; intros n e; simpl; [discriminate|].
  destruct (blank l); [apply IH|].
  destruct (parse_json l) as [offset|v].
  - intros [= <-]. by eexists _, _.
  - destruct (parse_lines (S n) r) as [e'|vs] eqn:Hr; [|discriminate].
    intros [= <-]. by eapply IH.
Qed.

Lemma load_json_error s e :
  load_json s = inl e -> exists line offset, e = ParseError line offset.
Proof.
  unfold load_json. destruct (parse_json _) as [offset|v]; [|discriminate].
  destruct (parse_lines 1 _) as [e'|[|v [|v' vs]]] eqn:Hl; try discriminate.
  intros [= <-]. by eapply parse_lines_error.
Qed.

(** The loader rejects the texts that are neither. *)
Lemma load_json_rejects s :
  (exists line offset, load_json s = inl (ParseError line offset)) <->
  ~ valid s /\ ~ valid_lines s.
Proof.
  split.
  - intros (line & offset & He). assert (~ (valid s \/ valid_lines s)) as H.
    { intros [v Hv]%load_json_accepts. congruence. }
    tauto.
  - intros [H1 H2]. destruct (load_json s) as [e|v] eqn:Hl.
    + destruct (load_json_error s e Hl) as (line & offset & ->). by eexists _, _.
    + exfalso. assert (valid s \/ valid_lines s) as [|]; [|done|done].
      apply load_json_accepts. by eexists.
Qed.

(** A blank text is JSON-Lines without a value. *)
Lemma split_lines_blank cs : forall cur,
  Forall (fun c => Py.is_space c = true) (cur ++ cs) ->
  Forall blank_line (split_lines cur cs).
Proof.
  induction cs as [|c r IH]; intros cur Hall; simpl.
  - rewrite app_nil_r in Hall. constructor; [|constructor].
    unfold blank_line. by apply Forall_rev.
  - apply Forall_app in Hall as [Hcur [Hc Hr]%Forall_cons].
    destruct (Ascii.eqb c (ascii_of_nat 10)).
    + constructor; [unfold blank_line; by apply Forall_rev|].
      by apply IH.
    + apply IH. simpl. constructor; [exact Hc|]. by apply Forall_app.
Qed.

Lemma blank_valid_lines s : has_data s = false -> valid_lines s.
Proof.
  intros H. apply split_lines_lines, parse_lines_text.
  eapply Forall_impl; [apply split_lines_blank|by left].
  simpl. unfold has_data in H. destruct s as [|c s]; [constructor|].
  simpl in H. apply negb_false_iff in H.
  apply (proj1 (blank_spec (list_ascii_of_string (String c s)))). exact H.
Qed.
End JsonFacts.

(** ** A call, case by case *)

(** The innermost scrutinee of the goal. *)
Ltac case_scrutinee :=
  match goal with
  | |- context [match ?x with _ => _ end] =>
      lazymatch x with
      | context [match _ with _ => _ end] => fail
      | _ => destruct x eqn:?
      end
  end.

Ltac unfold_run :=
  unfold run_main; rewrite main_eq;
  unfold pipeline, load_stage, query_stage, format_stage, output_stage,
    helptext, print_error, print_exception, try_except, call, mbind, M_bind,
    mret, M_ret, get_opts, put_opts, log, raise, sys_exit, print,
    print_stderr, start, with_opts;
  cbn [p_opts p_stdout p_stderr p_log].

(** Every way a call can go, as one goal each. *)
Ltac run_cases :=
  unfold_run;
  repeat (case_scrutinee; cbn [p_opts p_stdout p_stderr p_log fst snd app] in * );
  cbn [p_opts p_stdout p_stderr p_log fst snd app] in *.

Ltac split_elem H :=
  repeat (rewrite ?elem_of_cons, ?elem_of_nil in H);
  repeat match type of H with
         | _ \/ _ => destruct H as [H|H]
         | False => destruct H
         end.

Section Runs.

Context {L : JelloLib}.
Variable E : Env.

(** [main] reads its arguments through [with_argv] as through [argv]. *)
Lemma main_with_argv args data q p :
  main (with_argv args E) data q p =
  match scan args (mkArgs [] ∅ q) with
  | None => helptext E p
  | Some a =>
      let p1 := with_opts (set_opts (options a) (p_opts p)) p in
      if helpme (p_opts p1) then helptext E p1
      else if version_info (p_opts p1) then
        (print version_text E ;; sys_exit 0) p1
      else match piped E data with
           | None => print_error missing_data p1
           | Some d =>
               if has_data d then pipeline E d (query a) p1 else (p1, Ok tt)
           end
  end.
Proof. rewrite main_eq. reflexivity. Qed.

(** Two argument lists that read the same give the same call. *)
Lemma main_reading args1 args2 data q p :
  reading <$> scan args1 (mkArgs [] ∅ q) = reading <$> scan args2 (mkArgs [] ∅ q) ->
  main (with_argv args1 E) data q p = main (with_argv args2 E) data q p.
Proof.
  intros H. rewrite !main_with_argv.
  destruct (scan args1 _) as [a1|], (scan args2 _) as [a2|];
    simpl in H; try discriminate; [|reflexivity].
  injection H as Ho Hq. by rewrite Ho, Hq.
Qed.

(** The query handed to [pyquery] is the query of the call. *)
Lemma query_event o data q ev :
  ev ∈ p_log (run_main E o data q).1 -> ev_fun ev = FPyQuery ->
  ev_arg ev = Some (call_query E q).
Proof.
  unfold call_query. run_cases.
  all: intros Hin Hf; split_elem Hin; subst; try discriminate Hf; reflexivity.
Qed.

End Runs.

(** ** Only the option object is carried over *)

Section Frame.

Context {L : JelloLib}.
Variable E : Env.

Lemma behind_behind {A} p p1 (x : Proc * Res A) :
  behind (behind p (p1, Ok tt)).1 x = behind p (behind p1 x).
Proof.
  unfold behind; simpl. by rewrite !app_assoc.
Qed.

Lemma behind_start {A} o (x : Proc * Res A) : behind (start o) x = x.
Proof. by destruct x as [[] ?]. Qed.

Lemma framed_ret {A} (a : A) : framed (mret a).
Proof. intros p. unfold behind, mret, M_ret; simpl. by rewrite !app_nil_r; destruct p. Qed.

Lemma framed_bind {A B} (m : M A) (f : A -> M B) :
  framed m -> (forall a, framed (f a)) -> framed (m ≫= f).
Proof.
  intros Hm Hf p. unfold mbind, M_bind.
  rewrite (Hm p). destruct (m (start (p_opts p))) as [p1 [a|e|c]]; try reflexivity.
  cbn [behind fst snd]. rewrite (Hf a _); cbn [p_opts].
  rewrite (Hf a p1). apply (behind_behind p p1).
Qed.

Lemma framed_try_except {A} (body : M A) (handler : Exn -> M A) :
  framed body -> (forall e, framed (handler e)) -> framed (try_except body handler).
Proof.
  intros Hm Hf p. unfold try_except.
  rewrite (Hm p). destruct (body (start (p_opts p))) as [p1 [a|e|c]]; try reflexivity.
  cbn [behind fst snd]. rewrite (Hf e _); cbn [p_opts].
  rewrite (Hf e p1). apply (behind_behind p p1).
Qed.

Ltac framed_prim :=
  intros p; unfold behind; cbn; rewrite ?app_nil_r; try reflexivity;
  destruct p; reflexivity.

Lemma framed_raise {A} e : framed (@raise A e).
Proof. framed_prim. Qed.

Lemma framed_sys_exit {A} c : framed (@sys_exit A c).
Proof. framed_prim. Qed.

Lemma framed_get_opts : framed get_opts.
Proof. framed_prim. Qed.

Lemma framed_put_opts o : framed (put_opts o).
Proof. framed_prim. Qed.

Lemma framed_log ev : framed (log ev).
Proof. framed_prim. Qed.

Lemma framed_print_stderr s : framed (print_stderr s).
Proof. framed_prim. Qed.

Lemma framed_print s : framed (print s E).
Proof.
  intros p. unfold print, behind.
  destruct (print_raises E s); cbn; rewrite ?app_nil_r; reflexivity.
Qed.

Lemma framed_call {A} f arg (r : Exn + A) : framed (call f arg r).
Proof.
  destruct r; unfold call; apply framed_bind;
    auto using framed_log, framed_raise, framed_ret.
Qed.

Create HintDb framed.

#[local] Hint Resolve framed_ret framed_bind framed_try_except framed_raise
  framed_sys_exit framed_get_opts framed_put_opts framed_log
  framed_print_stderr framed_print framed_call : framed.

Ltac framed_step :=
  first
    [ apply framed_bind; [|intros ?]
    | apply framed_try_except; [|intros ?]
    | solve [auto with framed]
    | match goal with
      | |- framed (if ?b then _ else _) => destruct b
      | |- framed (match ?x with _ => _ end) => destruct x
      end ].

Lemma framed_helptext {A} : framed (helptext (A:=A) E).
Proof. unfold helptext. repeat framed_step. Qed.

Lemma framed_print_error {A} s : framed (@print_error A s).
Proof. unfold print_error. repeat framed_step. Qed.

Lemma framed_print_exception {A} e d q r out ty :
  framed (print_exception (A:=A) e d q r out ty).
Proof. unfold print_exception. repeat framed_step. Qed.

#[local] Hint Resolve framed_helptext framed_print_error
  framed_print_exception : framed.

Lemma framed_arg_loop args : forall a, framed (arg_loop E args a).
Proof.
  induction args as [|arg rest IH]; intros a; simpl; [auto with framed|].
  apply framed_bind; [|exact IH].
  unfold arg_step. repeat framed_step.
Qed.

Lemma framed_main data q : framed (main E data q).
Proof.
  unfold main. apply framed_bind; [apply framed_arg_loop|].
  intros [opt lo q'].
  unfold load_stage, query_stage, format_stage, output_stage.
  repeat framed_step.
Qed.

End Frame.

(** ** The calls of [main] *)

Ltac keeps_flags :=
  unfold keeps, flags, set_opts, set_mono; simpl;
  repeat constructor; intros H; rewrite ?H; reflexivity.

Lemma keeps_refl o : keeps o o.
Proof. keeps_flags. Qed.

Lemma keeps_set_opts opt o : keeps o (set_opts opt o).
Proof. keeps_flags. Qed.

Lemma keeps_set_mono opt o : keeps o (set_mono (set_opts opt o)).
Proof. keeps_flags. Qed.

Lemma has_data_blank d :
  d = EmptyString \/ Py.isspace d = true -> has_data d = false.
Proof.
  unfold has_data. intros [->| ->]; [reflexivity|]. apply andb_false_r.
Qed.

Section Calls.

Context {L : JelloLib}.
Variable E : Env.

Lemma run_keeps o data q : keeps o (p_opts (run_main E o data q).1).
Proof.
  run_cases; auto using keeps_refl, keeps_set_opts, keeps_set_mono.
Qed.

(** C1 (amended).  The option object is the state that one call of [main]
    leaves to the next, and the only one: whatever state a call starts
    in, it prints, ends and sets the options as the call that starts from
    these option settings with empty streams; and a call clears no flag,
    so what an earlier call has set stays set.  (The library functions are
    functions of the option object and their arguments.) *)
Theorem options_carry_over data q p :
  main E data q p = behind p (run_main E (p_opts p) data q) /\
  keeps (p_opts p) (p_opts (main E data q p).1).
Proof.
  pose proof (framed_main E data q p) as Hf. split; [exact Hf|].
  rewrite Hf. apply run_keeps.
Qed.

(** The load stage, for every library: a text that is handed to the
    loader and rejected by it makes the call fail there; the load message
    goes to stderr, nothing goes to stdout, the exit status is 1, and no
    later stage runs. *)
Lemma load_rejected o data q d e :
  piped E data = Some d -> has_data d = true -> asks_info E o q = false ->
  load_json (call_opts E o q) d = inl e ->
  run_main E o data q =
    (mkProc (call_opts E o q) [] [load_message e]
            [mkEvent FLoadJson (Some d) true], Exit 1).
Proof.
  unfold asks_info, call_opts, run_main. intros Hd Hdata Hinfo Hload.
  rewrite main_eq. destruct (parsed E q) as [a|]; [|discriminate].
  apply orb_false_elim in Hinfo as [Hh Hv].
  cbn [with_opts p_opts start]. rewrite Hh, Hv, Hd, Hdata.
  unfold pipeline, load_stage, try_except, mbind, M_bind, get_opts, call.
  cbn [with_opts p_opts start p_stdout p_stderr p_log]. rewrite Hload.
  reflexivity.
Qed.

(** C8 (amended).  A piped text that is empty or all white space makes
    the call print nothing, report no error and return, when the call
    does not end in the help or version text; without a piped text such a
    call reports the missing data and exits with status 1, and this
    message is never printed when there is a text. *)
Theorem blank_input o data q :
  (forall d, piped E data = Some d ->
     d = EmptyString \/ Py.isspace d = true -> asks_info E o q = false ->
     run_main E o data q = (mkProc (call_opts E o q) [] [] [], Ok tt)) /\
  (piped E data = None -> asks_info E o q = false ->
     run_main E o data q =
       (mkProc (call_opts E o q) [] [missing_data] [], Exit 1)) /\
  (missing_data ∈ p_stderr (run_main E o data q).1 -> piped E data = None).
Proof.
  split; [|split].
  - intros d Hd Hblank Hinfo. apply has_data_blank in Hblank.
    unfold asks_info, call_opts, run_main in *.
    rewrite main_eq. destruct (parsed E q) as [a|]; [|discriminate].
    apply orb_false_elim in Hinfo as [Hh Hv].
    cbn [with_opts p_opts start]. by rewrite Hh, Hv, Hd, Hblank.
  - intros Hd Hinfo. unfold asks_info, call_opts, run_main in *.
    rewrite main_eq. destruct (parsed E q) as [a|]; [|discriminate].
    apply orb_false_elim in Hinfo as [Hh Hv].
    cbn [with_opts p_opts start]. by rewrite Hh, Hv, Hd.
  - run_cases; intros Hin; split_elem Hin; try reflexivity;
      try (cbv in Hin; discriminate Hin).
Qed.

End Calls.

(** C2 (amended).  A text that is neither JSON nor JSON-Lines, by the
    grammar of JSON, makes the call fail in the load stage, when the call
    does not end in the help or version text: the loader rejects the text
    with a [ParseError], the load message goes to stderr, nothing goes to
    stdout, the exit status is 1, and no later stage runs. *)
Theorem load_failure (E : Env) o data q d :
  piped E data = Some d -> asks_info E o q = false ->
  ~ Json.valid d -> ~ Json.valid_lines d ->
  exists line offset,
    Core.load_json d = inl (Core.ParseError line offset) /\
    run_main (L:=Core.lib) E o data q =
      (mkProc (call_opts E o q) []
              [load_message (Core.exn (Core.ParseError line offset))]
              [mkEvent FLoadJson (Some d) true], Exit 1).
Proof.
  intros Hd Hinfo Hjson Hlines.
  assert (has_data d = true) as Hdata.
  { destruct (has_data d) eqn:Hb; [reflexivity|].
    by apply JsonFacts.blank_valid_lines in Hb. }
  destruct (proj2 (JsonFacts.load_json_rejects d) (conj Hjson Hlines))
    as (line & offset & Hload).
  exists line, offset. split; [exact Hload|].
  apply (load_rejected (L:=Core.lib) E o data q d _ Hd Hdata Hinfo).
  simpl. by rewrite Hload.
Qed.

Section Stages.

Context {L : JelloLib}.
Variable E : Env.

(** C4.  The first call that raises (in the load, query, formatting or
    output stage, or a [print] of the help or version text) ends the
    call: it is the last call of the run, the exit status is 1, nothing
    has been printed on stdout (a [print] that raises has written
    nothing), and no function is called a second time. *)
Theorem errors_fail_fast o data q ev :
  ev ∈ p_log (run_main E o data q).1 -> ev_raised ev = true ->
  exit_status (run_main E o data q).2 = 1%Z /\
  p_stdout (run_main E o data q).1 = [] /\
  last (p_log (run_main E o data q).1) = Some ev /\
  NoDup (ev_fun <$> p_log (run_main E o data q).1).
Proof.
  run_cases.
  all: intros Hin Hr; split_elem Hin; subst; try discriminate Hr.
  all: repeat split; try reflexivity.
  all: apply (bool_decide_unpack _); exact I.
Qed.

(** C6.  In a call that has evaluated the query, the document [doc] was
    loaded from the piped text and the query gave a response [resp]; the
    text the output stage starts from is then the text of the back end
    that the schema flag selects, the schema walker's for [resp] when the
    flag is set and the serializer's otherwise; that back end is called,
    and no function of the other one is.  What the call prints on stdout
    is this text and nothing else (for JSON on a terminal, the text after
    [highlight]); nothing is printed when the back end, [highlight] or
    [print] raises. *)
Theorem one_backend o data q qx :
  mkEvent FPyQuery (Some qx) false ∈ p_log (run_main E o data q).1 ->
  exists d doc resp,
    piped E data = Some d /\
    load_json (call_opts E o q) d = inr doc /\
    pyquery (call_opts E o q) doc qx = inr resp /\
    output_text (p_log (run_main E o data q).1) =
      match (if schema (call_opts E o q)
             then schema_backend E (call_opts E o q) resp
             else create_json (call_opts E o q) resp) with
      | inr text => Some text
      | inl _ => None
      end /\
    p_stdout (run_main E o data q).1 =
      match backend E (call_opts E o q) resp with
      | inr text =>
          match shown E (call_opts E o q) text with
          | inr out => printed E out
          | inl _ => []
          end
      | inl _ => []
      end /\
    (if schema (call_opts E o q) then FSchema else FCreateJson)
      ∈ ev_fun <$> p_log (run_main E o data q).1 /\
    forall ev, ev ∈ p_log (run_main E o data q).1 ->
      (if schema (call_opts E o q) then ev_fun ev <> FCreateJson
       else schema_fun (ev_fun ev) = false).
Proof.
  unfold call_opts, backend, schema_backend, shown, printed. run_cases.
  all: intros Hin; split_elem Hin; try discriminate Hin.
  all: injection Hin as ->.
  all: eexists _, _, _; repeat split; try eassumption.
  all: repeat match goal with
         | H : ?x = _ |- context [?x] => rewrite H
         end; try reflexivity.
  all: try (apply (bool_decide_unpack _); exact I).
  all: try (intros ev' Hin; split_elem Hin; subst; try discriminate; reflexivity).
  all: cbn [schema set_mono] in *; congruence.
Qed.

End Stages.

Section Arguments.

Context {L : JelloLib}.
Variable E : Env.

(** What [helptext] leaves when it is the whole call. *)
Lemma helptext_run o :
  print_raises E helptext_text = None ->
  helptext (A:=unit) E (start o) =
    (mkProc o [helptext_text] [] [mkEvent FPrint (Some helptext_text) false],
     Exit 0).
Proof. intros H. unfold helptext, print, mbind, M_bind. by rewrite H. Qed.


Lemma filter_drop_overwritten args l x :
  filter (fun arg => positional arg = true) args = l ++ [x] ->
  filter (fun arg => positional arg = true) (drop_overwritten args) = [x].
Proof.
  revert l. induction args as [|arg rest IH]; intros l; simpl.
  - by destruct l.
  - rewrite filter_cons. destruct (decide (positional arg = true)) as [Hp|Hp].
    + rewrite Hp. simpl. destruct l as [|y l]; simpl.
      * intros [= -> Hnil].
        assert (existsb positional rest = false) as Hr.
        { apply not_true_is_false. intros [z [Hin Hz]]%existsb_exists.
          apply list_elem_of_In in Hin.
          assert (z ∈ filter (fun arg => positional arg = true) rest) as Hz'
            by (apply list_elem_of_filter; done).
          rewrite Hnil in Hz'. by apply elem_of_nil in Hz'. }
        rewrite Hr. rewrite filter_cons, decide_True by done. f_equal.
        clear IH. induction rest as [|r rest IH]; [done|].
        simpl in Hr. apply orb_false_elim in Hr as [Hr1 Hr2].
        rewrite filter_cons in Hnil.
        destruct (decide (positional r = true)); [congruence|].
        simpl. rewrite Hr1. simpl. rewrite filter_cons, decide_False by done.
        by apply IH.
      * intros [= -> Hl].
        assert (existsb positional rest = true) as Hr.
        { apply existsb_exists. exists x.
          assert (x ∈ filter (fun arg => positional arg = true) rest) as Hx
            by (rewrite Hl; apply elem_of_app; right; apply list_elem_of_singleton; done).
          apply list_elem_of_filter in Hx as [Hx1 Hx2].
          split; [by apply list_elem_of_In|done]. }
        rewrite Hr. by eapply IH.
    + apply not_true_is_false in Hp. rewrite Hp. simpl.
      rewrite filter_cons, decide_False by congruence. apply IH.
Qed.

(** C10.  Of several positional arguments only the last one counts: the
    call is the same as the call without the positional arguments that a
    later one overwrites, in which the last one is the only positional
    argument left, and the query handed to [pyquery] is this last
    argument. *)
Theorem last_positional_wins o data q l x :
  filter (fun arg => positional arg = true) (argv E) = l ++ [x] ->
  run_main E o data q =
    run_main (with_argv (drop_overwritten (argv E)) E) o data q /\
  filter (fun arg => positional arg = true) (drop_overwritten (argv E)) = [x] /\
  forall ev, ev ∈ p_log (run_main E o data q).1 ->
    ev_fun ev = FPyQuery -> ev_arg ev = Some x.
Proof.
  intros Hl. split; [|split].
  - unfold run_main. rewrite main_with_argv, main_eq. unfold parsed.
    by rewrite scan_drop_overwritten.
  - by eapply filter_drop_overwritten.
  - intros ev Hin Hf. rewrite (query_event E o data q ev Hin Hf).
    unfold call_query, parsed.
    destruct (scan (argv E) (mkArgs [] ∅ q)) as [a|] eqn:Hs.
    + f_equal. by eapply scan_last.
    + exfalso. revert Hin Hf. unfold run_main. rewrite main_eq.
      unfold parsed. rewrite Hs. unfold helptext, print, mbind, M_bind, sys_exit.
      destruct (print_raises E helptext_text); simpl;
        intros Hin; split_elem Hin; subst; discriminate.
Qed.

End Arguments.

(** C5.  Without a positional argument the query of a call is the
    default of the parameter, [_]: it is what [pyquery] is handed, and
    for the query engine it selects the whole document. *)
Theorem query_defaults_to_root {L : JelloLib} (E : Env) o data :
  existsb positional (argv E) = false ->
  call_query E default_query = "_" /\
  (forall ev, ev ∈ p_log (run_main E o data default_query).1 ->
     ev_fun ev = FPyQuery -> ev_arg ev = Some "_") /\
  (forall doc, Core.pyquery doc default_query = inr doc).
Proof.
  intros Hno.
  assert (call_query E default_query = "_") as Hq.
  { unfold call_query, parsed.
    destruct (scan (argv E) _) as [a|] eqn:Hs; [|reflexivity].
    by rewrite (scan_no_positional _ _ _ Hno Hs). }
  split; [exact Hq|]. split.
  - intros ev Hin Hf. rewrite <- Hq. by eapply query_event.
  - intros doc. reflexivity.
Qed.

(** ** The parser accepts the texts of the grammar only *)

Module GrammarFacts.
Import Core Grammar.

Lemma integer_sound cs i : integer cs = Some i -> integer_form cs i.
Proof.
  unfold integer. destruct cs as [|c r]; [discriminate|].
  destruct (Ascii.eqb c "-") eqn:Hc.
  - apply Ascii.eqb_eq in Hc as ->.
    destruct (all_digits r) eqn:Hd; [|discriminate].
    intros [= <-]. by constructor.
  - destruct (all_digits (c :: r)) eqn:Hd; [|discriminate].
    intros [= <-]. by constructor.
Qed.

Lemma component_sound cs x : component cs = Some x -> component_form cs x.
Proof.
  unfold component. destruct cs as [|c r].
  - intros [= <-]. constructor.
  - destruct (integer (c :: r)) as [i|] eqn:Hi; simpl; [|discriminate].
    intros [= <-]. constructor. by apply integer_sound.
Qed.

Lemma bracket_sound parts s :
  bracket_step parts = Some s ->
  step_form s ("["%char :: colon_join parts ++ ["]"%char]).
Proof.
  destruct parts as [|a [|b [|c [|d parts]]]]; simpl; try discriminate.
  - destruct (integer a) as [i|] eqn:Hi; simpl; [|discriminate].
    intros [= <-]. constructor. by apply integer_sound.
  - destruct (component a) as [x|] eqn:Ha; simpl; [|discriminate].
    destruct (component b) as [y|] eqn:Hb; simpl; [|discriminate].
    intros [= <-]. rewrite <- app_assoc. simpl.
    constructor; by apply component_sound.
  - destruct (component a) as [x|] eqn:Ha; simpl; [|discriminate].
    destruct (component b) as [y|] eqn:Hb; simpl; [|discriminate].
    destruct (component c) as [z|] eqn:Hc; simpl; [|discriminate].
    intros [= <-]. rewrite <- !app_assoc. simpl. rewrite <- app_assoc. simpl.
    constructor; by apply component_sound.
Qed.

Lemma colon_join_snoc parts x :
  parts <> [] -> colon_join (parts ++ [x]) = colon_join parts ++ (":"%char :: x).
Proof.
  induction parts as [|a [|b parts] IH]; intros Hne; [done|reflexivity|].
  change (colon_join ((a :: b :: parts) ++ [x]))
    with (a ++ (":"%char :: colon_join ((b :: parts) ++ [x]))).
  rewrite IH by done.
  change (colon_join (a :: b :: parts)) with (a ++ (":"%char :: colon_join (b :: parts))).
  by rewrite <- app_assoc.
Qed.

Lemma colon_join_last parts x y :
  colon_join (parts ++ [x ++ y]) = colon_join (parts ++ [x]) ++ y.
Proof.
  destruct parts as [|a parts]; [reflexivity|].
  rewrite !colon_join_snoc by done. by rewrite <- !app_assoc.
Qed.

Lemma colon_join_open parts x :
  colon_join ((parts ++ [x]) ++ [[]]) = colon_join (parts ++ [x]) ++ [":"%char].
Proof. apply colon_join_snoc. by destruct parts. Qed.

(** A step starts with a dot or an opening bracket. *)
Lemma step_start_sound c st r p :
  step_start c = Some st -> completes st r p -> steps_form p (c :: r).
Proof.
  unfold step_start.
  destruct (Ascii.eqb c ".") eqn:Hd.
  - apply Ascii.eqb_eq in Hd as ->. intros [= <-].
    intros (more & rest & p' & -> & Hid & -> & Hp).
    apply (form_step _ _ ("."%char :: more) rest); [|exact Hp].
    by constructor.
  - destruct (Ascii.eqb c "[") eqn:Hb; [|discriminate].
    apply Ascii.eqb_eq in Hb as ->. intros [= <-].
    intros (body & rest & s & p' & -> & Hs & -> & Hp).
    by apply (form_step _ _ ("["%char :: body) rest).
Qed.

Lemma parse_steps_sound cs : forall st acc p,
  parse_steps st cs acc = Some p ->
  exists p', p = rev acc ++ p' /\ completes st cs p'.
Proof.
  induction cs as [|c r IH]; intros st acc p.
  - destruct st as [| |name| |qc s|k|parts cur]; simpl; try discriminate.
    + intros [= <-]. exists []. rewrite app_nil_r. split; [done|].
      apply form_bare. constructor.
    + intros [= <-]. exists []. rewrite app_nil_r. split; [done|]. constructor.
    + destruct (identifier (rev name)) eqn:Hid; [|discriminate].
      intros [= <-]. eexists. split; [reflexivity|].
      exists [], [], []. repeat split; rewrite ?app_nil_r; try done. constructor.
  - destruct st as [| |name| |qc s|k|parts cur]; cbn [parse_steps].
    + (* QStart *)
      destruct (Ascii.eqb c "_") eqn:Hu.
      * apply Ascii.eqb_eq in Hu as ->. intros H.
        apply IH in H as (p' & -> & Hp). simpl. rewrite <- app_assoc.
        eexists. split; [reflexivity|]. by apply form_rooted.
      * destruct (step_start c) as [st'|] eqn:Hs; simpl; [|discriminate].
        intros H. apply IH in H as (p' & -> & Hp).
        eexists. split; [reflexivity|]. apply form_bare.
        by eapply step_start_sound.
    + (* QStep *)
      destruct (step_start c) as [st'|] eqn:Hs; simpl; [|discriminate].
      intros H. apply IH in H as (p' & -> & Hp).
      eexists. split; [reflexivity|]. by eapply step_start_sound.
    + (* QAttr *)
      destruct (ident_char c) eqn:Hc.
      * intros H. apply IH in H as (p' & -> & more & rest & p'' & -> & Hid & -> & Hp).
        eexists. split; [reflexivity|].
        exists (c :: more), rest, p''. simpl in Hid. rewrite <- app_assoc in Hid.
        repeat split; try done. simpl. by rewrite <- app_assoc.
      * destruct (identifier (rev name)) eqn:Hid; [|discriminate].
        destruct (step_start c) as [st'|] eqn:Hs; simpl; [|discriminate].
        intros H. apply IH in H as (p' & -> & Hp). simpl. rewrite <- app_assoc.
        eexists. split; [reflexivity|].
        exists [], (c :: r), p'. repeat split; rewrite ?app_nil_r; try done.
        by eapply step_start_sound.
    + (* QOpen *)
      destruct (is_quote c) eqn:Hq.
      * intros H. apply IH in H as (p' & -> & more & rest & p'' & -> & Hno & -> & Hp).
        eexists. split; [reflexivity|].
        exists (c :: more ++ [c; "]"%char]), rest,
          (Key (KStr (string_of_list_ascii more))), p''.
        repeat split; try done.
        -- simpl. by rewrite <- app_assoc.
        -- simpl. by constructor.
      * destruct (number_part c) eqn:Hn.
        -- intros H. apply IH in H as (p' & -> & body & rest & s & p'' & -> & Hs & -> & Hp).
           eexists. split; [reflexivity|].
           exists (c :: body ++ ["]"%char]), rest, s, p''. repeat split; try done.
           simpl. by rewrite <- app_assoc.
        -- destruct (Ascii.eqb c ":") eqn:Hcol; [|discriminate].
           apply Ascii.eqb_eq in Hcol as ->.
           intros H. apply IH in H as (p' & -> & body & rest & s & p'' & -> & Hs & -> & Hp).
           eexists. split; [reflexivity|].
           exists (":"%char :: body ++ ["]"%char]), rest, s, p''. repeat split; try done.
           simpl. by rewrite <- app_assoc.
    + (* QQuoted *)
      destruct (Ascii.eqb c qc) eqn:Hq.
      * apply Ascii.eqb_eq in Hq as ->. intros H.
        apply IH in H as (p' & -> & rest & p'' & -> & -> & Hp).
        eexists. split; [reflexivity|].
        exists [], rest, p''. repeat split; rewrite ?app_nil_r; try done.
        apply not_elem_of_nil.
      * intros H. apply IH in H as (p' & -> & more & rest & p'' & -> & Hno & -> & Hp).
        eexists. split; [reflexivity|].
        exists (c :: more), rest, p''. repeat split; try done.
        -- apply not_elem_of_cons. split; [|done].
           intros ->. by rewrite Ascii.eqb_refl in Hq.
        -- simpl. by rewrite <- app_assoc.
    + (* QClose *)
      destruct (Ascii.eqb c "]") eqn:Hb; [|discriminate].
      apply Ascii.eqb_eq in Hb as ->. intros H.
      apply IH in H as (p' & -> & Hp). simpl. rewrite <- app_assoc.
      eexists. split; [reflexivity|]. by exists r, p'.
    + (* QNumber *)
      destruct (number_part c) eqn:Hn.
      * intros H. apply IH in H as (p' & -> & body & rest & s & p'' & -> & Hs & -> & Hp).
        eexists. split; [reflexivity|].
        exists (c :: body), rest, s, p''. repeat split; try done.
        simpl in Hs. rewrite colon_join_last in Hs.
        by rewrite <- app_assoc in Hs.
      * destruct (Ascii.eqb c ":") eqn:Hcol.
        -- apply Ascii.eqb_eq in Hcol as ->. intros H.
           apply IH in H as (p' & -> & body & rest & s & p'' & -> & Hs & -> & Hp).
           eexists. split; [reflexivity|].
           exists (":"%char :: body), rest, s, p''. repeat split; try done.
           simpl in Hs. rewrite colon_join_open in Hs.
           by rewrite <- app_assoc in Hs.
        -- destruct (Ascii.eqb c "]") eqn:Hb; [|discriminate].
           apply Ascii.eqb_eq in Hb as ->.
           destruct (bracket_step (parts ++ [rev cur])) as [s|] eqn:Hs;
             simpl; [|discriminate].
           intros H. apply IH in H as (p' & -> & Hp). simpl. rewrite <- app_assoc.
           eexists. split; [reflexivity|].
           exists [], r, s, p'. repeat split; try done.
           by apply bracket_sound.
Qed.

(** A query that is parsed is a text of the grammar, for the path it is
    parsed to. *)
Lemma parse_query_sound q p :
  parse_query q = Some p -> query_form p (list_ascii_of_string q).
Proof.
  intros H. apply parse_steps_sound in H as (p' & -> & Hp). exact Hp.
Qed.

End GrammarFacts.

(** ** The query engine *)

Module CoreFacts.
Import Core Parts Grammar.

Lemma lookup_elem name m v : lookup name m = Some v -> (name, v) ∈ m.
Proof.
  induction m as [|[k x] m IH]; simpl; [discriminate|].
  destruct (String.eqb name k) eqn:Hk.
  - intros [= ->]. apply String.eqb_eq in Hk as ->. apply list_elem_of_here.
  - intros H. apply list_elem_of_further. by apply IH.
Qed.

Lemma index_elem l k v : index l k = Some v -> v ∈ l.
Proof.
  unfold index. case_match; [|discriminate].
  intros Hl. by eapply list_elem_of_lookup_2.
Qed.

Lemma slice_sub {A} (l l' : list A) start stop step :
  slice l start stop step = inr l' -> l' ⊆ l.
Proof.
  unfold slice. case_match; [discriminate|]. intros [= <-] x Hx.
  apply list_elem_of_omap in Hx as (i & _ & Hi).
  by eapply list_elem_of_lookup_2.
Qed.

Lemma eval_step_part doc s v v' :
  part_of doc v -> eval_step s v = inr v' -> part_of doc v'.
Proof.
  intros Hv. destruct s as [name|[name|k]|start stop step|]; destruct v; simpl;
    try discriminate; try (intros [= <-]; exact Hv).
  - destruct (lookup name m) eqn:Hl; [|discriminate]. intros [= <-].
    eapply part_entry; [exact Hv|]. by apply lookup_elem.
  - destruct (lookup name m) eqn:Hl; [|discriminate]. intros [= <-].
    eapply part_entry; [exact Hv|]. by apply lookup_elem.
  - destruct (index l k) eqn:Hi; [|discriminate]. intros [= <-].
    eapply part_element; [exact Hv|]. by eapply index_elem.
  - destruct (slice (list_ascii_of_string s) start stop step) eqn:Hs;
      [discriminate|]. intros [= <-].
    eapply part_characters; [exact Hv|].
    rewrite list_ascii_of_string_of_list_ascii. by eapply slice_sub.
  - destruct (slice l start stop step) eqn:Hs; [discriminate|]. intros [= <-].
    eapply part_elements; [exact Hv|]. by eapply slice_sub.
Qed.

Lemma eval_path_part doc p : forall v v',
  part_of doc v -> eval_path p v = inr v' -> part_of doc v'.
Proof.
  induction p as [|s p IH]; intros v v' Hv; simpl.
  - by intros [= <-].
  - destruct (eval_step s v) as [e|v1] eqn:Hs; [discriminate|].
    apply IH. by eapply eval_step_part.
Qed.

(** C7.  The root query gives the document back, whatever the document
    is; so does the empty query, the empty path. *)
Theorem root_query_is_identity doc :
  pyquery doc "_" = inr doc /\ pyquery doc EmptyString = inr doc.
Proof. split; reflexivity. Qed.

(** C3.  The query engine does nothing but walk an access path: a query
    is either rejected with [SyntaxError], or it is a text of the path
    grammar (attribute, key, index and slice steps) and the result is that
    of its steps applied from left to right; and a result is made of the
    document only: it is a part of it.  A query with a call, as
    [__import__('os').system('id')], is rejected. *)
Theorem query_is_a_path doc q :
  match parse_query q with
  | None => pyquery doc q = inl SyntaxError
  | Some p =>
      query_form p (list_ascii_of_string q) /\
      pyquery doc q = eval_path p doc /\
      forall v, pyquery doc q = inr v -> part_of doc v
  end /\
  pyquery doc "__import__('os').system('id')" = inl SyntaxError.
Proof.
  split; [|reflexivity].
  unfold pyquery. destruct (parse_query q) as [p|] eqn:Hq; [|reflexivity].
  split; [by apply GrammarFacts.parse_query_sound|].
  split; [reflexivity|]. intros v. apply eval_path_part. constructor.
Qed.

End CoreFacts.

(** ** The properties at sample calls *)

(** C1: the text piped and the arguments are the same, and the call after
    a call with [-s] prints the schema and leaves other options than the
    call before it. *)
Lemma options_counterexample :
  p_stdout (Sample.run [] Sample.fresh Sample.doc).1 <>
  p_stdout (Sample.run []
              (p_opts (Sample.run ["-s"]
                         (p_opts (Sample.run [] Sample.fresh Sample.doc).1)
                         Sample.doc).1)
              Sample.doc).1 /\
  p_opts (Sample.run [] Sample.fresh Sample.doc).1 <>
  p_opts (Sample.run []
            (p_opts (Sample.run ["-s"]
                       (p_opts (Sample.run [] Sample.fresh Sample.doc).1)
                       Sample.doc).1)
            Sample.doc).1.
Proof. split; vm_compute; discriminate. Qed.

(** C2: the malformed text of the design document is neither JSON nor
    JSON-Lines; with [-h], and with a long option that is not well formed,
    it is not loaded, and the help text is on stdout. *)
Lemma load_counterexample :
  ~ Json.valid Sample.malformed /\ ~ Json.valid_lines Sample.malformed /\
  Sample.run ["-h"] Sample.fresh Sample.malformed =
    (mkProc (set_opts ["h"%char] Sample.fresh) [helptext_text] []
            [mkEvent FPrint (Some helptext_text) false], Exit 0) /\
  Sample.run ["--indent"] Sample.fresh Sample.malformed =
    (mkProc Sample.fresh [helptext_text] []
            [mkEvent FPrint (Some helptext_text) false], Exit 0).
Proof.
  assert (~ Json.valid Sample.malformed /\ ~ Json.valid_lines Sample.malformed)
    as [H1 H2].
  { apply JsonFacts.load_json_rejects. exists 1%nat, 6%nat. vm_compute. reflexivity. }
  split; [exact H1|]. split; [exact H2|]. split; vm_compute; reflexivity.
Qed.

Lemma load_failure_witness :
  ~ Json.valid Sample.malformed /\ ~ Json.valid_lines Sample.malformed /\
  Sample.run [] Sample.fresh Sample.malformed =
    (mkProc Sample.fresh []
       [load_message (Core.exn (Core.ParseError 1 6))]
       [mkEvent FLoadJson (Some Sample.malformed) true], Exit 1).
Proof.
  assert (~ Json.valid Sample.malformed /\ ~ Json.valid_lines Sample.malformed)
    as [H1 H2].
  { apply JsonFacts.load_json_rejects. exists 1%nat, 6%nat. vm_compute. reflexivity. }
  split; [exact H1|]. split; [exact H2|].
  destruct (load_failure (Sample.env []) Sample.fresh (Some Sample.malformed)
              default_query Sample.malformed eq_refl eq_refl H1 H2)
    as (line & offset & Hload & Hrun).
  vm_compute in Hload. injection Hload as <- <-. exact Hrun.
Defined.

(** C8: with [-v] a blank text gives the version text on stdout, and
    with a long option that is not well formed the help text. *)
Lemma blank_counterexample :
  Py.isspace " " = true /\
  p_stdout (Sample.run ["-v"] Sample.fresh " ").1 =
    [version_text (L:=Core.lib)] /\
  p_stdout (Sample.run ["--indent"] Sample.fresh " ").1 = [helptext_text].
Proof. repeat split; vm_compute; reflexivity. Qed.

Lemma blank_input_witness :
  Sample.run [] Sample.fresh Sample.white = (mkProc Sample.fresh [] [] [], Ok tt).
Proof.
  apply (proj1 (blank_input (L:=Core.lib) (Sample.env []) Sample.fresh
                  (Some Sample.white) default_query) Sample.white).
  - reflexivity.
  - right. reflexivity.
  - reflexivity.
Defined.

Lemma errors_fail_fast_witness :
  mkEvent FPyQuery (Some "_.a[2]") true
    ∈ p_log (Sample.run ["_.a[2]"] Sample.fresh Sample.doc).1 /\
  exit_status (Sample.run ["_.a[2]"] Sample.fresh Sample.doc).2 = 1%Z /\
  p_stdout (Sample.run ["_.a[2]"] Sample.fresh Sample.doc).1 = [] /\
  last (p_log (Sample.run ["_.a[2]"] Sample.fresh Sample.doc).1) =
    Some (mkEvent FPyQuery (Some "_.a[2]") true) /\
  NoDup (ev_fun <$> p_log (Sample.run ["_.a[2]"] Sample.fresh Sample.doc).1).
Proof.
  assert (mkEvent FPyQuery (Some "_.a[2]") true
            ∈ p_log (Sample.run ["_.a[2]"] Sample.fresh Sample.doc).1) as Hin.
  { vm_compute. apply list_elem_of_further, list_elem_of_here. }
  split; [exact Hin|].
  exact (errors_fail_fast (L:=Core.lib) (Sample.env ["_.a[2]"]) Sample.fresh
           (Some Sample.doc) default_query _ Hin eq_refl).
Defined.

Lemma one_backend_witness :
  mkEvent FPyQuery (Some "_.a") false
    ∈ p_log (Sample.run ["-s"; "_.a"] Sample.fresh Sample.doc).1 /\
  (exists d doc resp,
    piped (Sample.env ["-s"; "_.a"]) (Some Sample.doc) = Some d /\
    @load_json Core.lib
      (call_opts (Sample.env ["-s"; "_.a"]) Sample.fresh default_query) d
      = inr doc /\
    @pyquery Core.lib
      (call_opts (Sample.env ["-s"; "_.a"]) Sample.fresh default_query) doc "_.a"
      = inr resp /\
    output_text (p_log (Sample.run ["-s"; "_.a"] Sample.fresh Sample.doc).1) =
      match (if schema (call_opts (Sample.env ["-s"; "_.a"]) Sample.fresh default_query)
             then schema_backend (L:=Core.lib) (Sample.env ["-s"; "_.a"])
                    (call_opts (Sample.env ["-s"; "_.a"]) Sample.fresh default_query) resp
             else @create_json Core.lib
                    (call_opts (Sample.env ["-s"; "_.a"]) Sample.fresh default_query) resp) with
      | inr text => Some text
      | inl _ => None
      end /\
    p_stdout (Sample.run ["-s"; "_.a"] Sample.fresh Sample.doc).1 =
      match backend (L:=Core.lib) (Sample.env ["-s"; "_.a"])
              (call_opts (Sample.env ["-s"; "_.a"]) Sample.fresh default_query) resp with
      | inr text =>
          match shown (L:=Core.lib) (Sample.env ["-s"; "_.a"])
                  (call_opts (Sample.env ["-s"; "_.a"]) Sample.fresh default_query) text with
          | inr out => printed (Sample.env ["-s"; "_.a"]) out
          | inl _ => []
          end
      | inl _ => []
      end /\
    (if schema (call_opts (Sample.env ["-s"; "_.a"]) Sample.fresh default_query)
     then FSchema else FCreateJson)
      ∈ ev_fun <$> p_log (Sample.run ["-s"; "_.a"] Sample.fresh Sample.doc).1 /\
    forall ev, ev ∈ p_log (Sample.run ["-s"; "_.a"] Sample.fresh Sample.doc).1 ->
      (if schema (call_opts (Sample.env ["-s"; "_.a"]) Sample.fresh default_query)
       then ev_fun ev <> FCreateJson
       else schema_fun (ev_fun ev) = false)) /\
  p_stdout (Sample.run ["-s"; "_.a"] Sample.fresh Sample.doc).1 =
    ["_[0].b = 1;  (integer)" +:+ Py.nl +:+ "_[1].b = 2;  (integer)"] /\
  p_stdout (Sample.run ["-c"; "_.a"] Sample.fresh Sample.doc).1 =
    ["[{" +:+ Sample.quoted "b" +:+ ":1},{" +:+ Sample.quoted "b" +:+ ":2}]"].
Proof.
  assert (mkEvent FPyQuery (Some "_.a") false
            ∈ p_log (Sample.run ["-s"; "_.a"] Sample.fresh Sample.doc).1) as Hin.
  { vm_compute. apply list_elem_of_further, list_elem_of_here. }
  split; [exact Hin|]. split; [|split; vm_compute; reflexivity].
  exact (one_backend (L:=Core.lib) (Sample.env ["-s"; "_.a"]) Sample.fresh
           (Some Sample.doc) default_query "_.a" Hin).
Defined.


Lemma last_positional_witness :
  Sample.run ["_.x"; "-c"; "_.a[0]"; "_.a[1]"] Sample.fresh Sample.doc =
  Sample.run ["-c"; "_.a[1]"] Sample.fresh Sample.doc /\
  mkEvent FPyQuery (Some "_.a[1]") false
    ∈ p_log (Sample.run ["_.x"; "-c"; "_.a[0]"; "_.a[1]"] Sample.fresh Sample.doc).1.
Proof.
  split.
  - exact (proj1 (last_positional_wins (L:=Core.lib)
                    (Sample.env ["_.x"; "-c"; "_.a[0]"; "_.a[1]"])
                    Sample.fresh (Some Sample.doc) default_query
                    ["_.x"; "_.a[0]"] "_.a[1]" eq_refl)).
  - vm_compute. apply list_elem_of_further, list_elem_of_here.
Defined.

Lemma query_defaults_witness :
  existsb positional ["-c"; "--indent=2"] = false /\
  call_query (Sample.env ["-c"; "--indent=2"]) default_query = "_" /\
  mkEvent FPyQuery (Some "_") false
    ∈ p_log (Sample.run ["-c"; "--indent=2"] Sample.fresh Sample.doc).1.
Proof.
  split; [reflexivity|]. split.
  - exact (proj1 (query_defaults_to_root (L:=Core.lib)
                    (Sample.env ["-c"; "--indent=2"]) Sample.fresh
                    (Some Sample.doc) eq_refl)).
  - vm_compute. apply list_elem_of_further, list_elem_of_here.
Defined.

Lemma query_is_a_path_witness :
  Core.pyquery (Sample.loaded Sample.doc) "_.a[1:]" =
    inr (Core.List [Core.Map [("b", Core.Int 2)]]) /\
  Parts.part_of (Sample.loaded Sample.doc) (Core.List [Core.Map [("b", Core.Int 2)]]).
Proof.
  split; [reflexivity|].
  pose proof (CoreFacts.query_is_a_path (Sample.loaded Sample.doc) "_.a[1:]") as H.
  destruct H as [H _].
  change (Core.parse_query "_.a[1:]")
    with (Some [Core.WholeValue; Core.Attribute "a";
                Core.Slice (Some 1%Z) None None]) in H.
  destruct H as (_ & _ & Hpart). apply Hpart. reflexivity.
Defined.

(** ** The examples of the design document, on the core *)

Module Examples.
Import Core.

(** Long options the argument loop accepts, and some it refuses.  [int]
    skips a no-break space, a NEL and a vertical tab around the digits
    but not the separators FS, GS, RS and US, and it reads up to 4300
    digits. *)
Example long_option_forms :
  forallb well_formed_long
    ["--k=5"; "--k=-5"; "--k=+5"; "--k= 7 "; "--k=1_000"; "--=3"; "--k=007";
     "--k=" +:+ String (ascii_of_nat 160) "7";
     "--k=7" +:+ String (ascii_of_nat 133) EmptyString;
     "--k=" +:+ String (ascii_of_nat 11) "7";
     "--k=" +:+ string_of_list_ascii (repeat "1"%char 4300)]
  = true /\
  forallb malformed_long
    ["--k"; "--k="; "--k=x"; "--k=1=2"; "--"; "--k=5_"; "--k=1.5"; "--k=0x10";
     "--k=- 5"; "--k=1__0";
     "--k=" +:+ String (ascii_of_nat 28) "7";
     "--k=7" +:+ String (ascii_of_nat 31) EmptyString;
     "--k=" +:+ string_of_list_ascii (repeat "1"%char 4301);
     "--k=" +:+ string_of_list_ascii (repeat "0"%char 4301)]
  = true.
Proof. split; vm_compute; reflexivity. Qed.

(** White space for [isspace]: the text is blank, and as JSON it is no
    value; a text of JSON white space with a value has data. *)
Example blank_texts :
  has_data Sample.white = false /\ has_data " 1 " = true /\
  forallb (fun n => Py.is_space (ascii_of_nat n))
    [9; 10; 11; 12; 13; 28; 29; 30; 31; 32; 133; 160]%nat = true /\
  existsb (fun n => Py.is_space (ascii_of_nat n))
    [0; 8; 14; 27; 33; 127; 132; 134; 159; 161; 255]%nat = false.
Proof. repeat split; vm_compute; reflexivity. Qed.

(** JSON texts and texts that are none. *)
Example json_texts :
  Json.valid Sample.doc /\ Json.valid " [1, 2.5e-3, true, null] " /\
  Json.valid_lines ("1" +:+ Py.nl +:+ Py.nl +:+ "[2]" +:+ Py.nl) /\
  ~ Json.valid "[1,]" /\ ~ Json.valid_lines "[1,]" /\
  ~ Json.valid "01" /\ ~ Json.valid "1 2" /\ ~ Json.valid "{1:2}".
Proof.
  assert (forall s, (exists v, load_json s = inr v) -> ~ Json.valid_lines s ->
                    Json.valid s) as Hv.
  { intros s [H|H]%JsonFacts.load_json_accepts; tauto. }
  assert (forall s, (exists v, parse_json (list_ascii_of_string s) = inr v) ->
                    Json.valid s) as Hj.
  { intros s H. by apply JsonFacts.parse_json_text. }
  assert (forall s, (exists o, parse_json (list_ascii_of_string s) = inl o) ->
                    ~ Json.valid s) as Hn.
  { intros s [o Ho] [v Hv']%JsonFacts.parse_json_text. congruence. }
  repeat split.
  - apply Hj. eexists. vm_compute. reflexivity.
  - apply Hj. eexists. vm_compute. reflexivity.
  - assert (Json.valid ("1" +:+ Py.nl +:+ Py.nl +:+ "[2]" +:+ Py.nl) \/
            Json.valid_lines ("1" +:+ Py.nl +:+ Py.nl +:+ "[2]" +:+ Py.nl)) as [H|H].
    { apply JsonFacts.load_json_accepts. eexists. vm_compute. reflexivity. }
    + exfalso. revert H. apply Hn. eexists. vm_compute. reflexivity.
    + exact H.
  - apply Hn. eexists. vm_compute. reflexivity.
  - apply (JsonFacts.load_json_rejects "[1,]"). eexists _, _. vm_compute. reflexivity.
  - apply Hn. eexists. vm_compute. reflexivity.
  - apply Hn. eexists. vm_compute. reflexivity.
  - apply Hn. eexists. vm_compute. reflexivity.
Qed.

(** Example 1: [{"a": {"b": 1}}] and [_.a.b]. *)
Example nested_attribute :
  let doc := Sample.loaded ("{" +:+ Sample.quoted "a" +:+ ": {"
                            +:+ Sample.quoted "b" +:+ ": 1}}") in
  pyquery doc "_.a.b" = inr (Int 1) /\
  create_json (mkConfig false false false false) (Int 1) = "1".
Proof. split; vm_compute; reflexivity. Qed.

(** Example 2: [[1,2,3]] and [_[1:]], rendered as lines. *)
Example slice_as_lines :
  pyquery (Sample.loaded "[1,2,3]") "_[1:]" = inr (List [Int 2; Int 3]) /\
  create_json (mkConfig false false true false) (List [Int 2; Int 3])
    = "2" +:+ Py.nl +:+ "3".
Proof. split; vm_compute; reflexivity. Qed.

(** Example 3: nulls are left out of a [Map] when they are suppressed. *)
Example nulls_suppressed :
  let doc := Sample.loaded ("{" +:+ Sample.quoted "x" +:+ ": null, "
                            +:+ Sample.quoted "y" +:+ ": 2}") in
  pyquery doc "_" = inr (Map [("x", Null); ("y", Int 2)]) /\
  create_json (mkConfig true false false true) doc
    = "{" +:+ Sample.quoted "y" +:+ ":2}".
Proof. split; vm_compute; reflexivity. Qed.

(** Example 4: the schema of [{"a":[{"b":1},{"b":2}]}]. *)
Example schema_lines :
  map (fun l => path_text (line_path l))
      (walk [WholeValue] (Sample.loaded Sample.doc))
  = ["_.a[0].b"; "_.a[1].b"].
Proof. vm_compute; reflexivity. Qed.

(** Example 5: [{"a": }] does not load. *)
Example malformed_input :
  load_json Sample.malformed = inl (ParseError 1 6).
Proof. vm_compute; reflexivity. Qed.

(** Example 6: [_.1foo] is not a query, [_["1foo"]] is. *)
Example invalid_identifier :
  let doc := Sample.loaded ("{" +:+ Sample.quoted "1foo" +:+ ": true}") in
  pyquery doc "_.1foo" = inl SyntaxError /\
  pyquery doc ("_[" +:+ Sample.quoted "1foo" +:+ "]") = inr (Bool true).
Proof. split; vm_compute; reflexivity. Qed.

(** Slices clamp, a zero step is refused, [-1] is the last index. *)
Example slice_clamping :
  pyquery (Sample.loaded "[1,2,3]") "_[0:1000]" = inr (List [Int 1; Int 2; Int 3]) /\
  pyquery (Sample.loaded "[1,2,3]") "_[::0]" = inl InvalidSlice /\
  pyquery (Sample.loaded "[1,2,3]") "_[-1]" = pyquery (Sample.loaded "[1,2,3]") "_[2]".
Proof. repeat split; vm_compute; reflexivity. Qed.

End Examples.

(** * More properties of [jello/cli.py] *)

(** ** The values shown by [print_exception] *)

Lemma append_cons c s t : String c s +:+ t = String c (s +:+ t).
Proof. reflexivity. Qed.

Lemma append_empty t : EmptyString +:+ t = t.
Proof. reflexivity. Qed.

(** [simpl] with the equations of [+:+]. *)
Ltac simpl_append := rewrite ?append_cons, ?append_empty; simpl.

Lemma length_append s t :
  String.length (s +:+ t) = (String.length s + String.length t)%nat.
Proof. induction s as [|c s IH]; simpl_append; [reflexivity|]. by rewrite IH. Qed.




Lemma take_append n : forall s t,
  String.length s = n -> Py.take n (s +:+ t) = s.
Proof.
  unfold Py.take. induction n as [|n IH]; intros [|c s] t; simpl_append;
    try discriminate.
  - intros _. by destruct t.
  - intros [= H]. by rewrite IH.
Qed.




Lemma has_nl_append s t : has_nl (s +:+ t) = has_nl s || has_nl t.
Proof.
  unfold has_nl. induction s as [|c s IH]; simpl_append; [reflexivity|].
  by rewrite IH, orb_assoc.
Qed.

Lemma has_nl_replace r : forall s,
  has_nl r = false -> has_nl (Py.replace_nl r s) = false.
Proof.
  intros s Hr. induction s as [|c s IH]; simpl; [reflexivity|].
  destruct (Ascii.eqb c (ascii_of_nat 10)) eqn:Hc.
  - by rewrite has_nl_append, Hr, IH.
  - rewrite Ascii.eqb_sym in Hc. unfold has_nl in *. simpl in *.
    by rewrite Hc.
Qed.

Lemma has_nl_take n : forall s, has_nl s = false -> has_nl (Py.take n s) = false.
Proof.
  unfold Py.take, has_nl.
  induction n as [|n IH]; intros [|c s]; simpl; try reflexivity.
  intros [Hc Hs]%orb_false_elim. by rewrite Hc, IH.
Qed.

Lemma has_nl_drop n : forall s, has_nl s = false -> has_nl (Py.drop n s) = false.
Proof.
  unfold has_nl.
  induction n as [|n IH]; intros [|c s]; simpl; try done.
  intros [Hc Hs]%orb_false_elim. by apply IH.
Qed.

(** X2.  A value shown by [print_exception] stays on its line: after the
    line breaks are written as backslash-n and the value is shortened, no
    line break is left in the query, the data, the response and the
    output; nor in the [text] of the exception, whose line breaks are
    removed. *)
Theorem shown_on_one_line s :
  has_nl (shorten (Py.replace_nl (Py.bs +:+ "n") s)) = false /\
  has_nl (Py.replace_nl EmptyString s) = false.
Proof.
  split; [|by apply has_nl_replace].
  assert (has_nl (Py.replace_nl (Py.bs +:+ "n") s) = false) as H
    by (by apply has_nl_replace).
  unfold shorten. case_match; [|exact H].
  rewrite !has_nl_append, has_nl_take by exact H.
  unfold Py.last_n. by rewrite has_nl_drop.
Qed.

(** ** Flags *)

Lemma has_app c x y : has c (x ++ y) = has c x || has c y.
Proof. unfold has. apply existsb_app. Qed.

Lemma flags_of_app x y l :
  flags_of x = flags_of y -> flags_of (x ++ l) = flags_of (y ++ l).
Proof.
  unfold flags_of, flag_letters. cbn [map]. rewrite !has_app.
  intros [= -> -> -> -> -> -> -> -> ->]. reflexivity.
Qed.

(** Lines 145-153 read [options] through the nine letters only. *)
Lemma set_opts_flags x y o : flags_of x = flags_of y -> set_opts x o = set_opts y o.
Proof.
  unfold flags_of, flag_letters, set_opts. cbn [map].
  intros [= -> -> -> -> -> -> -> -> ->]. reflexivity.
Qed.

Lemma scan_step_flags a b arg :
  reading_flags a = reading_flags b ->
  reading_flags <$> scan_step a arg = reading_flags <$> scan_step b arg.
Proof.
  intros H. pose proof (f_equal fst H) as Ho. pose proof (f_equal snd H) as Hq.
  unfold reading_flags in *. cbn [fst snd] in Ho, Hq. clear H. unfold scan_step.
  destruct (is_option arg); [simpl; by rewrite (flags_of_app _ _ _ Ho), Hq|].
  destruct (is_long arg); [|simpl; by rewrite Ho].
  destruct (long_option (Py.drop 2 arg)) as [[k v]|]; simpl; [|reflexivity].
  by rewrite Ho, Hq.
Qed.

Lemma scan_flags args : forall a b,
  reading_flags a = reading_flags b ->
  reading_flags <$> scan args a = reading_flags <$> scan args b.
Proof.
  induction args as [|arg rest IH]; intros a b Hab; simpl.
  - by rewrite Hab.
  - pose proof (scan_step_flags a b arg Hab) as Hs.
    destruct (scan_step a arg) as [a'|], (scan_step b arg) as [b'|];
      simpl in Hs; try discriminate; [|reflexivity].
    apply IH. congruence.
Qed.

Section Flags.

Context {L : JelloLib}.
Variable E : Env.

(** Two argument lists that give the same flags and the same query give
    the same call. *)
Lemma main_flags args1 args2 data q p :
  reading_flags <$> scan args1 (mkArgs [] ∅ q)
    = reading_flags <$> scan args2 (mkArgs [] ∅ q) ->
  main (with_argv args1 E) data q p = main (with_argv args2 E) data q p.
Proof.
  intros H. rewrite !main_with_argv.
  destruct (scan args1 _) as [a1|], (scan args2 _) as [a2|];
    simpl in H; try discriminate; [|reflexivity].
  assert (reading_flags a1 = reading_flags a2) as H' by congruence.
  pose proof (f_equal fst H') as Ho. pose proof (f_equal snd H') as Hq.
  unfold reading_flags in Ho, Hq. cbn [fst snd] in Ho, Hq. cbn zeta.
  by rewrite (set_opts_flags _ _ _ Ho), Hq.
Qed.

Lemma scan_step_option a arg :
  is_option arg = true ->
  scan_step a arg =
    Some (mkArgs (options a ++ list_ascii_of_string (Py.drop 1 arg))
                 (long_options a) (query a)).
Proof. intros H. unfold scan_step. by rewrite H. Qed.

Lemma is_option_dash x : is_option ("-" +:+ x) = positional x.
Proof.
  unfold is_option, positional, Py.startswith.
  change ("-" +:+ x) with (String "-" x). cbn -[ascii_dec].
  destruct (ascii_dec "-" "-"); [|done].
  by destruct x.
Qed.

Lemma positional_append a b :
  a <> EmptyString -> positional (a +:+ b) = positional a.
Proof.
  destruct a as [|c a]; [done|]. intros _.
  unfold positional, Py.startswith. change (String c a +:+ b) with (String c (a +:+ b)).
  cbn -[ascii_dec]. destruct (ascii_dec "-" c); [|reflexivity].
  by destruct a, b.
Qed.

Lemma list_ascii_append a b :
  list_ascii_of_string (a +:+ b) = list_ascii_of_string a ++ list_ascii_of_string b.
Proof.
  induction a as [|c a IH]; [reflexivity|].
  change (String c a +:+ b) with (String c (a +:+ b)). simpl. by rewrite IH.
Qed.

(** X3.  Flags may be written together: [-ab] is [-a -b].  The call with
    one argument of several letters is the call with the letters split
    over two arguments at any place. *)
Theorem flags_cluster o data q pre post a b :
  a <> EmptyString -> positional a = true -> positional b = true ->
  run_main (with_argv (pre ++ ("-" +:+ a +:+ b) :: post) E) o data q =
  run_main (with_argv (pre ++ ("-" +:+ a) :: ("-" +:+ b) :: post) E) o data q.
Proof.
  intros Hne Ha Hb. apply main_reading. rewrite !scan_app.
  destruct (scan pre _) as [s|]; [|reflexivity].
  cbn [mbind option_bind scan].
  rewrite !scan_step_option
    by (rewrite is_option_dash, ?positional_append; done).
  cbn [options long_options query].
  change (Py.drop 1 ("-" +:+ a +:+ b)) with (a +:+ b).
  change (Py.drop 1 ("-" +:+ a)) with a.
  change (Py.drop 1 ("-" +:+ b)) with b.
  by rewrite list_ascii_append, app_assoc.
Qed.

(** X4.  A flag that is none of the nine letters is ignored, without a
    message: the call with such an argument (a lone dash, or a dash and
    other letters) is the call without it. *)
Theorem unknown_flags_are_ignored o data q pre post arg :
  is_option arg = true ->
  flags_of (list_ascii_of_string (Py.drop 1 arg)) = flags_of [] ->
  run_main (with_argv (pre ++ arg :: post) E) o data q =
  run_main (with_argv (pre ++ post) E) o data q.
Proof.
  intros Ho Hf. apply main_flags. rewrite !scan_app.
  destruct (scan pre _) as [s|]; [|reflexivity].
  cbn [mbind option_bind scan]. rewrite (scan_step_option _ _ Ho).
  apply scan_flags. unfold reading_flags. cbn [options query]. f_equal.
  revert Hf. generalize (list_ascii_of_string (Py.drop 1 arg)). intros l.
  unfold flags_of, flag_letters. cbn [map]. rewrite !has_app.
  intros [= -> -> -> -> -> -> -> -> ->]. by rewrite !orb_false_r.
Qed.

(** X5.  The place of a flag argument does not matter: it can change
    places with the argument after it, whatever that is (a flag, a long
    option, well formed or not, or a query). *)
Theorem flags_commute o data q pre post a b :
  is_option a = true ->
  run_main (with_argv (pre ++ a :: b :: post) E) o data q =
  run_main (with_argv (pre ++ b :: a :: post) E) o data q.
Proof.
  intros Ha. apply main_flags. rewrite !scan_app.
  destruct (scan pre _) as [s|]; [|reflexivity].
  cbn [mbind option_bind scan]. rewrite (scan_step_option _ _ Ha).
  destruct (is_option b) eqn:Hb.
  - rewrite !(scan_step_option _ _ Hb), (scan_step_option _ _ Ha).
    apply scan_flags. unfold reading_flags. cbn [options query]. f_equal.
    unfold flags_of. apply map_ext. intros c. rewrite !has_app.
    by destruct (has c (options s)), (has c _), (has c _).
  - unfold scan_step at 1 2. rewrite Hb. cbn [options long_options query].
    destruct (is_long b).
    + destruct (long_option (Py.drop 2 b)) as [[k v]|]; [|reflexivity].
      by rewrite (scan_step_option _ _ Ha).
    + by rewrite (scan_step_option _ _ Ha).
Qed.

Lemma scan_step_query a arg a' :
  scan_step a arg = Some a' ->
  query a' = query a \/ (query a' = arg /\ positional arg = true).
Proof.
  destruct (positional arg) eqn:Hp.
  - rewrite (scan_step_positional _ _ Hp). intros [= <-]. by right.
  - intros H. left. by eapply scan_step_dash.
Qed.

Lemma scan_query args : forall a a',
  scan args a = Some a' ->
  query a' = query a \/ ((query a' ∈ args) /\ positional (query a') = true).
Proof.
  induction args as [|arg rest IH]; intros a a'; simpl.
  - intros [= <-]. by left.
  - destruct (scan_step a arg) as [a1|] eqn:Hs; [|discriminate].
    intros H. apply IH in H as [H|[H1 H2]].
    + apply scan_step_query in Hs as [Hs|[Hs1 Hs2]].
      * left. congruence.
      * right. rewrite H, Hs1. split; [apply list_elem_of_here|done].
    + right. split; [by apply list_elem_of_further|done].
Qed.

(** X6.  The query [pyquery] gets is the parameter of [main] or an
    argument that does not start with a dash: a query that starts with a
    dash cannot be given as an argument. *)
Theorem query_has_no_dash o data q ev x :
  ev ∈ p_log (run_main E o data q).1 -> ev_fun ev = FPyQuery ->
  ev_arg ev = Some x ->
  x = q \/ ((x ∈ argv E) /\ Py.startswith "-" x = false).
Proof.
  intros Hin Hf. rewrite (query_event E o data q ev Hin Hf). intros [= <-].
  unfold call_query, parsed.
  destruct (scan (argv E) _) as [a|] eqn:Hs; [|by left].
  apply scan_query in Hs as [Hs|[Hs1 Hs2]]; [by left|right].
  split; [done|]. unfold positional in Hs2. by apply negb_true_iff.
Qed.

End Flags.

(** ** Help, streams, order *)

Lemma but_last_append s c : but_last (s +:+ String c EmptyString) = s.
Proof.
  unfold but_last. rewrite length_append. simpl.
  replace (String.length s + 1 - 1)%nat with (String.length s) by lia.
  by apply take_append.
Qed.

Lemma call_opts_helpme E o q : helpme o = true -> helpme (call_opts E o q) = true.
Proof.
  intros H. unfold call_opts. destruct (parsed E q); [|exact H].
  simpl. by rewrite H.
Qed.

Section More.

Context {L : JelloLib}.
Variable E : Env.

(** X7.  Help sticks: once [helpme] is set in the option object, as a
    call with [-h] leaves it, every call prints the help text and exits
    with status 0, whatever its arguments and its data are. *)
Theorem help_sticks o data q :
  helpme o = true ->
  run_main E o data q = helptext E (start (call_opts E o q)) /\
  (print_raises E helptext_text = None ->
   p_stdout (run_main E o data q).1 = [helptext_text] /\
   p_stderr (run_main E o data q).1 = [] /\
   (run_main E o data q).2 = Exit 0).
Proof.
  intros Hh.
  assert (run_main E o data q = helptext E (start (call_opts E o q))) as Hrun.
  { pose proof (call_opts_helpme E o q Hh) as Hc. revert Hc.
    unfold run_main, call_opts. rewrite main_eq.
    destruct (parsed E q) as [a|]; [|reflexivity].
    cbn [with_opts p_opts start]. by intros ->. }
  split; [exact Hrun|]. intros Hp. rewrite Hrun, helptext_run by exact Hp. done.
Qed.

(** X8.  Help and version come before the data: a call that ends in the
    help or version text is the same whatever is piped or given as data,
    also with no data at all; it prints nothing on stderr and calls
    nothing but [print]. *)
Theorem info_ignores_data o data q :
  asks_info E o q = true ->
  (forall data' text',
     run_main (with_stdin text' E) o data' q = run_main E o data q) /\
  p_stderr (run_main E o data q).1 = [] /\
  (forall ev, ev ∈ p_log (run_main E o data q).1 -> ev_fun ev = FPrint) /\
  (forall ev, ev ∈ p_log (run_main E o data q).1 -> ev_raised ev = false ->
     (run_main E o data q).2 = Exit 0).
Proof.
  unfold asks_info, call_opts. intros Hinfo. split; [|revert Hinfo].
  - intros data' text'. unfold run_main. rewrite !main_eq.
    change (parsed (with_stdin text' E) q) with (parsed E q).
    destruct (parsed E q) as [a|]; [|reflexivity].
    cbn [with_opts p_opts start] in *.
    destruct (helpme (set_opts (options a) o)); [reflexivity|].
    rewrite orb_false_l in Hinfo. by rewrite Hinfo.
  - run_cases; try discriminate; intros _.
    all: repeat split; try reflexivity.
    all: intros ev Hin; split_elem Hin; subst; try reflexivity; try discriminate.
Qed.

(** X9.  A call prints at most one text on stdout and at most one on
    stderr, and never on both; with a text on stdout the exit status is
    0, with a text on stderr it is 1; and a call that returns has printed
    nothing on stderr, and nothing on stdout only when the data is
    blank. *)
Theorem one_stream o data q :
  (length (p_stdout (run_main E o data q).1) <= 1)%nat /\
  (length (p_stderr (run_main E o data q).1) <= 1)%nat /\
  (p_stdout (run_main E o data q).1 <> [] ->
     p_stderr (run_main E o data q).1 = [] /\
     exit_status (run_main E o data q).2 = 0%Z) /\
  (p_stderr (run_main E o data q).1 <> [] ->
     exit_status (run_main E o data q).2 = 1%Z) /\
  ((run_main E o data q).2 = Ok tt ->
     p_stderr (run_main E o data q).1 = [] /\
     (p_stdout (run_main E o data q).1 = [] ->
      exists d, piped E data = Some d /\ has_data d = false)).
Proof.
  run_cases.
  all: repeat split; simpl; try lia; try done.
  all: try (intros _; eexists; split; [reflexivity|done]).
Qed.

(** X10.  Every text [main] prints on stderr starts with [jello:] and two
    spaces. *)
Theorem stderr_prefix o data q msg :
  msg ∈ p_stderr (run_main E o data q).1 ->
  Py.startswith "jello:  " msg = true.
Proof.
  run_cases.
  all: intros Hin; split_elem Hin; subst; reflexivity.
Qed.

(** X11.  The calls of a run come in the order of the stages: the
    functions called are the beginning of one of three sequences (loading,
    query, then [create_json] and [print], or [create_json], [highlight]
    and [print], or the four schema functions and [print]), or the one
    [print] of the help or version text. *)
Theorem calls_in_order o data q :
  ev_fun <$> p_log (run_main E o data q).1 = [FPrint] \/
  ev_fun <$> p_log (run_main E o data q).1 `prefix_of` json_calls \/
  ev_fun <$> p_log (run_main E o data q).1 `prefix_of` highlight_calls \/
  ev_fun <$> p_log (run_main E o data q).1 `prefix_of` schema_calls.
Proof.
  run_cases.
  all: try (cbn [schema set_mono] in *; congruence).
  all: apply (bool_decide_unpack _); exact I.
Qed.

(** X12.  A call changes the option object by the flags of its arguments
    and in one more way only: in schema mode [mono] is set when stdout is
    no terminal or pygments is missing, as soon as the schema object has
    its colours, and it stays set for the calls that follow. *)
Theorem opts_after_a_call o data q :
  (p_opts (run_main E o data q).1 = call_opts E o q \/
   p_opts (run_main E o data q).1 = set_mono (call_opts E o q) /\
   schema (call_opts E o q) = true /\
   stdout_isatty E && PYGMENTS_INSTALLED E = false) /\
  (mkEvent FSetColors None false ∈ p_log (run_main E o data q).1 ->
   stdout_isatty E && PYGMENTS_INSTALLED E = false ->
   mono (p_opts (run_main E o data q).1) = true).
Proof.
  unfold call_opts. run_cases.
  all: split; [|intros Hin Htty; split_elem Hin; try discriminate Hin].
  all: try (left; reflexivity).
  all: try reflexivity.
  all: try (right; repeat split; try done;
            destruct (stdout_isatty E), (PYGMENTS_INSTALLED E); done).
  all: destruct (stdout_isatty E), (PYGMENTS_INSTALLED E); done.
Qed.

(** X13.  [highlight] is called only for JSON on a terminal: never in
    schema mode, never with [-m] or [-r], never when stdout is no terminal
    or pygments is missing; under these conditions a text of
    [create_json] is always highlighted.  What is printed is the
    highlighted text without its last character. *)
Theorem highlight_conditions o data q :
  (forall ev, ev ∈ p_log (run_main E o data q).1 -> ev_fun ev = FHighlight ->
     schema (call_opts E o q) = false /\ mono (call_opts E o q) = false /\
     raw (call_opts E o q) = false /\
     stdout_isatty E = true /\ PYGMENTS_INSTALLED E = true) /\
  (mkEvent FCreateJson None false ∈ p_log (run_main E o data q).1 ->
   mono (call_opts E o q) = false -> raw (call_opts E o q) = false ->
   stdout_isatty E = true -> PYGMENTS_INSTALLED E = true ->
   FHighlight ∈ ev_fun <$> p_log (run_main E o data q).1) /\
  (forall text, mkEvent FHighlight (Some text) false ∈ p_log (run_main E o data q).1 ->
     exists h, highlight (call_opts E o q) text = inr h /\
       output_text (drop 4 (p_log (run_main E o data q).1)) = Some (but_last h)) /\
  (forall s c, but_last (s +:+ String c EmptyString) = s).
Proof.
  unfold call_opts. split; [|split; [|split]]; [| | |apply but_last_append].
  - run_cases.
    all: intros ev Hin Hf; split_elem Hin; subst; try discriminate Hf.
    all: repeat match goal with
           | H : _ && _ = true |- _ => apply andb_prop in H as [? ?]
           | H : negb _ = true |- _ => apply negb_true_iff in H
           end; done.
  - run_cases.
    all: intros Hin Hm Hr Ht Hp; split_elem Hin; try discriminate Hin.
    all: try (apply (bool_decide_unpack _); exact I).
    all: try match goal with
         | H : _ && _ && _ && _ = false |- _ =>
             rewrite Hm, Hr, Ht, Hp in H; discriminate H
         end.
    all: congruence.
  - run_cases.
    all: intros text Hin; split_elem Hin; try discriminate Hin.
    all: try (cbn [schema set_mono] in *; congruence).
    all: injection Hin as ->; eexists; split; [eassumption|reflexivity].
Qed.

(** X14.  An error can get lost: when [pyquery] raises an exception whose
    attribute [text] holds [None], [print_exception] itself raises an
    [AttributeError]; the call ends with this uncaught exception (exit
    status 1) and has printed no message of its own, the query error
    included. *)
Theorem lost_error o data q d doc e :
  piped E data = Some d -> has_data d = true -> asks_info E o q = false ->
  load_json (call_opts E o q) d = inr doc ->
  pyquery (call_opts E o q) doc (call_query E q) = inl e ->
  ex_text e = TextNone ->
  run_main E o data q =
    (mkProc (call_opts E o q) [] []
       [mkEvent FLoadJson (Some d) false;
        mkEvent FPyQuery (Some (call_query E q)) true],
     Raise attribute_error).
Proof.
  unfold asks_info, call_opts, call_query.
  destruct (parsed E q) as [a|] eqn:Hp; [|discriminate].
  intros Hd Hdata [Hh Hv]%orb_false_elim Hload Hq Ht.
  unfold_run. rewrite Hp, Hh, Hv, Hd, Hdata, Hload.
  cbn [p_opts p_stdout p_stderr p_log app]. rewrite Hq.
  cbn [p_opts p_stdout p_stderr p_log app]. by rewrite Ht.
Qed.

End More.

(** ** Long options *)

Lemma split_cons sep c s :
  Py.split sep (String c s) =
    if Ascii.eqb c sep then EmptyString :: Py.split sep s
    else match Py.split sep s with
         | [] => [String c EmptyString]
         | w :: ws => String c w :: ws
         end.
Proof. reflexivity. Qed.

Lemma split_no_sep sep s :
  sep ∉ list_ascii_of_string s -> Py.split sep s = [s].
Proof.
  induction s as [|c s IH]; [reflexivity|]. simpl list_ascii_of_string.
  intros [Hc Hs]%not_elem_of_cons. rewrite split_cons, (IH Hs).
  destruct (Ascii.eqb c sep) eqn:He; [|reflexivity].
  apply Ascii.eqb_eq in He. congruence.
Qed.

(** One separator: two parts. *)
Lemma split_one sep k v :
  (sep ∉ list_ascii_of_string k) -> (sep ∉ list_ascii_of_string v) ->
  Py.split sep (k +:+ String sep v) = [k; v].
Proof.
  intros Hk Hv. induction k as [|c k IH].
  - rewrite append_empty, split_cons, Ascii.eqb_refl. by rewrite split_no_sep.
  - simpl list_ascii_of_string in Hk. apply not_elem_of_cons in Hk as [Hc Hk].
    rewrite append_cons, split_cons, (IH Hk).
    destruct (Ascii.eqb c sep) eqn:He; [|reflexivity].
    apply Ascii.eqb_eq in He. congruence.
Qed.

(** The first part of a text holds no separator; the other parts are
    the parts of what follows the first separator. *)
Lemma split_head sep s :
  exists w ws,
    Py.split sep s = w :: ws /\ (sep ∉ list_ascii_of_string w) /\
    match ws with
    | [] => s = w
    | _ => exists rest, s = w +:+ String sep rest /\ Py.split sep rest = ws
    end.
Proof.
  induction s as [|c s (w & ws & Hs & Hw & Hrest)].
  - exists EmptyString, []. repeat split. apply not_elem_of_nil.
  - rewrite split_cons, Hs. destruct (Ascii.eqb c sep) eqn:He.
    + apply Ascii.eqb_eq in He as ->. exists EmptyString, (w :: ws).
      repeat split; [apply not_elem_of_nil|]. by exists s.
    + exists (String c w), ws. repeat split.
      * simpl. apply not_elem_of_cons. split; [|exact Hw].
        intros ->. by rewrite Ascii.eqb_refl in He.
      * destruct ws as [|v vs]; [by rewrite Hrest|].
        destruct Hrest as (rest & -> & Hr). by exists rest.
Qed.

(** Two parts: between them stood the separator, in them it does not
    occur. *)
Lemma split_two sep s k v :
  Py.split sep s = [k; v] ->
  s = k +:+ String sep v /\
  (sep ∉ list_ascii_of_string k) /\ (sep ∉ list_ascii_of_string v).
Proof.
  intros Hs. destruct (split_head sep s) as (w & ws & Hs' & Hw & Hrest).
  rewrite Hs in Hs'. injection Hs' as <- <-.
  destruct Hrest as (rest & -> & Hr).
  destruct (split_head sep rest) as (w2 & ws2 & Hr' & Hw2 & Hrest2).
  rewrite Hr in Hr'. injection Hr' as <- <-. subst rest. done.
Qed.

(** X15.  What the loop accepts after the two dashes is a key, one [=]
    and a value that [int] reads: the key and the value hold no [=], so a
    value with an [=] in it and an argument without [=] are refused. *)
Theorem long_option_shape s k z :
  long_option s = Some (k, z) ->
  exists v,
    s = k +:+ String equals v /\ Py.int v = Some z /\
    (equals ∉ list_ascii_of_string k) /\ (equals ∉ list_ascii_of_string v).
Proof.
  unfold long_option.
  destruct (Py.split "=" s) as [|k' [|v [|x l]]] eqn:Hs; try discriminate.
  destruct (Py.int v) as [z'|] eqn:Hv; simpl; [|discriminate].
  intros [= <- <-]. exists v.
  apply split_two in Hs as (-> & Hk & Hv'). by repeat split.
Qed.

(** *** Decimal numerals *)

Lemma digit_not_space c : Py.is_digit c = true -> Py.is_int_space c = false.
Proof.
  unfold Py.is_digit, Py.is_int_space.
  intros [H1 H2]%andb_prop. apply Nat.leb_le in H1, H2.
  repeat apply orb_false_intro.
  - apply andb_false_iff. right. apply Nat.leb_gt. lia.
  - apply Nat.eqb_neq. lia.
  - apply Nat.eqb_neq. lia.
  - apply Nat.eqb_neq. lia.
Qed.

Lemma lstrip_head c r : Py.is_int_space c = false -> Py.lstrip (c :: r) = c :: r.
Proof. intros H. simpl. by rewrite H. Qed.

(** A text that neither starts nor ends with white space is not
    stripped. *)
Lemma strip_id c m d :
  Py.is_int_space c = false -> Py.is_int_space d = false ->
  Py.strip (c :: m ++ [d]) = c :: m ++ [d].
Proof.
  intros Hc Hd. unfold Py.strip. rewrite (lstrip_head _ _ Hc).
  change (c :: m ++ [d]) with ((c :: m) ++ [d]).
  rewrite rev_app_distr. simpl rev at 2. cbn [app].
  rewrite (lstrip_head _ _ Hd).
  change (d :: rev (c :: m)) with ([d] ++ rev (c :: m)).
  by rewrite rev_app_distr, rev_involutive.
Qed.

Lemma strip_one c : Py.is_int_space c = false -> Py.strip [c] = [c].
Proof. intros Hc. unfold Py.strip. simpl. rewrite Hc. simpl. by rewrite Hc. Qed.

Lemma int_digits_all ds : forall acc,
  Forall (fun c => Py.is_digit c = true) ds ->
  Py.int_digits acc true ds =
    Some (fold_left (fun a c => (10 * a + Py.digit_val c)%Z) ds acc).
Proof.
  induction ds as [|c ds IH]; intros acc Hd; [reflexivity|].
  apply Forall_cons in Hd as [Hc Hd]. simpl. rewrite Hc. by apply IH.
Qed.

Lemma int_unsigned_digits ds :
  ds <> [] -> Forall (fun c => Py.is_digit c = true) ds ->
  Py.int_unsigned ds = Some (decimal_value ds).
Proof.
  destruct ds as [|c ds]; [done|]. intros _ Hd.
  pose proof Hd as [Hc Hd']%Forall_cons. unfold Py.int_unsigned. rewrite Hc.
  rewrite int_digits_all by done. unfold decimal_value. simpl.
  by replace (0 + Py.digit_val c)%Z with (Py.digit_val c) by lia.
Qed.

Lemma count_digits_all ds :
  Forall (fun c => Py.is_digit c = true) ds -> Py.count_digits ds = length ds.
Proof.
  induction 1 as [|c ds Hc _ IH]; [reflexivity|]. simpl. by rewrite Hc, IH.
Qed.

Lemma pretty_N_char_digit d :
  (d < 10)%N ->
  Py.is_digit (pretty_N_char d) = true /\
  Py.digit_val (pretty_N_char d) = Z.of_N d.
Proof.
  intros Hd.
  assert (d = 0 \/ d = 1 \/ d = 2 \/ d = 3 \/ d = 4 \/ d = 5 \/ d = 6 \/ d = 7
          \/ d = 8 \/ d = 9)%N as H by lia.
  repeat (destruct H as [->|H]; [by split|]). subst. by split.
Qed.

(** The characters [pretty_N_go] puts before [s] are the decimal digits
    of [x], as many as [x] needs. *)
Lemma pretty_N_go_digits x : forall s,
  (0 < x)%N ->
  exists ds,
    list_ascii_of_string (pretty_N_go x s) = ds ++ list_ascii_of_string s /\
    ds <> [] /\ Forall (fun c => Py.is_digit c = true) ds /\
    decimal_value ds = Z.of_N x /\
    (10 ^ (Z.of_nat (length ds) - 1) <= Z.of_N x < 10 ^ Z.of_nat (length ds))%Z.
Proof.
  induction (N.lt_wf_0 x) as [x _ IH]. intros s Hx.
  rewrite pretty_N_go_step by done.
  assert (x `mod` 10 < 10)%N as Hm by (apply N.mod_lt; lia).
  destruct (pretty_N_char_digit _ Hm) as [Hd Hv].
  pose proof (N.div_mod x 10 ltac:(lia)) as Hdm.
  assert (Z.of_N x = 10 * Z.of_N (x `div` 10) + Z.of_N (x `mod` 10))%Z as HdmZ.
  { rewrite Hdm at 1. by rewrite N2Z.inj_add, N2Z.inj_mul. }
  assert (0 <= Z.of_N (x `mod` 10) < 10)%Z as HmZ.
  { split; [apply N2Z.is_nonneg|]. change 10%Z with (Z.of_N 10). by apply N2Z.inj_lt. }
  destruct (decide (x `div` 10 = 0)%N) as [Hz|Hz].
  - rewrite Hz, pretty_N_go_0. exists [pretty_N_char (x `mod` 10)].
    repeat split; [done|by constructor| | |].
    + unfold decimal_value. simpl. rewrite Hv. lia.
    + simpl. lia.
    + simpl. lia.
  - destruct (IH (x `div` 10)%N) with (s := String (pretty_N_char (x `mod` 10)) s)
      as (ds & Hds & Hne & Hall & Hval & Hlo & Hhi).
    + apply N.div_lt; lia.
    + by apply N.neq_0_lt_0.
    + assert (1 <= Z.of_nat (length ds))%Z as Hlen by (destruct ds; [done|simpl; lia]).
      assert (10 ^ Z.of_nat (length ds) = 10 * 10 ^ (Z.of_nat (length ds) - 1))%Z as Hp1.
      { rewrite <- Z.pow_succ_r by lia. f_equal. lia. }
      assert (10 ^ Z.of_nat (length (ds ++ [pretty_N_char (x `mod` 10)]))
              = 10 * 10 ^ Z.of_nat (length ds))%Z as Hp2.
      { rewrite length_app. simpl. rewrite <- Z.pow_succ_r by lia. f_equal. lia. }
      assert (Z.of_nat (length (ds ++ [pretty_N_char (x `mod` 10)])) - 1
              = Z.of_nat (length ds))%Z as Hp3.
      { rewrite length_app. simpl. lia. }
      exists (ds ++ [pretty_N_char (x `mod` 10)]). repeat split.
      * rewrite Hds. simpl. by rewrite <- app_assoc.
      * by destruct ds.
      * apply Forall_app. split; [done|by constructor].
      * unfold decimal_value in *. rewrite fold_left_app. simpl.
        rewrite Hval, Hv. lia.
      * rewrite Hp3, Hp1, HdmZ. clear -Hlo HmZ.
        set (P := (10 ^ (Z.of_nat (length ds) - 1))%Z) in *.
        set (a := Z.of_N (x `div` 10)) in *. set (r := Z.of_N (x `mod` 10)) in *.
        clearbody P a r. lia.
      * rewrite Hp2, Hp1, HdmZ. rewrite Hp1 in Hhi. clear -Hhi HmZ.
        set (P := (10 ^ (Z.of_nat (length ds) - 1))%Z) in *.
        set (a := Z.of_N (x `div` 10)) in *. set (r := Z.of_N (x `mod` 10)) in *.
        clearbody P a r. lia.
Qed.

Lemma pretty_positive_digits p :
  exists ds,
    list_ascii_of_string (pretty (Npos p)) = ds /\
    ds <> [] /\ Forall (fun c => Py.is_digit c = true) ds /\
    decimal_value ds = Zpos p /\
    (10 ^ (Z.of_nat (length ds) - 1) <= Zpos p < 10 ^ Z.of_nat (length ds))%Z.
Proof.
  unfold pretty, pretty_N. rewrite decide_False by done.
  destruct (pretty_N_go_digits (Npos p) EmptyString)
    as (ds & Hds & Hne & Hall & Hval & Hb); [lia|].
  exists ds. simpl in Hds. rewrite app_nil_r in Hds.
  repeat split; try done; apply Hb.
Qed.

(** The number of digits against the limit [m]. *)
Lemma digits_limit n (x m : Z) :
  (0 <= m)%Z -> (10 ^ (Z.of_nat n - 1) <= x < 10 ^ Z.of_nat n)%Z -> (1 <= n)%nat ->
  (m <? Z.of_nat n)%Z = negb (x <? 10 ^ m)%Z.
Proof.
  intros Hm [Hlo Hhi] Hn.
  destruct (Z.ltb_spec m (Z.of_nat n)) as [Hlt|Hge];
    destruct (Z.ltb_spec x (10 ^ m)) as [Hx|Hx]; try reflexivity; exfalso.
  - assert (10 ^ m <= 10 ^ (Z.of_nat n - 1))%Z by (apply Z.pow_le_mono_r; lia). lia.
  - assert (10 ^ Z.of_nat n <= 10 ^ m)%Z by (apply Z.pow_le_mono_r; lia). lia.
Qed.

(** A non-empty list of digits, by its ends. *)
Lemma digits_ends ds :
  ds <> [] -> Forall (fun c => Py.is_digit c = true) ds ->
  (exists c, ds = [c] /\ Py.is_digit c = true) \/
  (exists c m d, ds = c :: m ++ [d] /\ Py.is_digit c = true /\ Py.is_digit d = true).
Proof.
  destruct ds as [|c ds]; [done|]. intros _ [Hc Hd]%Forall_cons.
  destruct (decide (ds = [])) as [->|Hne]; [left; by exists c|right].
  destruct (exists_last Hne) as (m & d & ->).
  exists c, m, d. apply Forall_app in Hd as [_ Hd]. apply Forall_cons in Hd as [Hd _].
  done.
Qed.

Lemma strip_digits ds :
  ds <> [] -> Forall (fun c => Py.is_digit c = true) ds -> Py.strip ds = ds.
Proof.
  intros Hne Hall.
  destruct (digits_ends ds Hne Hall) as [(c & -> & Hc)|(c & m & d & -> & Hc & Hd)].
  - by apply strip_one, digit_not_space.
  - by apply strip_id; apply digit_not_space.
Qed.

Lemma strip_minus_digits ds :
  ds <> [] -> Forall (fun c => Py.is_digit c = true) ds ->
  Py.strip ("-"%char :: ds) = "-"%char :: ds.
Proof.
  intros Hne Hall. destruct (exists_last Hne) as (m & d & ->).
  apply strip_id; [reflexivity|].
  apply Forall_app in Hall as [_ Hd]. apply Forall_cons in Hd as [Hd _].
  by apply digit_not_space.
Qed.

Lemma digit_not c x :
  Py.is_digit x = false -> Forall (fun c => Py.is_digit c = true) c -> x ∉ c.
Proof.
  intros Hx Hall Hin. rewrite Forall_forall in Hall.
  apply Hall in Hin. congruence.
Qed.

(** [int] reads the decimal text of an integer back when the integer is
    below ten to the power of the limit, and refuses it otherwise. *)
Lemma int_pretty (z : Z) :
  Py.int (pretty z) =
    (if (Z.abs z <? 10 ^ Py.int_max_str_digits)%Z then Some z else None) /\
  (equals ∉ list_ascii_of_string (pretty z)).
Proof.
  destruct z as [|p|p].
  - split; [reflexivity|]. vm_compute. intros H.
    apply list_elem_of_In in H. destruct H as [H|[]]. discriminate H.
  - destruct (pretty_positive_digits p) as (ds & Hds & Hne & Hall & Hval & Hb).
    change (pretty (Zpos p)) with (pretty (Npos p)).
    unfold Py.int. rewrite Hds, strip_digits by done. split; [|by apply digit_not].
    rewrite (count_digits_all _ Hall).
    rewrite (digits_limit (length ds) (Zpos p) Py.int_max_str_digits);
      [|done|exact Hb|destruct ds; [done|simpl; lia]].
    change (Z.abs (Zpos p)) with (Zpos p).
    destruct (Zpos p <? 10 ^ Py.int_max_str_digits)%Z; [|reflexivity]. cbn [negb].
    destruct ds as [|c r]; [done|].
    pose proof Hall as [Hc _]%Forall_cons.
    assert (Ascii.eqb c "-" = false) as ->
      by (apply Ascii.eqb_neq; intros ->; discriminate Hc).
    assert (Ascii.eqb c "+" = false) as ->
      by (apply Ascii.eqb_neq; intros ->; discriminate Hc).
    rewrite int_unsigned_digits by done. by rewrite Hval.
  - destruct (pretty_positive_digits p) as (ds & Hds & Hne & Hall & Hval & Hb).
    change (pretty (Zneg p)) with ("-" +:+ pretty (Npos p)).
    rewrite append_cons, append_empty. unfold Py.int. simpl list_ascii_of_string.
    rewrite Hds, strip_minus_digits by done. split.
    + change (Py.count_digits ("-"%char :: ds)) with (Py.count_digits ds).
      rewrite (count_digits_all _ Hall).
      rewrite (digits_limit (length ds) (Zpos p) Py.int_max_str_digits);
        [|done|exact Hb|destruct ds; [done|simpl; lia]].
      change (Z.abs (Zneg p)) with (Zpos p).
      destruct (Zpos p <? 10 ^ Py.int_max_str_digits)%Z; [|reflexivity]. cbn [negb].
      rewrite Ascii.eqb_refl, int_unsigned_digits by done. simpl. rewrite Hval.
      reflexivity.
    + apply not_elem_of_cons. split; [done|]. by apply digit_not.
Qed.

Lemma is_long_dashes x : is_long ("--" +:+ x) = true.
Proof.
  unfold is_long, Py.startswith.
  change ("--" +:+ x) with (String "-" (String "-" x)). cbn -[ascii_dec].
  destruct (ascii_dec "-" "-"); [|done]. by destruct x.
Qed.

(** X16.  A [--key=integer] with the integer in decimal and a key without
    [=] is a well-formed long option, and the loop reads the key and the
    integer back, when the integer has at most 4300 digits (the limit of
    [int]); with more digits the argument is refused like any malformed
    long option. *)
Theorem decimal_long_option k (z : Z) :
  (equals ∉ list_ascii_of_string k) ->
  ((Z.abs z < 10 ^ Py.int_max_str_digits)%Z ->
     long_option (k +:+ String equals (pretty z)) = Some (k, z) /\
     well_formed_long ("--" +:+ k +:+ String equals (pretty z)) = true) /\
  ((10 ^ Py.int_max_str_digits <= Z.abs z)%Z ->
     long_option (k +:+ String equals (pretty z)) = None /\
     malformed_long ("--" +:+ k +:+ String equals (pretty z)) = true).
Proof.
  intros Hk. destruct (int_pretty z) as [Hint Hno].
  assert (long_option (k +:+ String equals (pretty z)) =
            if (Z.abs z <? 10 ^ Py.int_max_str_digits)%Z then Some (k, z) else None)
    as Hl.
  { unfold long_option. change "="%char with equals.
    rewrite (split_one equals k (pretty z) Hk Hno), Hint.
    by destruct (Z.abs z <? 10 ^ Py.int_max_str_digits)%Z. }
  unfold well_formed_long, malformed_long.
  change (Py.drop 2 ("--" +:+ k +:+ String equals (pretty z)))
    with (k +:+ String equals (pretty z)).
  rewrite Hl, is_long_dashes. split.
  - intros Hz%Z.ltb_lt. rewrite Hz. split; [reflexivity|].
    by apply bool_decide_eq_true.
  - intros Hz%Z.ltb_ge. rewrite Hz. split; [reflexivity|].
    by apply bool_decide_eq_true.
Qed.

(** ** The data parameter and stdin; help before version *)

Section Input.

Context {L : JelloLib}.
Variable E : Env.

(** X17.  The data comes from the parameter [data] when it is given and
    from stdin only otherwise: with [data] given, what stdin holds makes
    no difference (it is not read), and a call without [data] whose stdin
    holds a text is the call with that text as [data]. *)
Theorem data_before_stdin o q d text :
  run_main (with_stdin text E) o (Some d) q = run_main E o (Some d) q /\
  run_main (with_stdin (Some d) E) o None q = run_main E o (Some d) q.
Proof.
  unfold run_main. rewrite !main_eq.
  change (parsed (with_stdin text E) q) with (parsed E q).
  change (parsed (with_stdin (Some d) E) q) with (parsed E q).
  split; destruct (parsed E q) as [a|]; reflexivity.
Qed.

(** X18.  Help comes before version: a call whose flags ask for help (by
    [-h] or by [helpme] left set) prints the help text, also when [-v] is
    given with it; the version text is printed only when no help is asked
    for, and then nothing else is, the exit status being 0 in both
    cases. *)
Theorem help_before_version o data q a :
  parsed E q = Some a ->
  version_info (call_opts E o q) = true ->
  (forall s, print_raises E s = None) ->
  let text := if helpme (call_opts E o q) then helptext_text else version_text in
  p_stdout (run_main E o data q).1 = [text] /\
  p_stderr (run_main E o data q).1 = [] /\
  (run_main E o data q).2 = Exit 0 /\
  p_log (run_main E o data q).1 = [mkEvent FPrint (Some text) false].
Proof.
  unfold call_opts. intros Ha Hv Hp. unfold_run. rewrite Ha in *.
  cbn [p_opts] in *.
  destruct (helpme (set_opts (options a) o)).
  - rewrite Hp. done.
  - rewrite Hv, Hp. done.
Qed.

End Input.

(** ** The further properties at sample calls *)

Lemma flags_cluster_witness :
  Sample.run ["-cs"; "_.a"] Sample.fresh Sample.doc =
  Sample.run ["-c"; "-s"; "_.a"] Sample.fresh Sample.doc.
Proof.
  apply (flags_cluster (L:=Core.lib) (Sample.env []) Sample.fresh
           (Some Sample.doc) default_query [] ["_.a"] "c" "s");
    [discriminate|reflexivity|reflexivity].
Defined.

Lemma unknown_flags_witness :
  Sample.run ["-c"; "-xyz"; "_.a"] Sample.fresh Sample.doc =
  Sample.run ["-c"; "_.a"] Sample.fresh Sample.doc.
Proof.
  apply (unknown_flags_are_ignored (L:=Core.lib) (Sample.env []) Sample.fresh
           (Some Sample.doc) default_query ["-c"] ["_.a"] "-xyz");
    reflexivity.
Defined.

Lemma flags_commute_witness :
  Sample.run ["-c"; "_.a"; "-l"] Sample.fresh Sample.doc =
  Sample.run ["_.a"; "-c"; "-l"] Sample.fresh Sample.doc.
Proof.
  apply (flags_commute (L:=Core.lib) (Sample.env []) Sample.fresh
           (Some Sample.doc) default_query [] ["-l"] "-c" "_.a").
  reflexivity.
Defined.

Lemma query_has_no_dash_witness :
  mkEvent FPyQuery (Some "_.a") false
    ∈ p_log (Sample.run ["-c"; "_.a"] Sample.fresh Sample.doc).1 /\
  ("_.a" = default_query \/
   ("_.a" ∈ ["-c"; "_.a"]) /\ Py.startswith "-" "_.a" = false).
Proof.
  assert (mkEvent FPyQuery (Some "_.a") false
            ∈ p_log (Sample.run ["-c"; "_.a"] Sample.fresh Sample.doc).1) as Hin.
  { vm_compute. apply list_elem_of_further, list_elem_of_here. }
  split; [exact Hin|].
  exact (query_has_no_dash (L:=Core.lib) (Sample.env ["-c"; "_.a"]) Sample.fresh
           (Some Sample.doc) default_query _ "_.a" Hin eq_refl eq_refl).
Defined.

Lemma help_sticks_witness :
  p_stdout (Sample.run ["-c"; "_.a"]
              (p_opts (Sample.run ["-h"] Sample.fresh Sample.doc).1)
              Sample.doc).1 = [helptext_text] /\
  (Sample.run ["-c"; "_.a"]
     (p_opts (Sample.run ["-h"] Sample.fresh Sample.doc).1) Sample.doc).2 = Exit 0.
Proof.
  destruct (help_sticks (L:=Core.lib) (Sample.env ["-c"; "_.a"])
              (p_opts (Sample.run ["-h"] Sample.fresh Sample.doc).1)
              (Some Sample.doc) default_query eq_refl) as [_ H].
  destruct (H eq_refl) as (Hout & _ & Hexit). split; [exact Hout|exact Hexit].
Defined.

Lemma info_ignores_data_witness :
  Sample.run ["-v"] Sample.fresh Sample.malformed =
  run_main (L:=Core.lib) (Sample.env ["-v"]) Sample.fresh None default_query.
Proof.
  destruct (info_ignores_data (L:=Core.lib) (Sample.env ["-v"]) Sample.fresh
              None default_query eq_refl) as [H _].
  exact (H (Some Sample.malformed) None).
Defined.

Lemma stderr_prefix_witness :
  load_message (Core.exn (Core.ParseError 1 6))
    ∈ p_stderr (Sample.run [] Sample.fresh Sample.malformed).1 /\
  Py.startswith "jello:  " (load_message (Core.exn (Core.ParseError 1 6))) = true.
Proof.
  assert (load_message (Core.exn (Core.ParseError 1 6))
            ∈ p_stderr (Sample.run [] Sample.fresh Sample.malformed).1) as Hin.
  { vm_compute. apply list_elem_of_here. }
  split; [exact Hin|].
  exact (stderr_prefix (L:=Core.lib) (Sample.env []) Sample.fresh
           (Some Sample.malformed) default_query _ Hin).
Defined.

Lemma opts_after_a_call_witness :
  mkEvent FSetColors None false
    ∈ p_log (Sample.run ["-s"] Sample.fresh Sample.doc).1 /\
  mono (p_opts (Sample.run ["-s"] Sample.fresh Sample.doc).1) = true.
Proof.
  assert (mkEvent FSetColors None false
            ∈ p_log (Sample.run ["-s"] Sample.fresh Sample.doc).1) as Hin.
  { vm_compute. do 3 apply list_elem_of_further. apply list_elem_of_here. }
  split; [exact Hin|].
  exact (proj2 (opts_after_a_call (L:=Core.lib) (Sample.env ["-s"]) Sample.fresh
                  (Some Sample.doc) default_query) Hin eq_refl).
Defined.

Lemma highlight_conditions_witness :
  FHighlight ∈ ev_fun <$> p_log (Terminal.run ["_.a[0].b"] Sample.fresh Sample.doc).1 /\
  p_stdout (Terminal.run ["_.a[0].b"] Sample.fresh Sample.doc).1 = ["1"] /\
  FHighlight ∉ ev_fun <$> p_log (Terminal.run ["-m"; "_.a[0].b"] Sample.fresh Sample.doc).1.
Proof.
  split; [|split].
  - apply (proj1 (proj2 (highlight_conditions (L:=Core.lib)
                           (Terminal.env ["_.a[0].b"]) Sample.fresh
                           (Some Sample.doc) default_query))).
    + vm_compute. do 2 apply list_elem_of_further. apply list_elem_of_here.
    + reflexivity.
    + reflexivity.
    + reflexivity.
    + reflexivity.
  - vm_compute. reflexivity.
  - intros Hin. apply list_elem_of_fmap in Hin as (ev & Hf & Hin).
    destruct (proj1 (highlight_conditions (L:=Core.lib)
                       (Terminal.env ["-m"; "_.a[0].b"]) Sample.fresh
                       (Some Sample.doc) default_query) ev Hin (eq_sym Hf))
      as (_ & Hm & _).
    discriminate Hm.
Defined.

Lemma lost_error_witness :
  run_main (L:=Faulty.lib) (Sample.env ["_.a + 1"]) Sample.fresh
    (Some Sample.doc) default_query =
  (mkProc Sample.fresh [] []
     [mkEvent FLoadJson (Some Sample.doc) false;
      mkEvent FPyQuery (Some "_.a + 1") true],
   Raise attribute_error).
Proof.
  apply (lost_error (L:=Faulty.lib) (Sample.env ["_.a + 1"]) Sample.fresh
           (Some Sample.doc) default_query Sample.doc
           (Sample.loaded Sample.doc)
           (mkExn "SyntaxError" "invalid syntax" TextNone));
    reflexivity.
Defined.

Lemma long_option_shape_witness :
  long_option "indent=4" = Some ("indent", 4%Z) /\
  exists v,
    "indent=4" = "indent" +:+ String equals v /\ Py.int v = Some 4%Z /\
    (equals ∉ list_ascii_of_string "indent") /\ (equals ∉ list_ascii_of_string v).
Proof.
  split; [reflexivity|].
  exact (long_option_shape "indent=4" "indent" 4 eq_refl).
Defined.

Lemma decimal_long_option_witness :
  (equals ∉ list_ascii_of_string "indent") /\
  long_option ("indent" +:+ String equals (pretty (-12)%Z)) = Some ("indent", (-12)%Z) /\
  malformed_long
    ("--" +:+ "indent" +:+ String equals (pretty (10 ^ Py.int_max_str_digits)%Z))
    = true.
Proof.
  assert (equals ∉ list_ascii_of_string "indent") as Hk.
  { cbn [list_ascii_of_string]. rewrite !not_elem_of_cons.
    repeat split; try discriminate. apply not_elem_of_nil. }
  split; [exact Hk|]. split.
  - apply (proj1 (decimal_long_option "indent" (-12) Hk)).
    apply Z.ltb_lt. vm_compute. reflexivity.
  - apply (proj2 (decimal_long_option "indent" (10 ^ Py.int_max_str_digits) Hk)).
    apply Z.leb_le. vm_compute. reflexivity.
Defined.

Lemma help_before_version_witness :
  p_stdout (Sample.run ["-v"; "-h"] Sample.fresh Sample.doc).1 = [helptext_text] /\
  p_stdout (Sample.run ["-v"] Sample.fresh Sample.doc).1 = [version_text (L:=Core.lib)].
Proof.
  split.
  - exact (proj1 (help_before_version (L:=Core.lib) (Sample.env ["-v"; "-h"])
                    Sample.fresh (Some Sample.doc) default_query _
                    eq_refl eq_refl (fun _ => eq_refl))).
  - exact (proj1 (help_before_version (L:=Core.lib) (Sample.env ["-v"])
                    Sample.fresh (Some Sample.doc) default_query _
                    eq_refl eq_refl (fun _ => eq_refl))).
Defined.
